(** * Deferred parsing of C++ inline methods

    Source: lib/Parse/ParseCXXInlineMethods.cpp.

    A shallow embedding of the four routines of the file:
    [Parser::ConsumeAndStoreUntil], [Parser::ParseCXXInlineMethodDef],
    [Parser::ParseLexedMethodDeclarations] and [Parser::ParseLexedMethodDefs],
    over an explicit parser state (current token, rest of the token stream,
    the three delimiter counts, the stack of class frames) and a trace of the
    calls made to the collaborators (Sema actions, diagnostics, the parsers of
    the surrounding grammar). *)

From Stdlib Require Import String.
From Stdlib Require Import List Bool Arith Lia.
Import ListNotations.

(** ** Tokens *)

Module tok.

(** Modelled from the spec: the token kinds are declared outside this file.
    These are the kinds the file names, the comma and the equals sign of the
    spec's token model among them; every other kind is an [other n]. *)
Inductive TokenKind : Type :=
| unknown
| eof
| l_paren | r_paren
| l_square | r_square
| l_brace | r_brace
| string_literal | wide_string_literal
| colon | equal | semi | comma
| other (n : nat).

Definition eqb (a b : TokenKind) : bool :=
  match a, b with
  | unknown, unknown | eof, eof
  | l_paren, l_paren | r_paren, r_paren
  | l_square, l_square | r_square, r_square
  | l_brace, l_brace | r_brace, r_brace
  | string_literal, string_literal
  | wide_string_literal, wide_string_literal
  | colon, colon | equal, equal | semi, semi | comma, comma => true
  | other n, other m => Nat.eqb n m
  | _, _ => false
  end.

End tok.

Definition SourceLocation := nat.

(** Modelled from the spec: a token is an opaque lexical unit with a kind tag
    and a source location. *)
Record Token : Type := mkToken {
  getKind : tok.TokenKind;
  getLocation : SourceLocation
}.

(** [Token::is]. *)
Definition Token_is (t : Token) (k : tok.TokenKind) : bool :=
  tok.eqb (getKind t) k.

(** [CachedTokens]: the vector of tokens a deferred region is stored in. *)
Definition CachedTokens := list Token.

(** [Toks.push_back(Tok)]. *)
Definition push_back {A : Type} (v : list A) (x : A) : list A := v ++ [x].

(** ** The token cursor *)

(** Modelled from the spec: the members of [Parser] the file reads and writes
    are declared in Parser.h, outside this file.  [Tok] is the parser's
    lookahead token, [PP] what the preprocessor will hand out next; the three
    counts are the parser's [ParenCount], [BracketCount] and [BraceCount],
    the open counts of the three kinds of delimiter. *)

Record Cursor : Type := mkCursor {
  Tok : Token;
  PP : list Token;
  ParenCount : nat;
  BracketCount : nat;
  BraceCount : nat
}.

(** The token the lexer hands out once its input is used up. *)
Definition eofToken : Token := mkToken tok.eof 0.

(** Modelled from the spec: [Preprocessor::Lex] is declared outside this
    file.  The cursor's "advance" takes the next token of the stream; at the
    end of the input the lexer keeps answering end-of-input. *)
Definition Lex (c : Cursor) : Cursor :=
  match PP c with
  | [] => mkCursor eofToken [] (ParenCount c) (BracketCount c) (BraceCount c)
  | t :: rest => mkCursor t rest (ParenCount c) (BracketCount c) (BraceCount c)
  end.

(** Modelled from the spec: [Preprocessor::EnterTokenStream] is declared
    outside this file.  "Enter substitute token source": a finite token
    sequence is consumed before the original source continues. *)
Definition EnterTokenStream (toks : CachedTokens) (c : Cursor) : Cursor :=
  mkCursor (Tok c) (toks ++ PP c) (ParenCount c) (BracketCount c)
    (BraceCount c).

(** Modelled from the spec: the [Consume*] methods are declared in Parser.h,
    outside this file.  Each advances the cursor by one token; the three
    delimiter ones keep the "open count" of their kind: one more on an opening
    delimiter, one less on a closing one, never below zero.  [ConsumeToken]
    is the one for tokens that are neither delimiters nor string literals. *)
Definition ConsumeToken (c : Cursor) : Cursor := Lex c.

(** Modelled from the spec: the dedicated consume path of string literals,
    which takes the literal as one unit. *)
Definition ConsumeStringToken (c : Cursor) : Cursor := Lex c.

(** Modelled from the spec: the consume of a parenthesis, which keeps the
    open count of parentheses. *)
Definition ConsumeParen (c : Cursor) : Cursor :=
  let n := if Token_is (Tok c) tok.l_paren then S (ParenCount c)
           else pred (ParenCount c) in
  Lex (mkCursor (Tok c) (PP c) n (BracketCount c) (BraceCount c)).

(** Modelled from the spec: the consume of a square bracket, which keeps the
    open count of brackets. *)
Definition ConsumeBracket (c : Cursor) : Cursor :=
  let n := if Token_is (Tok c) tok.l_square then S (BracketCount c)
           else pred (BracketCount c) in
  Lex (mkCursor (Tok c) (PP c) (ParenCount c) n (BraceCount c)).

(** Modelled from the spec: the consume of a brace, which keeps the open
    count of braces. *)
Definition ConsumeBrace (c : Cursor) : Cursor :=
  let n := if Token_is (Tok c) tok.l_brace then S (BraceCount c)
           else pred (BraceCount c) in
  Lex (mkCursor (Tok c) (PP c) (ParenCount c) (BracketCount c) n).

(** Modelled from the spec: the consume that picks the method by the kind of
    the lookahead. *)
Definition ConsumeAnyToken (c : Cursor) : Cursor :=
  match getKind (Tok c) with
  | tok.l_paren | tok.r_paren => ConsumeParen c
  | tok.l_square | tok.r_square => ConsumeBracket c
  | tok.l_brace | tok.r_brace => ConsumeBrace c
  | tok.string_literal | tok.wide_string_literal => ConsumeStringToken c
  | _ => ConsumeToken c
  end.

(** ** [Parser::ConsumeAndStoreUntil]

    The result of a call: the boolean it returns, the token container and the
    cursor it leaves behind. *)

Record ScanResult : Type := mkScan {
  found : bool;
  stored : CachedTokens;
  cursor : Cursor
}.

(** One pass through the body of the [while (1)] loop, [isFirstTokenConsumed]
    being the loop's one local variable.  [self] stands for the routine run
    from a given value of that flag: the next iteration is [self] with the flag
    cleared, and the recursive calls on an opening delimiter are [self] with
    the flag set and [tok::unknown] for [T2]; what they return is dropped.
    The two arguments those calls leave out take the defaults of the
    declaration, which is outside this file; by the spec they are "no
    early-abort", here [tok::unknown], which with [T2] unknown never fires,
    and [ConsumeFinalToken] true. *)
Section Iteration.

Variable self :
  tok.TokenKind -> tok.TokenKind -> CachedTokens -> tok.TokenKind ->
  bool -> bool -> Cursor -> option ScanResult.

Definition ConsumeAndStoreUntil_iteration
    (T1 T2 : tok.TokenKind) (Toks : CachedTokens)
    (EarlyAbortIf : tok.TokenKind) (ConsumeFinalToken : bool)
    (isFirstTokenConsumed : bool) (c : Cursor) : option ScanResult :=
  let nested (T : tok.TokenKind) (c' : Cursor) :=
    match self T tok.unknown (push_back Toks (Tok c)) tok.unknown
            true true c' with
    | None => None
    | Some r =>
      self T1 T2 (stored r) EarlyAbortIf ConsumeFinalToken false (cursor r)
    end in
  let continue (c' : Cursor) :=
    self T1 T2 (push_back Toks (Tok c)) EarlyAbortIf ConsumeFinalToken
      false c' in
  if Token_is (Tok c) T1 || Token_is (Tok c) T2 then
    if ConsumeFinalToken
    then Some (mkScan true (push_back Toks (Tok c)) (ConsumeAnyToken c))
    else Some (mkScan true Toks c)
  else if Token_is (Tok c) EarlyAbortIf then
    Some (mkScan false Toks c)
  else
    match getKind (Tok c) with
    | tok.eof => Some (mkScan false Toks c)
    | tok.l_paren => nested tok.r_paren (ConsumeParen c)
    | tok.l_square => nested tok.r_square (ConsumeBracket c)
    | tok.l_brace => nested tok.r_brace (ConsumeBrace c)
    | tok.r_paren =>
      if negb (Nat.eqb (ParenCount c) 0) && negb isFirstTokenConsumed
      then Some (mkScan false Toks c)
      else continue (ConsumeParen c)
    | tok.r_square =>
      if negb (Nat.eqb (BracketCount c) 0) && negb isFirstTokenConsumed
      then Some (mkScan false Toks c)
      else continue (ConsumeBracket c)
    | tok.r_brace =>
      if negb (Nat.eqb (BraceCount c) 0) && negb isFirstTokenConsumed
      then Some (mkScan false Toks c)
      else continue (ConsumeBrace c)
    | tok.string_literal | tok.wide_string_literal =>
      continue (ConsumeStringToken c)
    | _ => continue (ConsumeToken c)
    end.

End Iteration.

(** The loop: [fuel] bounds the iterations and the depth of the recursive
    calls together. *)
Fixpoint ConsumeAndStoreUntil_loop (fuel : nat) :
    tok.TokenKind -> tok.TokenKind -> CachedTokens -> tok.TokenKind ->
    bool -> bool -> Cursor -> option ScanResult :=
  match fuel with
  | O => fun _ _ _ _ _ _ _ => None
  | S fuel' => ConsumeAndStoreUntil_iteration (ConsumeAndStoreUntil_loop fuel')
  end.

(** The tokens left to read: the rest of the stream, and the lookahead unless
    it is end-of-input. *)
Definition remaining (c : Cursor) : nat :=
  List.length (PP c) + (if Token_is (Tok c) tok.eof then 0 else 1).

(** The loop on fuel that [ConsumeAndStoreUntil_loop_total] below shows to be
    enough, so that the [None] branch is never taken. *)
Definition ConsumeAndStoreUntil_from
    (T1 T2 : tok.TokenKind) (Toks : CachedTokens)
    (EarlyAbortIf : tok.TokenKind) (ConsumeFinalToken : bool)
    (isFirstTokenConsumed : bool) (c : Cursor) : ScanResult :=
  match ConsumeAndStoreUntil_loop (S (remaining c)) T1 T2 Toks EarlyAbortIf
          ConsumeFinalToken isFirstTokenConsumed c with
  | Some r => r
  | None => mkScan false Toks c
  end.

(** The routine: the loop entered with [isFirstTokenConsumed] set. *)
Definition ConsumeAndStoreUntil
    (T1 T2 : tok.TokenKind) (Toks : CachedTokens)
    (EarlyAbortIf : tok.TokenKind) (ConsumeFinalToken : bool)
    (c : Cursor) : ScanResult :=
  ConsumeAndStoreUntil_from T1 T2 Toks EarlyAbortIf ConsumeFinalToken true c.

(** ** The parser state around the cursor *)

(** Modelled from the spec: opaque handles into the semantic-actions layer,
    for declarations and parameters and for expressions. *)
Definition DeclTy := nat.

Definition ExprTy := nat.

(** Modelled from the spec: the access specifier is declared outside this
    file; the routine only passes it on to Sema. *)
Inductive AccessSpecifier : Type :=
| AS_none | AS_public | AS_protected | AS_private.

(** Modelled from the spec: the declarator is declared in DeclSpec.h, outside
    this file, which looks at one thing in it: whether the kind of
    [getTypeObject(0)] is [DeclaratorChunk::Function]. *)
Module DeclaratorChunk.
Inductive Kind : Type := Pointer | Reference | Array | Function.
End DeclaratorChunk.

(** The kinds of the type objects of a declarator, [getTypeObject(0)] first,
    and the identifier it declares. *)
Record Declarator : Type := mkDeclarator {
  TypeObjects : list DeclaratorChunk.Kind;
  Identifier : nat
}.

(** Modelled from the spec: [LexedMethod], the Deferred Body Item, is
    declared in Parser.h, outside this file: a declaration handle and the
    stored tokens of the body. *)
Module LexedMethod.
Record t : Type := mk { D : DeclTy; Toks : CachedTokens }.
End LexedMethod.

(** Modelled from the spec: [LateParsedDefaultArgument], the parameter
    record, is declared in Parser.h, outside this file: a parameter handle
    and, if the parameter has one, the stored tokens of its default argument
    ([Toks] is a null pointer otherwise). *)
Module LateParsedDefaultArgument.
Record t : Type := mk { Param : DeclTy; Toks : option CachedTokens }.
End LateParsedDefaultArgument.

(** Modelled from the spec: [LateParsedMethodDeclaration], the Deferred
    Declaration Item, is declared in Parser.h, outside this file: a
    declaration handle and the parameter records in order. *)
Module LateParsedMethodDeclaration.
Record t : Type := mk {
  Method : DeclTy;
  DefaultArgs : list LateParsedDefaultArgument.t
}.
End LateParsedMethodDeclaration.

(** Modelled from the spec: [TopClass], the Class Frame, is declared in
    Parser.h, outside this file: the queue of declaration items and the queue
    of body items.  Both queues have their front at the head of the list. *)
Record TopClass : Type := mkTopClass {
  MethodDecls : list LateParsedMethodDeclaration.t;
  MethodDefs : list LexedMethod.t
}.

(** The one diagnostic the file emits. *)
Module diag.
Inductive kind : Type := err_expected_lbrace.
End diag.

(** Modelled from the spec: [OwningExprResult] is declared outside this file;
    it is the result of a parse, a value or a failure marker. *)
Record OwningExprResult : Type := mkExprResult {
  isInvalid : bool;
  release : ExprTy
}.

(** The calls the file makes to its collaborators, in the order made. *)
Inductive Event : Type :=
| EvActOnCXXMemberDeclarator (AS : AccessSpecifier) (D : Declarator)
    (FnD : DeclTy)
| EvDiag (Loc : SourceLocation) (DiagID : diag.kind)
| EvActOnStartDelayedCXXMethodDeclaration (Method : DeclTy)
| EvEnterScope
| EvExitScope
| EvActOnDelayedCXXMethodParameter (Param : DeclTy)
| EvParseAssignmentExpression (Invalid : bool)
| EvActOnParamDefaultArgumentError (Param : DeclTy)
| EvActOnParamDefaultArgument (Param : DeclTy) (EqualLoc : SourceLocation)
    (defarg : ExprTy)
| EvActOnFinishDelayedCXXMethodDeclaration (Method : DeclTy)
| EvActOnStartOfFunctionDef (D : DeclTy)
| EvParseConstructorInitializer (D : DeclTy)
| EvParseFunctionStatementBody (D : DeclTy) (L R : SourceLocation).

(** The state of the parser.  [getCurTopClassStack()] asserts that the stack
    of frames is not empty; the state keeps the top frame apart from the ones
    below it, so there always is one. *)
Record ParserState : Type := mkState {
  cur : Cursor;
  CurTopClassStack : TopClass;
  TopClassStacks_below : list TopClass;
  Trace : list Event
}.

Definition set_cur (c : Cursor) (s : ParserState) : ParserState :=
  mkState c (CurTopClassStack s) (TopClassStacks_below s) (Trace s).

Definition set_MethodDefs (q : list LexedMethod.t) (s : ParserState) :
    ParserState :=
  mkState (cur s) (mkTopClass (MethodDecls (CurTopClassStack s)) q)
    (TopClassStacks_below s) (Trace s).

Definition set_MethodDecls (q : list LateParsedMethodDeclaration.t)
    (s : ParserState) : ParserState :=
  mkState (cur s) (mkTopClass q (MethodDefs (CurTopClassStack s)))
    (TopClassStacks_below s) (Trace s).

Definition log (e : Event) (s : ParserState) : ParserState :=
  mkState (cur s) (CurTopClassStack s) (TopClassStacks_below s)
    (Trace s ++ [e]).

(** [Tok.is(k)] on the parser's lookahead. *)
Definition Tok_is (s : ParserState) (k : tok.TokenKind) : bool :=
  Token_is (Tok (cur s)) k.

(** What a routine with assertions does: return, or stop at an assertion. *)
Inductive Outcome (A : Type) : Type :=
| Returned (a : A)
| AssertionFailed (msg : string).
Arguments Returned {A} a.
Arguments AssertionFailed {A} msg.

Definition bind {A B : Type} (m : Outcome A) (k : A -> Outcome B) : Outcome B :=
  match m with
  | Returned a => k a
  | AssertionFailed msg => AssertionFailed msg
  end.

Notation "x <- m ;; k" := (bind m (fun x => k))
  (at level 61, m at next level, right associativity).

Definition assert (b : bool) (msg : string) : Outcome unit :=
  if b then Returned tt else AssertionFailed msg.

(** [ConsumeAndStoreUntil(T1, T2, Toks, ...)] where [Toks] is the reference
    [getCurTopClassStack().MethodDefs.back().Toks]: the tokens go to the item
    at the back of the queue itself. *)
Definition back_Toks (q : list LexedMethod.t) : CachedTokens :=
  LexedMethod.Toks (last q (LexedMethod.mk 0 [])).

Definition set_back_Toks (toks : CachedTokens) (q : list LexedMethod.t) :
    list LexedMethod.t :=
  match q with
  | [] => []
  | _ => removelast q
         ++ [LexedMethod.mk (LexedMethod.D (last q (LexedMethod.mk 0 []))) toks]
  end.

Definition ConsumeAndStoreUntil_back (T1 T2 EarlyAbortIf : tok.TokenKind)
    (s : ParserState) : bool * ParserState :=
  let q := MethodDefs (CurTopClassStack s) in
  let r := ConsumeAndStoreUntil T1 T2 (back_Toks q) EarlyAbortIf true (cur s) in
  (found r, set_cur (cursor r) (set_MethodDefs (set_back_Toks (stored r) q) s)).

(** The cursor substitution of both replay passes:
    [Toks.push_back(Tok); PP.EnterTokenStream(Toks...); ConsumeAnyToken();]. *)
Definition ReplayTokens (Toks : CachedTokens) (c : Cursor) : Cursor :=
  let Toks := push_back Toks (Tok c) in
  ConsumeAnyToken (EnterTokenStream Toks c).

(** [D.getTypeObject(0).Kind == DeclaratorChunk::Function]. *)
Definition isFunctionDeclarator (D : Declarator) : bool :=
  match TypeObjects D with
  | DeclaratorChunk.Function :: _ => true
  | _ => false
  end.

Section Parser.

(** The collaborators whose code is not in this file.  Each may look at the
    whole parser state; Sema's own state is behind the opaque handles.  The
    parsers of the surrounding grammar hand back the cursor where they
    stopped: a class they meet on the way gets a frame of its own, pushed and
    popped before they return, so the frames of the state are as before. *)
Variable ActOnCXXMemberDeclarator :
  ParserState -> AccessSpecifier -> Declarator -> DeclTy.
Variable ParseAssignmentExpression : ParserState -> OwningExprResult * Cursor.
Variable ParseConstructorInitializer : ParserState -> DeclTy -> Cursor.
Variable ParseFunctionStatementBody :
  ParserState -> DeclTy -> SourceLocation -> SourceLocation -> Cursor.

(** *** [Parser::ParseCXXInlineMethodDef] *)
Definition ParseCXXInlineMethodDef (AS : AccessSpecifier) (D : Declarator)
    (s : ParserState) : Outcome (DeclTy * ParserState) :=
  _ <- assert (isFunctionDeclarator D) "This isn't a function declarator!" ;;
  _ <- assert (Tok_is s tok.l_brace || Tok_is s tok.colon)
         "Current token not a '{' or ':'!" ;;
  let FnD := ActOnCXXMemberDeclarator s AS D in
  let s := log (EvActOnCXXMemberDeclarator AS D FnD) s in
  (* Consume the tokens and store them for later parsing. *)
  let s := set_MethodDefs
             (push_back (MethodDefs (CurTopClassStack s))
                (LexedMethod.mk FnD [])) s in
  let finish (s : ParserState) :=
    (* Consume everything up to (and including) the matching right brace. *)
    let '(_, s) :=
      ConsumeAndStoreUntil_back tok.r_brace tok.unknown tok.unknown s in
    Returned (FnD, s) in
  (* We may have a constructor initializer here. *)
  if Tok_is s tok.colon then
    (* Consume everything up to (and including) the left brace. *)
    let '(found, s) :=
      ConsumeAndStoreUntil_back tok.l_brace tok.unknown tok.semi s in
    if negb found then
      if Tok_is s tok.semi then
        (* We found a semicolon; complain, consume the semicolon, and
           don't try to parse this method later. *)
        let s := log (EvDiag (getLocation (Tok (cur s)))
                        diag.err_expected_lbrace) s in
        let s := set_cur (ConsumeAnyToken (cur s)) s in
        let s := set_MethodDefs
                   (removelast (MethodDefs (CurTopClassStack s))) s in
        Returned (FnD, s)
      else finish s
    else finish s
  else
    (* Begin by storing the '{' token. *)
    let q := MethodDefs (CurTopClassStack s) in
    let s := set_MethodDefs
               (set_back_Toks (push_back (back_Toks q) (Tok (cur s))) q) s in
    let s := set_cur (ConsumeBrace (cur s)) s in
    finish s.

(** *** [Parser::ParseLexedMethodDeclarations] *)

(** [LM.DefaultArgs[I].Toks = ...] on the item at the front of the queue. *)
Definition set_front_DefaultArg_Toks (I : nat) (toks : option CachedTokens)
    (s : ParserState) : ParserState :=
  match MethodDecls (CurTopClassStack s) with
  | [] => s
  | LM :: q =>
    let args := LateParsedMethodDeclaration.DefaultArgs LM in
    let args' :=
      match nth_error args I with
      | None => args
      | Some a =>
        firstn I args
        ++ LateParsedDefaultArgument.mk (LateParsedDefaultArgument.Param a)
             toks
        :: skipn (S I) args
      end in
    set_MethodDecls
      (LateParsedMethodDeclaration.mk
         (LateParsedMethodDeclaration.Method LM) args' :: q) s
  end.

(** The parameters of the item at the front, from index [I] on. *)
Definition front_DefaultArgs_from (I : nat) (s : ParserState) :
    list LateParsedDefaultArgument.t :=
  match MethodDecls (CurTopClassStack s) with
  | [] => []
  | LM :: _ => skipn I (LateParsedMethodDeclaration.DefaultArgs LM)
  end.

(** The body of the [for (I = 0, N = ...; I != N; ++I)] loop, for the
    parameter [LM.DefaultArgs[I]]. *)
Definition ParseLexedMethodDeclarations_param (I : nat)
    (arg : LateParsedDefaultArgument.t) (s : ParserState) :
    Outcome ParserState :=
  (* Introduce the parameter into scope. *)
  let s := log (EvActOnDelayedCXXMethodParameter
                  (LateParsedDefaultArgument.Param arg)) s in
  match LateParsedDefaultArgument.Toks arg with
  | Some Toks =>
    (* Parse the default argument from its saved token stream. *)
    let s := set_front_DefaultArg_Toks I
               (Some (push_back Toks (Tok (cur s)))) s in
    let s := set_cur (ReplayTokens Toks (cur s)) s in
    (* Consume the '='. *)
    _ <- assert (Tok_is s tok.equal)
           "Default argument not starting with '='" ;;
    let EqualLoc := getLocation (Tok (cur s)) in
    let s := set_cur (ConsumeToken (cur s)) s in
    let DefArgResult := ParseAssignmentExpression s in
    let s := log (EvParseAssignmentExpression
                    (isInvalid (fst DefArgResult)))
               (set_cur (snd DefArgResult) s) in
    let s :=
      if isInvalid (fst DefArgResult)
      then log (EvActOnParamDefaultArgumentError
                  (LateParsedDefaultArgument.Param arg)) s
      else log (EvActOnParamDefaultArgument
                  (LateParsedDefaultArgument.Param arg) EqualLoc
                  (release (fst DefArgResult))) s in
    Returned (set_front_DefaultArg_Toks I None s)
  | None => Returned s
  end.

(** The [for] loop over the parameters: [n] is [N - I]. *)
Fixpoint ParseLexedMethodDeclarations_params (n I : nat) (s : ParserState) :
    Outcome ParserState :=
  match n with
  | O => Returned s
  | S n' =>
    match front_DefaultArgs_from I s with
    | [] => AssertionFailed "LM.DefaultArgs[I] out of range"
    | arg :: _ =>
      s <- ParseLexedMethodDeclarations_param I arg s ;;
      ParseLexedMethodDeclarations_params n' (S I) s
    end
  end.

(** One pass through the body of the outer loop, [LM] being the front of the
    queue; the [pop_front] of the loop header comes after it. *)
Definition ParseLexedMethodDeclarations_item
    (LM : LateParsedMethodDeclaration.t) (s : ParserState) :
    Outcome ParserState :=
  (* Start the delayed C++ method declaration *)
  let s := log (EvActOnStartDelayedCXXMethodDeclaration
                  (LateParsedMethodDeclaration.Method LM)) s in
  (* Introduce the parameters into scope and parse their default
     arguments. *)
  let s := log EvEnterScope s in
  s <- ParseLexedMethodDeclarations_params
         (List.length (LateParsedMethodDeclaration.DefaultArgs LM)) 0 s ;;
  let s := log EvExitScope s in
  (* Finish the delayed C++ method declaration. *)
  Returned (log (EvActOnFinishDelayedCXXMethodDeclaration
                   (LateParsedMethodDeclaration.Method LM)) s).

(** The outer loop reads the queue of the state at every turn; [fuel] bounds
    the turns. *)
Fixpoint ParseLexedMethodDeclarations_loop (fuel : nat) (s : ParserState) :
    option (Outcome ParserState) :=
  match MethodDecls (CurTopClassStack s) with
  | [] => Some (Returned s)
  | LM :: _ =>
    match fuel with
    | O => None
    | S fuel' =>
      match ParseLexedMethodDeclarations_item LM s with
      | AssertionFailed msg => Some (AssertionFailed msg)
      | Returned s =>
        ParseLexedMethodDeclarations_loop fuel'
          (set_MethodDecls (tl (MethodDecls (CurTopClassStack s))) s)
      end
    end
  end.

Definition ParseLexedMethodDeclarations (s : ParserState) :
    option (Outcome ParserState) :=
  ParseLexedMethodDeclarations_loop
    (List.length (MethodDecls (CurTopClassStack s))) s.

(** *** [Parser::ParseLexedMethodDefs] *)

(** One pass through the body of the loop, [LM] being the front of the
    queue. *)
Definition ParseLexedMethodDefs_item (LM : LexedMethod.t) (s : ParserState) :
    Outcome ParserState :=
  _ <- assert (negb (match LexedMethod.Toks LM with
                     | [] => true
                     | _ => false
                     end)) "Empty body!" ;;
  (* Append the current token at the end of the new token stream so that it
     doesn't get lost. *)
  let s := set_MethodDefs
             (LexedMethod.mk (LexedMethod.D LM)
                (push_back (LexedMethod.Toks LM) (Tok (cur s)))
              :: tl (MethodDefs (CurTopClassStack s))) s in
  let s := set_cur (ReplayTokens (LexedMethod.Toks LM) (cur s)) s in
  _ <- assert (Tok_is s tok.l_brace || Tok_is s tok.colon)
         "Inline method not starting with '{' or ':'" ;;
  (* Parse the method body. *)
  let s := log EvEnterScope s in
  let s := log (EvActOnStartOfFunctionDef (LexedMethod.D LM)) s in
  let s :=
    if Tok_is s tok.colon
    then log (EvParseConstructorInitializer (LexedMethod.D LM))
           (set_cur (ParseConstructorInitializer s (LexedMethod.D LM)) s)
    else s in
  let L := getLocation (Tok (cur s)) in
  let s := log (EvParseFunctionStatementBody (LexedMethod.D LM) L L)
             (set_cur (ParseFunctionStatementBody s (LexedMethod.D LM) L L)
                s) in
  Returned (log EvExitScope s).

Fixpoint ParseLexedMethodDefs_loop (fuel : nat) (s : ParserState) :
    option (Outcome ParserState) :=
  match MethodDefs (CurTopClassStack s) with
  | [] => Some (Returned s)
  | LM :: _ =>
    match fuel with
    | O => None
    | S fuel' =>
      match ParseLexedMethodDefs_item LM s with
      | AssertionFailed msg => Some (AssertionFailed msg)
      | Returned s =>
        ParseLexedMethodDefs_loop fuel'
          (set_MethodDefs (tl (MethodDefs (CurTopClassStack s))) s)
      end
    end
  end.

Definition ParseLexedMethodDefs (s : ParserState) :
    option (Outcome ParserState) :=
  ParseLexedMethodDefs_loop
    (List.length (MethodDefs (CurTopClassStack s))) s.

End Parser.

(** ** Notions the properties are stated with *)

(** The closing delimiter an opening one asks for. *)
Definition closer_of (k : tok.TokenKind) : option tok.TokenKind :=
  match k with
  | tok.l_paren => Some tok.r_paren
  | tok.l_square => Some tok.r_square
  | tok.l_brace => Some tok.r_brace
  | _ => None
  end.

Definition isClosing (k : tok.TokenKind) : bool :=
  match k with
  | tok.r_paren | tok.r_square | tok.r_brace => true
  | _ => false
  end.

Definition isDelimiter (k : tok.TokenKind) : bool :=
  match closer_of k with Some _ => true | None => isClosing k end.

(** The delimiter counter: [open] holds the closing delimiters still owed,
    innermost first.  A sequence is balanced when every closing delimiter is
    the one owed at that point and nothing is owed at the end. *)
Fixpoint balanced_from (open : list tok.TokenKind) (l : list Token) : bool :=
  match l with
  | [] => match open with [] => true | _ => false end
  | t :: l' =>
    match closer_of (getKind t) with
    | Some k => balanced_from (k :: open) l'
    | None =>
      if isClosing (getKind t) then
        match open with
        | k :: open' => tok.eqb k (getKind t) && balanced_from open' l'
        | [] => false
        end
      else balanced_from open l'
    end
  end.

Definition balanced (l : list Token) : bool := balanced_from [] l.

(** Net nesting of one kind of delimiter: openings less closings. *)
Definition net (o c : tok.TokenKind) (l : list Token) : nat * nat :=
  (List.length (filter (fun t => Token_is t o) l),
   List.length (filter (fun t => Token_is t c) l)).

Definition net_zero (l : list Token) : Prop :=
  fst (net tok.l_paren tok.r_paren l) = snd (net tok.l_paren tok.r_paren l)
  /\ fst (net tok.l_square tok.r_square l)
     = snd (net tok.l_square tok.r_square l)
  /\ fst (net tok.l_brace tok.r_brace l) = snd (net tok.l_brace tok.r_brace l).

(** Well-formed input for a scan that stops at the kinds [stop]: ordinary
    tokens and delimited groups, none of whose outermost tokens is one the
    scan stops at.  Inside a group the scan is a recursive call, which stops
    at the closing delimiter and at [tok::unknown]. *)
Inductive WellNested (stop : tok.TokenKind -> bool) : list Token -> Prop :=
| WellNested_nil : WellNested stop []
| WellNested_token (t : Token) (w : list Token) :
    stop (getKind t) = false ->
    isDelimiter (getKind t) = false ->
    getKind t <> tok.eof ->
    WellNested stop w ->
    WellNested stop (t :: w)
| WellNested_group (o c : Token) (w w' : list Token) :
    stop (getKind o) = false ->
    closer_of (getKind o) = Some (getKind c) ->
    WellNested (fun k => tok.eqb k tok.unknown) w ->
    WellNested stop w' ->
    WellNested stop (o :: w ++ c :: w').

(** The kinds a call stops at: its terminators and its early-abort token. *)
Definition stops_at (T1 T2 EarlyAbortIf k : tok.TokenKind) : bool :=
  tok.eqb k T1 || tok.eqb k T2 || tok.eqb k EarlyAbortIf.

(** The cursor in front of the token stream [l]. *)
Definition cursor_at (l : list Token) (parens brackets braces : nat) : Cursor :=
  match l with
  | [] => mkCursor eofToken [] parens brackets braces
  | t :: rest => mkCursor t rest parens brackets braces
  end.

(** A stored body the bodies pass can replay: not empty, and starting with
    an opening brace or a colon. *)
Definition replayable (LM : LexedMethod.t) : bool :=
  match LexedMethod.Toks LM with
  | [] => false
  | t :: _ => Token_is t tok.l_brace || Token_is t tok.colon
  end.

(** A parameter the declarations pass can replay: no stored default argument,
    or one starting with an equals sign. *)
Definition starts_with_equal (a : LateParsedDefaultArgument.t) : bool :=
  match LateParsedDefaultArgument.Toks a with
  | None => true
  | Some [] => false
  | Some (t :: _) => Token_is t tok.equal
  end.

Definition declaration_replayable (LM : LateParsedMethodDeclaration.t) : bool :=
  forallb starts_with_equal (LateParsedMethodDeclaration.DefaultArgs LM).

(** Readings of a trace: what is left of it when only the events [pick]
    answers to are kept. *)
Definition collect {A : Type} (pick : Event -> option A) (tr : list Event) :
    list A :=
  flat_map (fun e => match pick e with Some a => [a] | None => [] end) tr.

(** The declarations whose bodies the statement parser was called on. *)
Definition bodies_parsed : list Event -> list DeclTy :=
  collect (fun e => match e with
                    | EvParseFunctionStatementBody D _ _ => Some D
                    | _ => None
                    end).

(** The declarations whose delayed processing was started. *)
Definition declarations_started : list Event -> list DeclTy :=
  collect (fun e => match e with
                    | EvActOnStartDelayedCXXMethodDeclaration M => Some M
                    | _ => None
                    end).

(** What the declarations pass does for one parameter: it introduces it and,
    if a default argument is stored for it, has one expression parsed and
    hands the outcome to Sema for this parameter, as an error if the
    expression is invalid. *)
Inductive param_events (a : LateParsedDefaultArgument.t) : list Event -> Prop :=
| param_events_none :
    LateParsedDefaultArgument.Toks a = None ->
    param_events a
      [EvActOnDelayedCXXMethodParameter (LateParsedDefaultArgument.Param a)]
| param_events_error (Toks : CachedTokens) :
    LateParsedDefaultArgument.Toks a = Some Toks ->
    param_events a
      [EvActOnDelayedCXXMethodParameter (LateParsedDefaultArgument.Param a);
       EvParseAssignmentExpression true;
       EvActOnParamDefaultArgumentError (LateParsedDefaultArgument.Param a)]
| param_events_ok (Toks : CachedTokens) (EqualLoc : SourceLocation)
    (defarg : ExprTy) :
    LateParsedDefaultArgument.Toks a = Some Toks ->
    param_events a
      [EvActOnDelayedCXXMethodParameter (LateParsedDefaultArgument.Param a);
       EvParseAssignmentExpression false;
       EvActOnParamDefaultArgument (LateParsedDefaultArgument.Param a)
         EqualLoc defarg].

(** What it does for one queued declaration: every parameter in turn, between
    the start and the finish of the delayed declaration. *)
Definition declaration_events (LM : LateParsedMethodDeclaration.t)
    (tr : list Event) : Prop :=
  exists trs,
    Forall2 param_events (LateParsedMethodDeclaration.DefaultArgs LM) trs
    /\ tr = [EvActOnStartDelayedCXXMethodDeclaration
               (LateParsedMethodDeclaration.Method LM); EvEnterScope]
            ++ concat trs
            ++ [EvExitScope;
                EvActOnFinishDelayedCXXMethodDeclaration
                  (LateParsedMethodDeclaration.Method LM)].

(** The parser's open count for the kind of a closing delimiter. *)
Definition OpenCount (k : tok.TokenKind) (c : Cursor) : nat :=
  match k with
  | tok.r_paren => ParenCount c
  | tok.r_square => BracketCount c
  | tok.r_brace => BraceCount c
  | _ => 0
  end.

(** Where a scan that did not find its terminator can have stopped: at the
    early-abort token, at end-of-input, or at a closing delimiter whose open
    count is not zero. *)
Definition stopped_short (EarlyAbortIf : tok.TokenKind) (c : Cursor) : Prop :=
  Token_is (Tok c) EarlyAbortIf = true
  \/ getKind (Tok c) = tok.eof
  \/ (isClosing (getKind (Tok c)) = true
      /\ OpenCount (getKind (Tok c)) c <> 0).

(** Sample tokens and inputs. *)
Definition tk (k : tok.TokenKind) (loc : SourceLocation) : Token :=
  mkToken k loc.

(** [( x }] then [;], read inside a brace: the brace count is one. *)
Definition paren_left_open : Cursor :=
  cursor_at [tk tok.l_paren 1; tk (tok.other 0) 2; tk tok.r_brace 3;
             tk tok.semi 4] 0 0 1.

(** [x ( y [ z ] ) "s"], a well-nested run of tokens. *)
Definition nested_run : list Token :=
  [tk (tok.other 0) 1; tk tok.l_paren 2; tk (tok.other 1) 3;
   tk tok.l_square 4; tk (tok.other 2) 5; tk tok.r_square 6;
   tk tok.r_paren 7; tk tok.string_literal 8].

(** [) {], read with nothing open. *)
Definition stray_paren : Cursor :=
  cursor_at [tk tok.r_paren 1; tk tok.l_brace 2] 0 0 0.


(** Stand-ins for the collaborators, to run the routines on samples.  The
    expression parser takes one token, an expression if it is an ordinary
    one; the initializer parser reads up to the opening brace; the statement
    parser reads the braces and what is between them. *)
Definition sample_ActOnCXXMemberDeclarator (_ : ParserState)
    (_ : AccessSpecifier) (D : Declarator) : DeclTy :=
  Identifier D.

Definition sample_ParseAssignmentExpression (s : ParserState) :
    OwningExprResult * Cursor :=
  match getKind (Tok (cur s)) with
  | tok.other n => (mkExprResult false n, ConsumeToken (cur s))
  | _ => (mkExprResult true 0, cur s)
  end.

Definition sample_ParseConstructorInitializer (s : ParserState) (_ : DeclTy) :
    Cursor :=
  cursor (ConsumeAndStoreUntil tok.l_brace tok.unknown [] tok.unknown false
            (cur s)).

Definition sample_ParseFunctionStatementBody (s : ParserState) (_ : DeclTy)
    (_ _ : SourceLocation) : Cursor :=
  cursor (ConsumeAndStoreUntil tok.r_brace tok.unknown [] tok.unknown true
            (ConsumeBrace (cur s))).

(** A method declarator. *)
Definition sample_Declarator : Declarator :=
  mkDeclarator [DeclaratorChunk.Function] 8.

(** A class with one body stored already, [{ }] of declaration 7. *)
Definition sample_TopClass : TopClass :=
  mkTopClass [] [LexedMethod.mk 7 [tk tok.l_brace 1; tk tok.r_brace 2]].

(** [: x ( 1 ) ;] and an identifier behind it, inside the class. *)
Definition semicolon_after_initializer : ParserState :=
  mkState
    (cursor_at [tk tok.colon 10; tk (tok.other 0) 11; tk tok.l_paren 12;
                tk (tok.other 1) 13; tk tok.r_paren 14; tk tok.semi 15;
                tk (tok.other 2) 16] 0 0 1)
    sample_TopClass [] [].

(** [{ x }] and a semicolon behind it, inside the class. *)
Definition body_ahead : ParserState :=
  mkState
    (cursor_at [tk tok.l_brace 10; tk (tok.other 0) 11; tk tok.r_brace 12;
                tk tok.semi 13] 0 0 1)
    sample_TopClass [] [].

(** The parameter [= 5] and the parameter [= ;], whose expression is
    invalid. *)
Definition sample_good_argument : LateParsedDefaultArgument.t :=
  LateParsedDefaultArgument.mk 11
    (Some [tk tok.equal 20; tk (tok.other 5) 21]).

Definition sample_bad_argument : LateParsedDefaultArgument.t :=
  LateParsedDefaultArgument.mk 12 (Some [tk tok.equal 22; tk tok.semi 23]).

(** A class scanned to its end, the semicolon behind it being the lookahead:
    two declarations with default arguments, the first having one that is
    invalid between two that are not, and two bodies, the second with an
    initializer list. *)
Definition class_scanned : ParserState :=
  mkState
    (cursor_at [tk tok.semi 90] 0 0 0)
    (mkTopClass
       [LateParsedMethodDeclaration.mk 1
          [LateParsedDefaultArgument.mk 10 None;
           sample_good_argument;
           sample_bad_argument;
           LateParsedDefaultArgument.mk 13
             (Some [tk tok.equal 24; tk (tok.other 6) 25])];
        LateParsedMethodDeclaration.mk 2
          [LateParsedDefaultArgument.mk 20
             (Some [tk tok.equal 30; tk (tok.other 7) 31])]]
       [LexedMethod.mk 1
          [tk tok.l_brace 40; tk (tok.other 8) 41; tk tok.r_brace 42];
        LexedMethod.mk 2
          [tk tok.colon 50; tk (tok.other 9) 51; tk tok.l_paren 52;
           tk tok.r_paren 53; tk tok.l_brace 54; tk tok.r_brace 55]])
    [] [].


(** A stand-in for the rest of a run that returns at once, handing back the
    container and the cursor it is given: run on it, one turn of the loop
    shows the cursor the turn hands on. *)
Definition hand_back :
    tok.TokenKind -> tok.TokenKind -> CachedTokens -> tok.TokenKind ->
    bool -> bool -> Cursor -> option ScanResult :=
  fun _ _ Toks _ _ _ c => Some (mkScan false Toks c).


(** ** What the declarations pass is to do, parameter by parameter *)

(** The state in which the expression parser is called for the parameter at
    index [I], whose stored tokens are [t :: rest]: it is to read [rest],
    then the lookahead the pass came with and the stream behind it; the open
    counts are those a consume of that lookahead leaves; in the frame the
    lookahead has been appended to the stored tokens; the parameter has been
    introduced. *)
Definition default_argument_state (I : nat) (arg : LateParsedDefaultArgument.t)
    (t : Token) (rest : CachedTokens) (s : ParserState) : ParserState :=
  mkState
    (cursor_at (rest ++ Tok (cur s) :: PP (cur s))
       (ParenCount (ConsumeAnyToken (cur s)))
       (BracketCount (ConsumeAnyToken (cur s)))
       (BraceCount (ConsumeAnyToken (cur s))))
    (CurTopClassStack
       (set_front_DefaultArg_Toks I (Some (t :: rest ++ [Tok (cur s)])) s))
    (TopClassStacks_below s)
    (Trace s
     ++ [EvActOnDelayedCXXMethodParameter
           (LateParsedDefaultArgument.Param arg)]).

(** One parameter replayed, from the state [s] to the state given.  A
    parameter without stored tokens is introduced.  A parameter whose stored
    tokens start with an equals sign is introduced, the expression parser is
    called in [default_argument_state], and its answer is handed to Sema for
    this parameter: as an error if the expression is invalid, as the default
    argument, with the location of the equals sign, if it is not.  Either way
    the cursor is where the parser stopped and the stored tokens are gone. *)
Inductive param_replayed
    (ParseAssignmentExpression : ParserState -> OwningExprResult * Cursor)
    (I : nat) (arg : LateParsedDefaultArgument.t) (s : ParserState) :
    ParserState -> Prop :=
| param_replayed_plain :
    LateParsedDefaultArgument.Toks arg = None ->
    param_replayed ParseAssignmentExpression I arg s
      (mkState (cur s) (CurTopClassStack s) (TopClassStacks_below s)
         (Trace s
          ++ [EvActOnDelayedCXXMethodParameter
                (LateParsedDefaultArgument.Param arg)]))
| param_replayed_invalid (t : Token) (rest : CachedTokens) :
    LateParsedDefaultArgument.Toks arg = Some (t :: rest) ->
    Token_is t tok.equal = true ->
    isInvalid
      (fst (ParseAssignmentExpression (default_argument_state I arg t rest s)))
    = true ->
    param_replayed ParseAssignmentExpression I arg s
      (mkState
         (snd (ParseAssignmentExpression
                 (default_argument_state I arg t rest s)))
         (CurTopClassStack (set_front_DefaultArg_Toks I None s))
         (TopClassStacks_below s)
         (Trace s
          ++ [EvActOnDelayedCXXMethodParameter
                (LateParsedDefaultArgument.Param arg);
              EvParseAssignmentExpression true;
              EvActOnParamDefaultArgumentError
                (LateParsedDefaultArgument.Param arg)]))
| param_replayed_valid (t : Token) (rest : CachedTokens) :
    LateParsedDefaultArgument.Toks arg = Some (t :: rest) ->
    Token_is t tok.equal = true ->
    isInvalid
      (fst (ParseAssignmentExpression (default_argument_state I arg t rest s)))
    = false ->
    param_replayed ParseAssignmentExpression I arg s
      (mkState
         (snd (ParseAssignmentExpression
                 (default_argument_state I arg t rest s)))
         (CurTopClassStack (set_front_DefaultArg_Toks I None s))
         (TopClassStacks_below s)
         (Trace s
          ++ [EvActOnDelayedCXXMethodParameter
                (LateParsedDefaultArgument.Param arg);
              EvParseAssignmentExpression false;
              EvActOnParamDefaultArgument
                (LateParsedDefaultArgument.Param arg) (getLocation t)
                (release
                   (fst (ParseAssignmentExpression
                           (default_argument_state I arg t rest s))))])).

(** The parameters [todo], which sit at the indices from [I] on, replayed one
    after the other, each from the state the one before it left: whatever
    happened to a parameter, the next one is replayed. *)
Inductive params_replayed
    (ParseAssignmentExpression : ParserState -> OwningExprResult * Cursor) :
    nat -> list LateParsedDefaultArgument.t -> ParserState -> ParserState ->
    Prop :=
| params_replayed_nil (I : nat) (s : ParserState) :
    params_replayed ParseAssignmentExpression I [] s s
| params_replayed_cons (I : nat) (arg : LateParsedDefaultArgument.t)
    (todo : list LateParsedDefaultArgument.t) (s s1 s' : ParserState) :
    param_replayed ParseAssignmentExpression I arg s s1 ->
    params_replayed ParseAssignmentExpression (S I) todo s1 s' ->
    params_replayed ParseAssignmentExpression I (arg :: todo) s s'.

(** One queued declaration replayed: the delayed declaration is started, a
    scope is entered, all its parameters are replayed, the scope is left and
    the delayed declaration is finished. *)
Definition declaration_replayed
    (ParseAssignmentExpression : ParserState -> OwningExprResult * Cursor)
    (LM : LateParsedMethodDeclaration.t) (s s' : ParserState) : Prop :=
  exists s1,
    params_replayed ParseAssignmentExpression 0
      (LateParsedMethodDeclaration.DefaultArgs LM)
      (log EvEnterScope
         (log (EvActOnStartDelayedCXXMethodDeclaration
                 (LateParsedMethodDeclaration.Method LM)) s))
      s1
    /\ s' = log (EvActOnFinishDelayedCXXMethodDeclaration
                   (LateParsedMethodDeclaration.Method LM))
              (log EvExitScope s1).

(** The queue of declarations replayed, front first: each declaration is
    replayed and popped, and the rest of the queue is replayed from there. *)
Inductive declarations_replayed
    (ParseAssignmentExpression : ParserState -> OwningExprResult * Cursor) :
    list LateParsedMethodDeclaration.t -> ParserState -> ParserState -> Prop :=
| declarations_replayed_nil (s : ParserState) :
    declarations_replayed ParseAssignmentExpression [] s s
| declarations_replayed_cons (LM : LateParsedMethodDeclaration.t)
    (q : list LateParsedMethodDeclaration.t) (s s1 s' : ParserState) :
    declaration_replayed ParseAssignmentExpression LM s s1 ->
    declarations_replayed ParseAssignmentExpression q (set_MethodDecls q s1)
      s' ->
    declarations_replayed ParseAssignmentExpression (LM :: q) s s'.

(** ** Notions for the further properties *)

(** The [n]-th token the lexer hands out from the cursor on, the lookahead
    being the first: behind the end of the stream it is end-of-input. *)
Definition lexed (c : Cursor) (n : nat) : Token :=
  nth n (Tok c :: PP c) eofToken.

(** From [c], the lexer hands out the tokens [w] and then what it hands out
    from [c']: the tokens [w] are what was consumed between the two. *)
Definition feeds (c : Cursor) (w : list Token) (c' : Cursor) : Prop :=
  forall n, lexed c n = nth n (w ++ Tok c' :: PP c') eofToken.

(** No end-of-input token among the tokens. *)
Definition no_eof (l : list Token) : bool :=
  forallb (fun t => negb (Token_is t tok.eof)) l.

(** A stored body that starts with the colon of an initializer list. *)
Definition starts_with_colon (LM : LexedMethod.t) : bool :=
  match LexedMethod.Toks LM with
  | [] => false
  | t :: _ => Token_is t tok.colon
  end.

(** What the bodies pass does for one queued body: in a scope of its own it
    starts the function definition, has the initializer list parsed if the
    body was stored from a colon, and has the statement block parsed. *)
Definition body_events (LM : LexedMethod.t) (tr : list Event) : Prop :=
  exists L,
    tr = [EvEnterScope; EvActOnStartOfFunctionDef (LexedMethod.D LM)]
         ++ (if starts_with_colon LM
             then [EvParseConstructorInitializer (LexedMethod.D LM)]
             else [])
         ++ [EvParseFunctionStatementBody (LexedMethod.D LM) L L;
             EvExitScope].

(** A parameter without a stored default argument. *)
Definition no_default_argument (a : LateParsedDefaultArgument.t) : bool :=
  match LateParsedDefaultArgument.Toks a with
  | None => true
  | Some _ => false
  end.

(** The events of a declaration none of whose parameters has a stored default
    argument. *)
Definition plain_declaration_events (LM : LateParsedMethodDeclaration.t) :
    list Event :=
  [EvActOnStartDelayedCXXMethodDeclaration
     (LateParsedMethodDeclaration.Method LM); EvEnterScope]
  ++ map (fun a => EvActOnDelayedCXXMethodParameter
                     (LateParsedDefaultArgument.Param a))
       (LateParsedMethodDeclaration.DefaultArgs LM)
  ++ [EvExitScope;
      EvActOnFinishDelayedCXXMethodDeclaration
        (LateParsedMethodDeclaration.Method LM)].


(** A class scanned to its end whose declarations have parameters but no
    stored default argument. *)
Definition class_without_default_arguments : ParserState :=
  mkState
    (cursor_at [tk tok.semi 90] 0 0 0)
    (mkTopClass
       [LateParsedMethodDeclaration.mk 1
          [LateParsedDefaultArgument.mk 10 None;
           LateParsedDefaultArgument.mk 11 None];
        LateParsedMethodDeclaration.mk 2 []]
       [LexedMethod.mk 1 [tk tok.l_brace 40; tk tok.r_brace 41]])
    [] [EvEnterScope].




(** ** Token kinds are compared by [tok.eqb] *)

Lemma tok_eqb_spec (a b : tok.TokenKind) : reflect (a = b) (tok.eqb a b).
Proof.
  destruct a, b; simpl; try (constructor; congruence).
  destruct (Nat.eqb_spec n n0); constructor; congruence.
Qed.

Lemma tok_eqb_refl (a : tok.TokenKind) : tok.eqb a a = true.
Proof. destruct (tok_eqb_spec a a); congruence. Qed.

Lemma tok_eqb_eq (a b : tok.TokenKind) : tok.eqb a b = true <-> a = b.
Proof. destruct (tok_eqb_spec a b); split; congruence. Qed.

Lemma tok_eqb_neq (a b : tok.TokenKind) : tok.eqb a b = false <-> a <> b.
Proof. destruct (tok_eqb_spec a b); split; congruence. Qed.

(** ** The scan always returns *)

Lemma remaining_Lex (c : Cursor) : remaining (Lex c) <= List.length (PP c).
Proof.
  unfold remaining, Lex. destruct (PP c) as [|t rest]; simpl.
  - lia.
  - destruct (Token_is t tok.eof); lia.
Qed.

Lemma remaining_not_eof (c : Cursor) :
  getKind (Tok c) <> tok.eof -> remaining c = S (List.length (PP c)).
Proof.
  intros H. unfold remaining, Token_is.
  apply tok_eqb_neq in H. rewrite H. lia.
Qed.

Lemma remaining_ge (c : Cursor) : List.length (PP c) <= remaining c.
Proof. unfold remaining. lia. Qed.

Ltac remaining_consume :=
  match goal with
  | |- context [remaining (Lex ?c')] =>
    let HL := fresh "HL" in
    pose proof (remaining_Lex c') as HL; simpl in HL; lia
  end.

Lemma remaining_ConsumeToken (c : Cursor) :
  getKind (Tok c) <> tok.eof -> remaining (ConsumeToken c) < remaining c.
Proof.
  intros H. rewrite (remaining_not_eof c H).
  unfold ConsumeToken. remaining_consume.
Qed.

Lemma remaining_ConsumeStringToken (c : Cursor) :
  getKind (Tok c) <> tok.eof -> remaining (ConsumeStringToken c) < remaining c.
Proof. exact (remaining_ConsumeToken c). Qed.

Lemma remaining_ConsumeParen (c : Cursor) :
  getKind (Tok c) <> tok.eof -> remaining (ConsumeParen c) < remaining c.
Proof.
  intros H. rewrite (remaining_not_eof c H).
  unfold ConsumeParen. remaining_consume.
Qed.

Lemma remaining_ConsumeBracket (c : Cursor) :
  getKind (Tok c) <> tok.eof -> remaining (ConsumeBracket c) < remaining c.
Proof.
  intros H. rewrite (remaining_not_eof c H).
  unfold ConsumeBracket. remaining_consume.
Qed.

Lemma remaining_ConsumeBrace (c : Cursor) :
  getKind (Tok c) <> tok.eof -> remaining (ConsumeBrace c) < remaining c.
Proof.
  intros H. rewrite (remaining_not_eof c H).
  unfold ConsumeBrace. remaining_consume.
Qed.

(** Consuming never adds to what is left, whatever the lookahead. *)
Lemma remaining_ConsumeAnyToken (c : Cursor) :
  remaining (ConsumeAnyToken c) <= remaining c.
Proof.
  pose proof (remaining_ge c) as G.
  unfold ConsumeAnyToken, ConsumeToken, ConsumeStringToken, ConsumeParen,
    ConsumeBracket, ConsumeBrace.
  destruct (getKind (Tok c)); remaining_consume.
Qed.

Lemma ConsumeAndStoreUntil_loop_total (n : nat) :
  forall T1 T2 Toks EarlyAbortIf ConsumeFinalToken first c,
    remaining c < n ->
    exists r,
      ConsumeAndStoreUntil_loop n T1 T2 Toks EarlyAbortIf ConsumeFinalToken
        first c = Some r
      /\ remaining (cursor r) <= remaining c.
Proof.
  induction n as [|n IH]; intros T1 T2 Toks EA CFT first c Hn; [lia|].
  assert (Hnext : forall Toks' c',
             remaining c' < remaining c ->
             exists r,
               ConsumeAndStoreUntil_loop n T1 T2 Toks' EA CFT false c' = Some r
               /\ remaining (cursor r) <= remaining c).
  { intros Toks' c' Hc'.
    destruct (IH T1 T2 Toks' EA CFT false c') as (r & Hr & Hle); [lia|].
    exists r. split; [exact Hr | lia]. }
  assert (Hnested : forall T c',
             remaining c' < remaining c ->
             exists r,
               match ConsumeAndStoreUntil_loop n T tok.unknown
                       (push_back Toks (Tok c)) tok.unknown true true c' with
               | None => None
               | Some r1 =>
                 ConsumeAndStoreUntil_loop n T1 T2 (stored r1) EA CFT false
                   (cursor r1)
               end = Some r
               /\ remaining (cursor r) <= remaining c).
  { intros T c' Hc'.
    destruct (IH T tok.unknown (push_back Toks (Tok c)) tok.unknown true true
                c') as (r1 & Hr1 & Hle1); [lia|].
    rewrite Hr1. apply Hnext. lia. }
  simpl. unfold ConsumeAndStoreUntil_iteration.
  destruct (Token_is (Tok c) T1 || Token_is (Tok c) T2).
  { destruct CFT; eexists; (split; [reflexivity|]); simpl.
    - apply remaining_ConsumeAnyToken.
    - lia. }
  destruct (Token_is (Tok c) EA).
  { eexists; split; [reflexivity|]; simpl; lia. }
  destruct (getKind (Tok c)) eqn:K;
    try (eexists; split; [reflexivity|]; simpl; lia);
    try (apply Hnested;
         first [ apply remaining_ConsumeParen
               | apply remaining_ConsumeBracket
               | apply remaining_ConsumeBrace ]; congruence);
    try match goal with
        | |- context [if ?b then _ else _] =>
          destruct b; [eexists; split; [reflexivity|]; simpl; lia|]
        end;
    apply Hnext;
    first [ apply remaining_ConsumeParen
          | apply remaining_ConsumeBracket
          | apply remaining_ConsumeBrace
          | apply remaining_ConsumeStringToken
          | apply remaining_ConsumeToken ]; congruence.
Qed.

(** More fuel does not change the answer. *)
Lemma ConsumeAndStoreUntil_loop_S (n : nat) :
  forall T1 T2 Toks EarlyAbortIf ConsumeFinalToken first c r,
    ConsumeAndStoreUntil_loop n T1 T2 Toks EarlyAbortIf ConsumeFinalToken
      first c = Some r ->
    ConsumeAndStoreUntil_loop (S n) T1 T2 Toks EarlyAbortIf ConsumeFinalToken
      first c = Some r.
Proof.
  induction n as [|n IH]; intros T1 T2 Toks EA CFT first c r H;
    [discriminate|].
  change (ConsumeAndStoreUntil_iteration (ConsumeAndStoreUntil_loop (S n))
            T1 T2 Toks EA CFT first c = Some r).
  change (ConsumeAndStoreUntil_iteration (ConsumeAndStoreUntil_loop n)
            T1 T2 Toks EA CFT first c = Some r) in H.
  unfold ConsumeAndStoreUntil_iteration in *.
  destruct (Token_is (Tok c) T1 || Token_is (Tok c) T2); [exact H|].
  destruct (Token_is (Tok c) EA); [exact H|].
  destruct (getKind (Tok c));
    try exact H;
    try (apply IH; exact H);
    try (match type of H with
         | context [if ?b then _ else _] => destruct b
         end; [exact H | apply IH; exact H]);
    match type of H with
    | match ?call with _ => _ end = _ =>
      destruct call as [r1|] eqn:E1; [|discriminate];
      rewrite (IH _ _ _ _ _ _ _ _ E1); apply IH; exact H
    end.
Qed.

Lemma ConsumeAndStoreUntil_loop_mono (n m : nat) :
  forall T1 T2 Toks EarlyAbortIf ConsumeFinalToken first c r,
    n <= m ->
    ConsumeAndStoreUntil_loop n T1 T2 Toks EarlyAbortIf ConsumeFinalToken
      first c = Some r ->
    ConsumeAndStoreUntil_loop m T1 T2 Toks EarlyAbortIf ConsumeFinalToken
      first c = Some r.
Proof.
  intros T1 T2 Toks EA CFT first c r Hle H.
  induction Hle as [|m Hle IH]; [exact H|].
  apply ConsumeAndStoreUntil_loop_S. exact IH.
Qed.

(** With fuel enough the loop computes [ConsumeAndStoreUntil_from]. *)
Lemma ConsumeAndStoreUntil_loop_from (n : nat) :
  forall T1 T2 Toks EarlyAbortIf ConsumeFinalToken first c,
    remaining c < n ->
    ConsumeAndStoreUntil_loop n T1 T2 Toks EarlyAbortIf ConsumeFinalToken
      first c
    = Some (ConsumeAndStoreUntil_from T1 T2 Toks EarlyAbortIf
              ConsumeFinalToken first c).
Proof.
  intros T1 T2 Toks EA CFT first c Hn.
  unfold ConsumeAndStoreUntil_from.
  destruct (ConsumeAndStoreUntil_loop_total (S (remaining c))
              T1 T2 Toks EA CFT first c) as (r & Hr & _); [lia|].
  rewrite Hr.
  apply ConsumeAndStoreUntil_loop_mono with (n := S (remaining c));
    [lia | exact Hr].
Qed.

Lemma ConsumeAndStoreUntil_from_remaining :
  forall T1 T2 Toks EarlyAbortIf ConsumeFinalToken first c,
    remaining (cursor (ConsumeAndStoreUntil_from T1 T2 Toks EarlyAbortIf
                         ConsumeFinalToken first c)) <= remaining c.
Proof.
  intros T1 T2 Toks EA CFT first c.
  unfold ConsumeAndStoreUntil_from.
  destruct (ConsumeAndStoreUntil_loop_total (S (remaining c))
              T1 T2 Toks EA CFT first c) as (r & Hr & Hle); [lia|].
  rewrite Hr. exact Hle.
Qed.

(** The routine satisfies the equation of its loop body. *)
Lemma ConsumeAndStoreUntil_from_unfold :
  forall T1 T2 Toks EarlyAbortIf ConsumeFinalToken first c,
    Some (ConsumeAndStoreUntil_from T1 T2 Toks EarlyAbortIf ConsumeFinalToken
            first c)
    = ConsumeAndStoreUntil_iteration
        (fun T1 T2 Toks EarlyAbortIf ConsumeFinalToken first c =>
           Some (ConsumeAndStoreUntil_from T1 T2 Toks EarlyAbortIf
                   ConsumeFinalToken first c))
        T1 T2 Toks EarlyAbortIf ConsumeFinalToken first c.
Proof.
  intros T1 T2 Toks EA CFT first c.
  rewrite <- (ConsumeAndStoreUntil_loop_from (S (remaining c))
                T1 T2 Toks EA CFT first c) by lia.
  simpl. unfold ConsumeAndStoreUntil_iteration.
  assert (Hcall : forall T1' T2' Toks' EA' CFT' first' c',
             remaining c' < remaining c ->
             ConsumeAndStoreUntil_loop (remaining c) T1' T2' Toks' EA' CFT'
               first' c'
             = Some (ConsumeAndStoreUntil_from T1' T2' Toks' EA' CFT' first'
                       c')).
  { intros. apply ConsumeAndStoreUntil_loop_from. assumption. }
  destruct (Token_is (Tok c) T1 || Token_is (Tok c) T2); [reflexivity|].
  destruct (Token_is (Tok c) EA); [reflexivity|].
  destruct (getKind (Tok c)) eqn:K;
    try reflexivity;
    try match goal with
        | |- context [if ?b then _ else _] => destruct b; [reflexivity|]
        end;
    try (apply Hcall;
         first [ apply remaining_ConsumeParen
               | apply remaining_ConsumeBracket
               | apply remaining_ConsumeBrace
               | apply remaining_ConsumeStringToken
               | apply remaining_ConsumeToken ]; congruence).
  all: rewrite Hcall
    by (first [ apply remaining_ConsumeParen
              | apply remaining_ConsumeBracket
              | apply remaining_ConsumeBrace ]; congruence).
  all: apply Hcall.
  all: match goal with
       | |- remaining
              (cursor (ConsumeAndStoreUntil_from ?a ?b ?t ?e ?f ?g ?c')) < _ =>
         pose proof (ConsumeAndStoreUntil_from_remaining a b t e f g c')
       end.
  - pose proof (remaining_ConsumeParen c). rewrite K in *.
    assert (tok.l_paren <> tok.eof) by congruence. intuition lia.
  - pose proof (remaining_ConsumeBracket c). rewrite K in *.
    assert (tok.l_square <> tok.eof) by congruence. intuition lia.
  - pose proof (remaining_ConsumeBrace c). rewrite K in *.
    assert (tok.l_brace <> tok.eof) by congruence. intuition lia.
Qed.

(** ** The equations of the routine, case by case *)

Section Equations.

Variables (T1 T2 : tok.TokenKind) (Toks : CachedTokens)
          (EarlyAbortIf : tok.TokenKind) (ConsumeFinalToken : bool)
          (first : bool) (c : Cursor).

Let run := ConsumeAndStoreUntil_from T1 T2 Toks EarlyAbortIf
             ConsumeFinalToken first c.

(** The next iteration, after [Toks.push_back(Tok)] and a consume. *)
Let next (c' : Cursor) :=
  ConsumeAndStoreUntil_from T1 T2 (push_back Toks (Tok c)) EarlyAbortIf
    ConsumeFinalToken false c'.

(** The recursive call on an opening delimiter, then the next iteration. *)
Let nested (T : tok.TokenKind) (c' : Cursor) :=
  let r := ConsumeAndStoreUntil T tok.unknown (push_back Toks (Tok c))
             tok.unknown true c' in
  ConsumeAndStoreUntil_from T1 T2 (stored r) EarlyAbortIf
    ConsumeFinalToken false (cursor r).

Ltac by_unfold :=
  let U := fresh "U" in
  pose proof (ConsumeAndStoreUntil_from_unfold T1 T2 Toks EarlyAbortIf
                ConsumeFinalToken first c) as U;
  unfold ConsumeAndStoreUntil_iteration in U;
  repeat match goal with
         | H : _ = _ |- _ =>
           tryif constr_eq H U then fail else rewrite H in U
         end;
  simpl in U; injection U as U; exact U.

Lemma scan_terminator :
  Token_is (Tok c) T1 || Token_is (Tok c) T2 = true ->
  run = if ConsumeFinalToken
        then mkScan true (push_back Toks (Tok c)) (ConsumeAnyToken c)
        else mkScan true Toks c.
Proof.
  intros H.
  pose proof (ConsumeAndStoreUntil_from_unfold T1 T2 Toks EarlyAbortIf
                ConsumeFinalToken first c) as U.
  unfold ConsumeAndStoreUntil_iteration in U. rewrite H in U.
  destruct ConsumeFinalToken; injection U as U; exact U.
Qed.

Hypothesis not_terminator :
  Token_is (Tok c) T1 || Token_is (Tok c) T2 = false.

Lemma scan_early_abort :
  Token_is (Tok c) EarlyAbortIf = true -> run = mkScan false Toks c.
Proof. intros H. by_unfold. Qed.

Hypothesis not_early_abort : Token_is (Tok c) EarlyAbortIf = false.

Lemma scan_eof : getKind (Tok c) = tok.eof -> run = mkScan false Toks c.
Proof. intros H. by_unfold. Qed.

Lemma scan_l_paren :
  getKind (Tok c) = tok.l_paren -> run = nested tok.r_paren (ConsumeParen c).
Proof. intros H. by_unfold. Qed.

Lemma scan_l_square :
  getKind (Tok c) = tok.l_square ->
  run = nested tok.r_square (ConsumeBracket c).
Proof. intros H. by_unfold. Qed.

Lemma scan_l_brace :
  getKind (Tok c) = tok.l_brace -> run = nested tok.r_brace (ConsumeBrace c).
Proof. intros H. by_unfold. Qed.

Lemma scan_r_paren :
  getKind (Tok c) = tok.r_paren ->
  run = if negb (Nat.eqb (ParenCount c) 0) && negb first
        then mkScan false Toks c else next (ConsumeParen c).
Proof.
  intros H.
  destruct (negb (Nat.eqb (ParenCount c) 0) && negb first) eqn:G; by_unfold.
Qed.

Lemma scan_r_square :
  getKind (Tok c) = tok.r_square ->
  run = if negb (Nat.eqb (BracketCount c) 0) && negb first
        then mkScan false Toks c else next (ConsumeBracket c).
Proof.
  intros H.
  destruct (negb (Nat.eqb (BracketCount c) 0) && negb first) eqn:G; by_unfold.
Qed.

Lemma scan_r_brace :
  getKind (Tok c) = tok.r_brace ->
  run = if negb (Nat.eqb (BraceCount c) 0) && negb first
        then mkScan false Toks c else next (ConsumeBrace c).
Proof.
  intros H.
  destruct (negb (Nat.eqb (BraceCount c) 0) && negb first) eqn:G; by_unfold.
Qed.

Lemma scan_string_literal :
  getKind (Tok c) = tok.string_literal
  \/ getKind (Tok c) = tok.wide_string_literal ->
  run = next (ConsumeStringToken c).
Proof. intros [H|H]; by_unfold. Qed.

Lemma scan_default :
  match getKind (Tok c) with
  | tok.unknown | tok.colon | tok.equal | tok.semi | tok.comma
  | tok.other _ => True
  | _ => False
  end ->
  run = next (ConsumeToken c).
Proof.
  intros H. destruct (getKind (Tok c)) eqn:K; try contradiction; by_unfold.
Qed.

End Equations.

(** ** Scanning well-nested input *)

Lemma Lex_mkCursor (t : Token) (l : list Token) (p b r : nat) :
  Lex (mkCursor t l p b r) = cursor_at l p b r.
Proof. destruct l; reflexivity. Qed.

Lemma not_stops_at (T1 T2 EA : tok.TokenKind) (t : Token) :
  stops_at T1 T2 EA (getKind t) = false ->
  Token_is t T1 || Token_is t T2 = false /\ Token_is t EA = false.
Proof.
  unfold stops_at, Token_is. intros H.
  apply orb_false_iff in H as [H HEA]. auto.
Qed.

Lemma closer_of_not_closing (k k' : tok.TokenKind) :
  closer_of k = Some k' -> isClosing k = false /\ isClosing k' = true.
Proof. destruct k; simpl; intros H; inversion H; auto. Qed.

(** The scan walks over a well-nested prefix, storing it token for token and
    leaving the counts as they were, and goes on behind it. *)
Lemma scan_WellNested (stop : tok.TokenKind -> bool) (w : list Token) :
  WellNested stop w ->
  forall T1 T2 EA,
    (forall k, stop k = false -> isClosing k = false ->
               stops_at T1 T2 EA k = false) ->
    forall Toks CFT first rest p b r,
      ConsumeAndStoreUntil_from T1 T2 Toks EA CFT first
        (cursor_at (w ++ rest) p b r)
      = ConsumeAndStoreUntil_from T1 T2 (Toks ++ w) EA CFT
          (match w with [] => first | _ => false end)
          (cursor_at rest p b r).
Proof.
  induction 1 as [stop
                 |stop t w Hstop Hdelim Heof Hw IHw
                 |stop o c w w' Hstop Hclose Hw IHw Hw' IHw'];
    intros T1 T2 EA Hcompat Toks CFT first rest p b r.
  - simpl. now rewrite app_nil_r.
  - assert (Hcl : isClosing (getKind t) = false).
    { unfold isDelimiter in Hdelim.
      destruct (closer_of (getKind t)); [discriminate | exact Hdelim]. }
    destruct (not_stops_at T1 T2 EA t (Hcompat _ Hstop Hcl)) as [HT HEA].
    simpl app. simpl cursor_at.
    assert (Hnext :
      ConsumeAndStoreUntil_from T1 T2 Toks EA CFT first
        (mkCursor t (w ++ rest) p b r)
      = ConsumeAndStoreUntil_from T1 T2 (push_back Toks t) EA CFT false
          (Lex (mkCursor t (w ++ rest) p b r))).
    { destruct (getKind t) eqn:K; try discriminate; try congruence.
      all: try (apply scan_default; simpl; try assumption; rewrite K; exact I).
      all: apply scan_string_literal; simpl; try assumption; auto. }
    rewrite Hnext, Lex_mkCursor, (IHw T1 T2 EA Hcompat).
    unfold push_back. rewrite <- app_assoc. simpl.
    now destruct w.
  - destruct (closer_of_not_closing _ _ Hclose) as [Hocl Hccl].
    destruct (not_stops_at T1 T2 EA o (Hcompat _ Hstop Hocl)) as [HT HEA].
    assert (Hinner : forall k, tok.eqb k tok.unknown = false ->
                               isClosing k = false ->
                               stops_at (getKind c) tok.unknown tok.unknown k
                               = false).
    { intros k Hk Hkc. unfold stops_at. rewrite Hk.
      destruct (tok_eqb_spec k (getKind c)) as [->|];
        [congruence|reflexivity]. }
    simpl app. rewrite <- app_assoc. simpl app. simpl cursor_at.
    assert (Hgroup :
      ConsumeAndStoreUntil_from T1 T2 Toks EA CFT first
        (mkCursor o (w ++ c :: w' ++ rest) p b r)
      = ConsumeAndStoreUntil_from T1 T2 (Toks ++ o :: w ++ [c]) EA CFT false
          (cursor_at (w' ++ rest) p b r)).
    { destruct (getKind o) eqn:K; try discriminate;
        simpl in Hclose; injection Hclose as Hc.
      + rewrite scan_l_paren by (simpl; assumption).
        unfold ConsumeAndStoreUntil, ConsumeParen, Token_is. simpl.
        rewrite K. simpl. rewrite Lex_mkCursor.
        rewrite Hc, (IHw _ _ _ Hinner). simpl cursor_at.
        rewrite (scan_terminator (getKind c) tok.unknown)
          by (unfold Token_is; simpl; now rewrite tok_eqb_refl).
        simpl. unfold ConsumeAnyToken, ConsumeParen, Token_is. simpl.
        rewrite <- Hc. simpl. rewrite Lex_mkCursor.
        unfold push_back. now rewrite <- !app_assoc.
      + rewrite scan_l_square by (simpl; assumption).
        unfold ConsumeAndStoreUntil, ConsumeBracket, Token_is. simpl.
        rewrite K. simpl. rewrite Lex_mkCursor.
        rewrite Hc, (IHw _ _ _ Hinner). simpl cursor_at.
        rewrite (scan_terminator (getKind c) tok.unknown)
          by (unfold Token_is; simpl; now rewrite tok_eqb_refl).
        simpl. unfold ConsumeAnyToken, ConsumeBracket, Token_is. simpl.
        rewrite <- Hc. simpl. rewrite Lex_mkCursor.
        unfold push_back. now rewrite <- !app_assoc.
      + rewrite scan_l_brace by (simpl; assumption).
        unfold ConsumeAndStoreUntil, ConsumeBrace, Token_is. simpl.
        rewrite K. simpl. rewrite Lex_mkCursor.
        rewrite Hc, (IHw _ _ _ Hinner). simpl cursor_at.
        rewrite (scan_terminator (getKind c) tok.unknown)
          by (unfold Token_is; simpl; now rewrite tok_eqb_refl).
        simpl. unfold ConsumeAnyToken, ConsumeBrace, Token_is. simpl.
        rewrite <- Hc. simpl. rewrite Lex_mkCursor.
        unfold push_back. now rewrite <- !app_assoc. }
    rewrite Hgroup, (IHw' T1 T2 EA Hcompat).
    replace ((Toks ++ o :: w ++ [c]) ++ w') with (Toks ++ o :: w ++ c :: w')
      by (rewrite <- !app_assoc; simpl; now rewrite <- !app_assoc).
    now destruct w'.
Qed.

(** Well-nested input is balanced: the delimiter counter walks over it and
    owes afterwards what it owed before. *)
Lemma balanced_from_WellNested (stop : tok.TokenKind -> bool) (w : list Token) :
  WellNested stop w ->
  forall open l, balanced_from open (w ++ l) = balanced_from open l.
Proof.
  induction 1 as [stop
                 |stop t w Hstop Hdelim Heof Hw IHw
                 |stop o c w w' Hstop Hclose Hw IHw Hw' IHw'];
    intros open l.
  - reflexivity.
  - simpl. unfold isDelimiter in Hdelim.
    destruct (closer_of (getKind t)); [discriminate|].
    rewrite Hdelim. apply IHw.
  - destruct (closer_of_not_closing _ _ Hclose) as [_ Hccl].
    simpl. rewrite Hclose, <- app_assoc, IHw. simpl.
    assert (Hnone : closer_of (getKind c) = None)
      by (destruct (getKind c); simpl in *; congruence).
    rewrite Hnone, Hccl, tok_eqb_refl. simpl. apply IHw'.
Qed.

Lemma net_app (o c : tok.TokenKind) (l l' : list Token) :
  net o c (l ++ l')
  = (fst (net o c l) + fst (net o c l'), snd (net o c l) + snd (net o c l')).
Proof. unfold net. simpl. now rewrite !filter_app, !length_app. Qed.

Lemma net_cons (o c : tok.TokenKind) (t : Token) (l : list Token) :
  net o c (t :: l)
  = ((if Token_is t o then 1 else 0) + fst (net o c l),
     (if Token_is t c then 1 else 0) + snd (net o c l)).
Proof.
  unfold net. simpl. destruct (Token_is t o), (Token_is t c); reflexivity.
Qed.

Lemma net_zero_WellNested (stop : tok.TokenKind -> bool) (w : list Token) :
  WellNested stop w -> net_zero w.
Proof.
  induction 1 as [stop
                 |stop t w Hstop Hdelim Heof Hw IHw
                 |stop o c w w' Hstop Hclose Hw IHw Hw' IHw'].
  - repeat split.
  - destruct IHw as (Hp & Hb & Hr). unfold net_zero.
    rewrite !net_cons. unfold Token_is. cbn [fst snd].
    destruct (getKind t); try discriminate; cbn [tok.eqb]; lia.
  - destruct IHw as (Hp & Hb & Hr). destruct IHw' as (Hp' & Hb' & Hr').
    unfold net_zero.
    rewrite !net_cons, !net_app, !net_cons. unfold Token_is. cbn [fst snd].
    destruct (getKind o); try discriminate; simpl in Hclose;
      injection Hclose as <-; cbn [tok.eqb]; lia.
Qed.

(** ** Claims on [ConsumeAndStoreUntil] *)

(** C1, as stated, fails: read inside a brace, [( x }] makes the call for the
    closing brace return true with [( x }] stored.  The nested call for the
    closing parenthesis gives up at the brace and its answer is dropped, so the
    parenthesis stored has no partner: the sequence is not balanced, with or
    without the terminator at its end, and its net nesting is not zero. *)
Lemma ConsumeAndStoreUntil_unbalanced_capture :
  ConsumeAndStoreUntil tok.r_brace tok.unknown [] tok.unknown true
    paren_left_open
  = mkScan true [tk tok.l_paren 1; tk (tok.other 0) 2; tk tok.r_brace 3]
      (mkCursor (tk tok.semi 4) [] 1 0 0)
  /\ balanced [tk tok.l_paren 1; tk (tok.other 0) 2; tk tok.r_brace 3] = false
  /\ balanced [tk tok.l_paren 1; tk (tok.other 0) 2] = false
  /\ ~ net_zero [tk tok.l_paren 1; tk (tok.other 0) 2; tk tok.r_brace 3]
  /\ ~ net_zero [tk tok.l_paren 1; tk (tok.other 0) 2].
Proof.
  repeat split; try reflexivity.
  - intros (H & _). discriminate H.
  - intros (H & _). discriminate H.
Qed.

(** C1, amended: when a well-nested run of tokens [w], none of whose outermost
    tokens the call stops at, is followed by a terminator [t], the call returns
    true having appended exactly [w] and then, if [ConsumeFinalToken], [t];
    the cursor is behind [t] (or at [t]) with the counts it would have had
    without [w].  So what is appended, the terminator apart, is balanced and of
    net nesting zero. *)
Theorem ConsumeAndStoreUntil_balanced_capture :
  forall T1 T2 EarlyAbortIf ConsumeFinalToken Toks w t rest p b r,
    WellNested (stops_at T1 T2 EarlyAbortIf) w ->
    Token_is t T1 || Token_is t T2 = true ->
    ConsumeAndStoreUntil T1 T2 Toks EarlyAbortIf ConsumeFinalToken
      (cursor_at (w ++ t :: rest) p b r)
    = (if ConsumeFinalToken
       then mkScan true (Toks ++ w ++ [t])
              (ConsumeAnyToken (cursor_at (t :: rest) p b r))
       else mkScan true (Toks ++ w) (cursor_at (t :: rest) p b r))
    /\ balanced w = true
    /\ net_zero w.
Proof.
  intros T1 T2 EA CFT Toks w t rest p b r Hw Ht.
  split; [|split].
  - unfold ConsumeAndStoreUntil.
    rewrite (scan_WellNested _ _ Hw T1 T2 EA) by auto.
    rewrite scan_terminator by exact Ht.
    unfold push_back. now rewrite <- app_assoc.
  - unfold balanced. rewrite <- (app_nil_r w).
    now rewrite (balanced_from_WellNested _ _ Hw).
  - exact (net_zero_WellNested _ _ Hw).
Qed.

Lemma nested_run_WellNested (stop : tok.TokenKind -> bool) :
  stop (tok.other 0) = false -> stop tok.l_paren = false ->
  stop tok.string_literal = false ->
  WellNested stop nested_run.
Proof.
  intros H0 Hp Hs. unfold nested_run.
  apply WellNested_token; try assumption; try reflexivity; try discriminate.
  apply (WellNested_group stop (tk tok.l_paren 2) (tk tok.r_paren 7)
           [tk (tok.other 1) 3; tk tok.l_square 4; tk (tok.other 2) 5;
            tk tok.r_square 6]
           [tk tok.string_literal 8]); try assumption; try reflexivity.
  - apply WellNested_token; try reflexivity; try discriminate.
    apply (WellNested_group _ (tk tok.l_square 4) (tk tok.r_square 6)
             [tk (tok.other 2) 5] []); try reflexivity.
    + apply WellNested_token; try reflexivity; try discriminate.
      apply WellNested_nil.
    + apply WellNested_nil.
  - apply WellNested_token; try assumption; try reflexivity; try discriminate.
    apply WellNested_nil.
Qed.

Lemma ConsumeAndStoreUntil_balanced_capture_witness :
  ConsumeAndStoreUntil tok.r_brace tok.unknown [tk tok.l_brace 0] tok.unknown
    true (cursor_at (nested_run ++ tk tok.r_brace 9 :: [tk tok.semi 10]) 0 0 1)
  = mkScan true ([tk tok.l_brace 0] ++ nested_run ++ [tk tok.r_brace 9])
      (ConsumeAnyToken (cursor_at (tk tok.r_brace 9 :: [tk tok.semi 10]) 0 0 1))
  /\ balanced nested_run = true
  /\ net_zero nested_run.
Proof.
  apply (ConsumeAndStoreUntil_balanced_capture tok.r_brace tok.unknown
           tok.unknown true [tk tok.l_brace 0] nested_run (tk tok.r_brace 9)
           [tk tok.semi 10] 0 0 1).
  - apply nested_run_WellNested; reflexivity.
  - reflexivity.
Defined.

(** A scan that reports not-found stopped at the early-abort token, at
    end-of-input or at a closing delimiter with a nonzero open count, and that
    token is not one of its terminators. *)
Lemma ConsumeAndStoreUntil_loop_not_found (n : nat) :
  forall T1 T2 Toks EA CFT first c r,
    ConsumeAndStoreUntil_loop n T1 T2 Toks EA CFT first c = Some r ->
    found r = false ->
    Token_is (Tok (cursor r)) T1 || Token_is (Tok (cursor r)) T2 = false
    /\ stopped_short EA (cursor r).
Proof.
  induction n as [|n IH]; intros T1 T2 Toks EA CFT first c r H Hf;
    [discriminate|].
  change (ConsumeAndStoreUntil_iteration (ConsumeAndStoreUntil_loop n)
            T1 T2 Toks EA CFT first c = Some r) in H.
  unfold ConsumeAndStoreUntil_iteration in H.
  destruct (Token_is (Tok c) T1 || Token_is (Tok c) T2) eqn:HT.
  { destruct CFT; injection H as <-; discriminate Hf. }
  destruct (Token_is (Tok c) EA) eqn:HEA.
  { injection H as <-. simpl. split; [exact HT|]. left. exact HEA. }
  assert (Hclosing : forall b : bool,
             isClosing (getKind (Tok c)) = true ->
             (b = true -> OpenCount (getKind (Tok c)) c <> 0) ->
             forall c',
               (if b then Some (mkScan false Toks c)
                else ConsumeAndStoreUntil_loop n T1 T2
                       (push_back Toks (Tok c)) EA CFT false c') = Some r ->
               Token_is (Tok (cursor r)) T1 || Token_is (Tok (cursor r)) T2
               = false
               /\ stopped_short EA (cursor r)).
  { intros b Hcl Hcount c' Hb. destruct b.
    - injection Hb as <-. simpl. split; [exact HT|].
      right; right. split; [exact Hcl | now apply Hcount].
    - eapply IH; eassumption. }
  destruct (getKind (Tok c)) eqn:K;
    try (eapply IH; eassumption);
    try (injection H as <-; simpl; split; [exact HT|];
         right; left; exact K);
    try (match type of H with
         | match ?call with _ => _ end = _ =>
           destruct call; [|discriminate]
         end; eapply IH; eassumption).
  - eapply Hclosing; [reflexivity| |exact H]. simpl.
    intros Hb. apply andb_prop in Hb as [Hb _].
    destruct (Nat.eqb_spec (ParenCount c) 0); [discriminate | assumption].
  - eapply Hclosing; [reflexivity| |exact H]. simpl.
    intros Hb. apply andb_prop in Hb as [Hb _].
    destruct (Nat.eqb_spec (BracketCount c) 0); [discriminate | assumption].
  - eapply Hclosing; [reflexivity| |exact H]. simpl.
    intros Hb. apply andb_prop in Hb as [Hb _].
    destruct (Nat.eqb_spec (BraceCount c) 0); [discriminate | assumption].
Qed.

(** C4: with the lookahead no terminator, the scan reports not-found at once
    when the lookahead is the early-abort token or end-of-input: the token is
    neither stored nor consumed, and the container holds what was stored up to
    there.  So a call that has a well-nested run [w] ahead, and behind it the
    early-abort token or end-of-input, reports not-found with exactly [w]
    appended and the cursor at that token.  Those are the two ways to
    not-found that have nothing to do with delimiters: whenever the routine
    reports not-found, it has stopped at the early-abort token, at
    end-of-input or at a closing delimiter whose open count is not zero. *)
Theorem ConsumeAndStoreUntil_not_found :
  forall T1 T2 Toks EarlyAbortIf ConsumeFinalToken first c,
    (Token_is (Tok c) T1 || Token_is (Tok c) T2 = false ->
     Token_is (Tok c) EarlyAbortIf = true \/ getKind (Tok c) = tok.eof ->
     ConsumeAndStoreUntil_from T1 T2 Toks EarlyAbortIf ConsumeFinalToken
       first c = mkScan false Toks c)
    /\ (forall w a rest p b r,
           WellNested (stops_at T1 T2 EarlyAbortIf) w ->
           Token_is a T1 || Token_is a T2 = false ->
           Token_is a EarlyAbortIf = true \/ getKind a = tok.eof ->
           ConsumeAndStoreUntil T1 T2 Toks EarlyAbortIf ConsumeFinalToken
             (cursor_at (w ++ a :: rest) p b r)
           = mkScan false (Toks ++ w) (cursor_at (a :: rest) p b r))
    /\ (found (ConsumeAndStoreUntil_from T1 T2 Toks EarlyAbortIf
                 ConsumeFinalToken first c) = false ->
        stopped_short EarlyAbortIf
          (cursor (ConsumeAndStoreUntil_from T1 T2 Toks EarlyAbortIf
                     ConsumeFinalToken first c))).
Proof.
  intros T1 T2 Toks EA CFT first c.
  assert (Hnow : forall Toks' first' c',
             Token_is (Tok c') T1 || Token_is (Tok c') T2 = false ->
             Token_is (Tok c') EA = true \/ getKind (Tok c') = tok.eof ->
             ConsumeAndStoreUntil_from T1 T2 Toks' EA CFT first' c'
             = mkScan false Toks' c').
  { intros Toks' first' c' HT [HEA|Heof].
    - now apply scan_early_abort.
    - destruct (Token_is (Tok c') EA) eqn:HEA.
      + now apply scan_early_abort.
      + now apply scan_eof. }
  split; [apply Hnow|]. split.
  - intros w a rest p b r Hw HT Ha.
    unfold ConsumeAndStoreUntil.
    rewrite (scan_WellNested _ _ Hw T1 T2 EA) by auto.
    now apply Hnow.
  - intros Hf.
    eapply (ConsumeAndStoreUntil_loop_not_found (S (remaining c))).
    + apply ConsumeAndStoreUntil_loop_from. lia.
    + exact Hf.
Qed.

(** [: x ( 1 ; ) ;] then [{]: the semicolon between the parentheses is
    walked over, the one behind them stops the scan for the brace. *)
Lemma ConsumeAndStoreUntil_not_found_witness :
  ConsumeAndStoreUntil_from tok.l_brace tok.unknown
    [tk (tok.other 0) 1] tok.semi true false
    (cursor_at [tk tok.semi 2; tk tok.l_brace 3] 0 0 0)
  = mkScan false [tk (tok.other 0) 1]
      (cursor_at [tk tok.semi 2; tk tok.l_brace 3] 0 0 0)
  /\ ConsumeAndStoreUntil tok.l_brace tok.unknown [] tok.semi true
       (cursor_at
          ([tk tok.colon 1; tk (tok.other 0) 2; tk tok.l_paren 3;
            tk (tok.other 1) 4; tk tok.semi 5; tk tok.r_paren 6]
           ++ tk tok.semi 7 :: [tk tok.l_brace 8]) 0 0 1)
     = mkScan false
         ([] ++ [tk tok.colon 1; tk (tok.other 0) 2; tk tok.l_paren 3;
                 tk (tok.other 1) 4; tk tok.semi 5; tk tok.r_paren 6])
         (cursor_at (tk tok.semi 7 :: [tk tok.l_brace 8]) 0 0 1)
  /\ stopped_short tok.semi
       (cursor (ConsumeAndStoreUntil_from tok.l_brace tok.unknown [] tok.semi
                  true true
                  (cursor_at [tk (tok.other 0) 1; tk tok.semi 2;
                              tk tok.l_brace 3] 0 0 0))).
Proof.
  split; [|split].
  - apply (ConsumeAndStoreUntil_not_found tok.l_brace tok.unknown
             [tk (tok.other 0) 1] tok.semi true false
             (cursor_at [tk tok.semi 2; tk tok.l_brace 3] 0 0 0)).
    + reflexivity.
    + left. reflexivity.
  - apply (ConsumeAndStoreUntil_not_found tok.l_brace tok.unknown
             [] tok.semi true true
             (cursor_at [tk tok.semi 2; tk tok.l_brace 3] 0 0 0)).
    + apply WellNested_token; try reflexivity; try discriminate.
      apply WellNested_token; try reflexivity; try discriminate.
      apply (WellNested_group _ (tk tok.l_paren 3) (tk tok.r_paren 6)
               [tk (tok.other 1) 4; tk tok.semi 5] []); try reflexivity.
      * apply WellNested_token; try reflexivity; try discriminate.
        apply WellNested_token; try reflexivity; try discriminate.
        apply WellNested_nil.
      * apply WellNested_nil.
    + reflexivity.
    + left. reflexivity.
  - apply (ConsumeAndStoreUntil_not_found tok.l_brace tok.unknown
             [] tok.semi true true
             (cursor_at [tk (tok.other 0) 1; tk tok.semi 2;
                         tk tok.l_brace 3] 0 0 0)).
    reflexivity.
Defined.



(** C6, as stated, fails when the closing delimiter is the early-abort token
    of the call: in [) {] read with nothing open, a call for an opening brace
    that is to abort at a closing parenthesis meets, as its very first token
    and with a parenthesis count of zero, a closing parenthesis that is none of
    its terminators.  It returns not-found with nothing stored and nothing
    consumed; appending the token, consuming it and scanning on, as the claim
    has it, would have found the brace. *)
Lemma ConsumeAndStoreUntil_closing_early_abort :
  getKind (Tok stray_paren) = tok.r_paren
  /\ Token_is (Tok stray_paren) tok.l_brace
     || Token_is (Tok stray_paren) tok.unknown = false
  /\ ParenCount stray_paren = 0
  /\ ConsumeAndStoreUntil tok.l_brace tok.unknown [] tok.r_paren true
       stray_paren
     = mkScan false [] stray_paren
  /\ ConsumeAndStoreUntil_from tok.l_brace tok.unknown
       (push_back [] (Tok stray_paren)) tok.r_paren true false
       (ConsumeParen stray_paren)
     = mkScan true [tk tok.r_paren 1; tk tok.l_brace 2]
         (mkCursor eofToken [] 0 0 1)
  /\ ConsumeAndStoreUntil tok.l_brace tok.unknown [] tok.r_paren true
       stray_paren
     <> ConsumeAndStoreUntil_from tok.l_brace tok.unknown
          (push_back [] (Tok stray_paren)) tok.r_paren true false
          (ConsumeParen stray_paren).
Proof.
  repeat split; try reflexivity.
  intros H. discriminate H.
Qed.

(** C6, amended: with a closing delimiter as the lookahead that is neither a
    terminator of the call nor its early-abort token, the scan returns
    not-found with the token neither stored nor consumed if the open count of
    its kind is not zero and the token is not the first the call looks at;
    otherwise it appends the token, consumes it and goes on scanning.  The
    consume takes one off the count of the kind, if there is one to take, and
    moves the cursor on by one token. *)
Theorem ConsumeAndStoreUntil_closing_delimiter :
  forall T1 T2 Toks EarlyAbortIf ConsumeFinalToken first c,
    Token_is (Tok c) T1 || Token_is (Tok c) T2 = false ->
    Token_is (Tok c) EarlyAbortIf = false ->
    isClosing (getKind (Tok c)) = true ->
    ConsumeAndStoreUntil_from T1 T2 Toks EarlyAbortIf ConsumeFinalToken first c
    = (if negb (Nat.eqb (OpenCount (getKind (Tok c)) c) 0) && negb first
       then mkScan false Toks c
       else ConsumeAndStoreUntil_from T1 T2 (push_back Toks (Tok c))
              EarlyAbortIf ConsumeFinalToken false (ConsumeAnyToken c))
    /\ OpenCount (getKind (Tok c)) (ConsumeAnyToken c)
       = pred (OpenCount (getKind (Tok c)) c)
    /\ Tok (ConsumeAnyToken c) = hd eofToken (PP c)
    /\ PP (ConsumeAnyToken c) = tl (PP c).
Proof.
  intros T1 T2 Toks EA CFT first c HT HEA Hcl.
  destruct (getKind (Tok c)) eqn:K; try discriminate Hcl.
  - split; [|repeat split].
    + rewrite scan_r_paren by assumption.
      unfold ConsumeAnyToken. now rewrite K.
    + unfold ConsumeAnyToken, ConsumeParen, Token_is, Lex. rewrite K. simpl.
      now destruct (PP c).
    + unfold ConsumeAnyToken, ConsumeParen, Token_is, Lex. rewrite K. simpl.
      now destruct (PP c).
    + unfold ConsumeAnyToken, ConsumeParen, Token_is, Lex. rewrite K. simpl.
      now destruct (PP c).
  - split; [|repeat split].
    + rewrite scan_r_square by assumption.
      unfold ConsumeAnyToken. now rewrite K.
    + unfold ConsumeAnyToken, ConsumeBracket, Token_is, Lex. rewrite K. simpl.
      now destruct (PP c).
    + unfold ConsumeAnyToken, ConsumeBracket, Token_is, Lex. rewrite K. simpl.
      now destruct (PP c).
    + unfold ConsumeAnyToken, ConsumeBracket, Token_is, Lex. rewrite K. simpl.
      now destruct (PP c).
  - split; [|repeat split].
    + rewrite scan_r_brace by assumption.
      unfold ConsumeAnyToken. now rewrite K.
    + unfold ConsumeAnyToken, ConsumeBrace, Token_is, Lex. rewrite K. simpl.
      now destruct (PP c).
    + unfold ConsumeAnyToken, ConsumeBrace, Token_is, Lex. rewrite K. simpl.
      now destruct (PP c).
    + unfold ConsumeAnyToken, ConsumeBrace, Token_is, Lex. rewrite K. simpl.
      now destruct (PP c).
Qed.

(** [] }] then [;], read inside a brace: the bracket is stray, the brace is
    the one of the body. *)
Lemma ConsumeAndStoreUntil_closing_delimiter_witness :
  ConsumeAndStoreUntil_from tok.r_paren tok.unknown [] tok.unknown true false
    (cursor_at [tk tok.r_brace 1; tk tok.semi 2] 1 0 1)
  = mkScan false [] (cursor_at [tk tok.r_brace 1; tk tok.semi 2] 1 0 1)
  /\ ConsumeAndStoreUntil_from tok.r_paren tok.unknown [] tok.unknown true true
      (cursor_at [tk tok.r_brace 1; tk tok.semi 2] 1 0 1)
     = ConsumeAndStoreUntil_from tok.r_paren tok.unknown [tk tok.r_brace 1]
         tok.unknown true false (cursor_at [tk tok.semi 2] 1 0 0).
Proof.
  split.
  - apply (ConsumeAndStoreUntil_closing_delimiter tok.r_paren tok.unknown []
             tok.unknown true false
             (cursor_at [tk tok.r_brace 1; tk tok.semi 2] 1 0 1));
      reflexivity.
  - apply (ConsumeAndStoreUntil_closing_delimiter tok.r_paren tok.unknown []
             tok.unknown true true
             (cursor_at [tk tok.r_brace 1; tk tok.semi 2] 1 0 1));
      reflexivity.
Defined.

(** A turn of the loop returns, whatever the rest of the run would do, or
    hands on a cursor with fewer tokens left. *)
Lemma ConsumeAndStoreUntil_iteration_progress :
  forall T1 T2 Toks EA CFT first c,
    (exists r,
        forall self,
          ConsumeAndStoreUntil_iteration self T1 T2 Toks EA CFT first c
          = Some r)
    \/ (exists r,
           ConsumeAndStoreUntil_iteration hand_back T1 T2 Toks EA CFT first c
           = Some r
           /\ remaining (cursor r) < remaining c).
Proof.
  intros T1 T2 Toks EA CFT first c.
  unfold ConsumeAndStoreUntil_iteration, hand_back.
  destruct (Token_is (Tok c) T1 || Token_is (Tok c) T2).
  { destruct CFT; left; eexists; intros self; reflexivity. }
  destruct (Token_is (Tok c) EA).
  { left; eexists; intros self; reflexivity. }
  destruct (getKind (Tok c)) eqn:K;
    try (left; eexists; intros self; reflexivity);
    try match goal with
        | |- context [if ?b then _ else _] =>
          destruct b; [left; eexists; intros self; reflexivity|]
        end;
    right; eexists; (split; [reflexivity|]); cbn [cursor];
    first [ apply remaining_ConsumeParen
          | apply remaining_ConsumeBracket
          | apply remaining_ConsumeBrace
          | apply remaining_ConsumeStringToken
          | apply remaining_ConsumeToken ]; congruence.
Qed.

(** C10: the routine returns on every token stream.  Running the loop on one
    unit of fuel more than there are tokens left (the rest of the stream, and
    the lookahead unless it is end-of-input) gives a result, more fuel gives
    the same, and the call leaves no more tokens than it found.  The reason:
    a turn of the loop returns or consumes a token, before the recursive call
    if it makes one. *)
Theorem ConsumeAndStoreUntil_terminates :
  forall T1 T2 Toks EarlyAbortIf ConsumeFinalToken first c,
    (exists r,
        (forall more,
            ConsumeAndStoreUntil_loop (S (remaining c) + more) T1 T2 Toks
              EarlyAbortIf ConsumeFinalToken first c = Some r)
        /\ ConsumeAndStoreUntil_from T1 T2 Toks EarlyAbortIf ConsumeFinalToken
             first c = r
        /\ remaining (cursor r) <= remaining c)
    /\ ((exists r,
            forall self,
              ConsumeAndStoreUntil_iteration self T1 T2 Toks EarlyAbortIf
                ConsumeFinalToken first c = Some r)
        \/ (exists r,
               ConsumeAndStoreUntil_iteration hand_back T1 T2 Toks
                 EarlyAbortIf ConsumeFinalToken first c = Some r
               /\ remaining (cursor r) < remaining c)).
Proof.
  intros T1 T2 Toks EA CFT first c. split.
  - exists (ConsumeAndStoreUntil_from T1 T2 Toks EA CFT first c).
    split; [|split].
    + intros more. apply ConsumeAndStoreUntil_loop_from. lia.
    + reflexivity.
    + apply ConsumeAndStoreUntil_from_remaining.
  - apply ConsumeAndStoreUntil_iteration_progress.
Qed.

(** ** The container only grows *)

Lemma ConsumeAndStoreUntil_loop_stored (n : nat) :
  forall T1 T2 Toks EA CFT first c r,
    ConsumeAndStoreUntil_loop n T1 T2 Toks EA CFT first c = Some r ->
    exists w, stored r = Toks ++ w.
Proof.
  induction n as [|n IH]; intros T1 T2 Toks EA CFT first c r H;
    [discriminate|].
  change (ConsumeAndStoreUntil_iteration (ConsumeAndStoreUntil_loop n)
            T1 T2 Toks EA CFT first c = Some r) in H.
  unfold ConsumeAndStoreUntil_iteration in H.
  assert (Hnow : forall b c', Some (mkScan b Toks c') = Some r ->
                              exists w, stored r = Toks ++ w).
  { intros b c' E. injection E as <-. exists []. simpl.
    now rewrite app_nil_r. }
  assert (Hnext : forall c',
             ConsumeAndStoreUntil_loop n T1 T2 (push_back Toks (Tok c)) EA CFT
               false c' = Some r ->
             exists w, stored r = Toks ++ w).
  { intros c' E. apply IH in E as [w E]. exists (Tok c :: w).
    rewrite E. unfold push_back. now rewrite <- app_assoc. }
  assert (Hnested : forall T c',
             match ConsumeAndStoreUntil_loop n T tok.unknown
                     (push_back Toks (Tok c)) tok.unknown true true c' with
             | None => None
             | Some r1 =>
               ConsumeAndStoreUntil_loop n T1 T2 (stored r1) EA CFT false
                 (cursor r1)
             end = Some r ->
             exists w, stored r = Toks ++ w).
  { intros T c' E.
    destruct (ConsumeAndStoreUntil_loop n T tok.unknown
                (push_back Toks (Tok c)) tok.unknown true true c')
      as [r1|] eqn:E1; [|discriminate].
    apply IH in E1 as [w1 E1]. apply IH in E as [w E].
    exists (Tok c :: w1 ++ w). rewrite E, E1. unfold push_back.
    rewrite <- !app_assoc. reflexivity. }
  destruct (Token_is (Tok c) T1 || Token_is (Tok c) T2).
  { destruct CFT; [|now apply (Hnow true c)].
    injection H as <-. exists [Tok c]. reflexivity. }
  destruct (Token_is (Tok c) EA); [now apply (Hnow false c)|].
  destruct (getKind (Tok c));
    try (now apply (Hnow false c));
    try (now apply Hnext with (1 := H));
    try (now apply Hnested with (1 := H));
    match type of H with
    | (if ?b then _ else _) = _ => destruct b
    end;
    first [now apply (Hnow false c) | now apply Hnext with (1 := H)].
Qed.

Lemma ConsumeAndStoreUntil_from_stored :
  forall T1 T2 Toks EA CFT first c,
    exists w,
      stored (ConsumeAndStoreUntil_from T1 T2 Toks EA CFT first c) = Toks ++ w.
Proof.
  intros T1 T2 Toks EA CFT first c.
  apply (ConsumeAndStoreUntil_loop_stored (S (remaining c))
           T1 T2 Toks EA CFT first c).
  apply ConsumeAndStoreUntil_loop_from. lia.
Qed.

(** ** The queue of stored bodies *)

Lemma back_Toks_push_back (q : list LexedMethod.t) (x : LexedMethod.t) :
  back_Toks (push_back q x) = LexedMethod.Toks x.
Proof. unfold back_Toks, push_back. now rewrite last_last. Qed.

Lemma set_back_Toks_push_back (toks : CachedTokens) (q : list LexedMethod.t)
    (x : LexedMethod.t) :
  set_back_Toks toks (push_back q x)
  = push_back q (LexedMethod.mk (LexedMethod.D x) toks).
Proof.
  unfold set_back_Toks, push_back.
  rewrite removelast_last, last_last.
  destruct (q ++ [x]) eqn:E; [|reflexivity].
  now destruct q.
Qed.

Lemma TopClass_eta (t : TopClass) :
  mkTopClass (MethodDecls t) (MethodDefs t) = t.
Proof. now destruct t. Qed.

(** ** Claims on [ParseCXXInlineMethodDef] *)

Section Capture.

Variable ActOnCXXMemberDeclarator :
  ParserState -> AccessSpecifier -> Declarator -> DeclTy.

(** C3: entered on a colon, with the scan for the opening brace stopping
    short at a semicolon, the routine registers the declaration with Sema,
    emits the diagnostic at the semicolon, consumes the semicolon and
    returns the declaration.  The item it had pushed is gone with whatever
    was stored in it: both queues and the frames below are as they were on
    entry. *)
Theorem ParseCXXInlineMethodDef_semicolon :
  forall AS D s r,
    isFunctionDeclarator D = true ->
    Tok_is s tok.colon = true ->
    ConsumeAndStoreUntil tok.l_brace tok.unknown [] tok.semi true (cur s)
    = r ->
    found r = false ->
    Token_is (Tok (cursor r)) tok.semi = true ->
    ParseCXXInlineMethodDef ActOnCXXMemberDeclarator AS D s
    = Returned
        (ActOnCXXMemberDeclarator s AS D,
         mkState (ConsumeToken (cursor r)) (CurTopClassStack s)
           (TopClassStacks_below s)
           (Trace s
            ++ [EvActOnCXXMemberDeclarator AS D
                  (ActOnCXXMemberDeclarator s AS D);
                EvDiag (getLocation (Tok (cursor r)))
                  diag.err_expected_lbrace])).
Proof.
  intros AS D s r HD Hcolon Hr Hfound Hsemi.
  unfold ParseCXXInlineMethodDef.
  rewrite HD, Hcolon, orb_true_r. cbn [assert bind].
  unfold Tok_is in *. cbn [cur set_MethodDefs log].
  rewrite Hcolon.
  unfold ConsumeAndStoreUntil_back.
  cbn [cur set_MethodDefs log CurTopClassStack MethodDefs set_cur].
  rewrite back_Toks_push_back. cbn [LexedMethod.Toks].
  rewrite Hr, Hfound. cbn [negb cur]. rewrite Hsemi.
  cbn [cur set_MethodDefs log CurTopClassStack MethodDefs MethodDecls
         set_cur TopClassStacks_below Trace].
  rewrite set_back_Toks_push_back. unfold push_back at 1.
  rewrite removelast_last.
  unfold set_MethodDefs, set_cur, log.
  cbn [cur CurTopClassStack MethodDefs MethodDecls TopClassStacks_below
         Trace].
  rewrite TopClass_eta, <- app_assoc.
  unfold ConsumeAnyToken. unfold Token_is in Hsemi.
  apply tok_eqb_eq in Hsemi. rewrite Hsemi.
  reflexivity.
Qed.

Lemma stored_from_colon (Toks : CachedTokens) (c : Cursor) :
  Token_is (Tok c) tok.colon = true ->
  exists w,
    stored (ConsumeAndStoreUntil tok.l_brace tok.unknown Toks tok.semi true c)
    = Toks ++ Tok c :: w.
Proof.
  intros H. unfold Token_is in H. apply tok_eqb_eq in H.
  unfold ConsumeAndStoreUntil.
  rewrite scan_default;
    try (unfold Token_is; rewrite H; reflexivity);
    try (rewrite H; exact I).
  destruct (ConsumeAndStoreUntil_from_stored tok.l_brace tok.unknown
              (push_back Toks (Tok c)) tok.semi true false (ConsumeToken c))
    as [w Hw].
  exists w. rewrite Hw. unfold push_back. now rewrite <- app_assoc.
Qed.

Lemma MethodDefs_ConsumeAndStoreUntil_back
    (T1 T2 EA : tok.TokenKind) (q : list LexedMethod.t) (x : LexedMethod.t)
    (s : ParserState) :
  MethodDefs (CurTopClassStack s) = push_back q x ->
  exists w,
    MethodDefs (CurTopClassStack (snd (ConsumeAndStoreUntil_back T1 T2 EA s)))
    = push_back q (LexedMethod.mk (LexedMethod.D x) (LexedMethod.Toks x ++ w)).
Proof.
  intros Hq. unfold ConsumeAndStoreUntil_back. cbn. rewrite Hq.
  rewrite back_Toks_push_back, set_back_Toks_push_back.
  destruct (ConsumeAndStoreUntil_from_stored T1 T2 (LexedMethod.Toks x) EA
              true true (cur s)) as [w Hw].
  exists w. unfold ConsumeAndStoreUntil. now rewrite Hw.
Qed.

Lemma forallb_replayable_push_back (q : list LexedMethod.t)
    (x : LexedMethod.t) :
  forallb replayable (push_back q x)
  = forallb replayable q && replayable x.
Proof.
  unfold push_back. rewrite forallb_app. simpl. now rewrite andb_true_r.
Qed.

(** What [ParseCXXInlineMethodDef] leaves in the queue, if it does not give
    the member up: the queue as it was, and behind it the new item, whose
    tokens start with the token the routine was entered on. *)
Lemma ParseCXXInlineMethodDef_queue (AS : AccessSpecifier) (D : Declarator)
    (s : ParserState) :
  isFunctionDeclarator D = true ->
  Tok_is s tok.l_brace || Tok_is s tok.colon = true ->
  exists s',
    ParseCXXInlineMethodDef ActOnCXXMemberDeclarator AS D s
    = Returned (ActOnCXXMemberDeclarator s AS D, s')
    /\ (MethodDefs (CurTopClassStack s') = MethodDefs (CurTopClassStack s)
        \/ exists w,
             MethodDefs (CurTopClassStack s')
             = push_back (MethodDefs (CurTopClassStack s))
                 (LexedMethod.mk (ActOnCXXMemberDeclarator s AS D)
                    (Tok (cur s) :: w))).
Proof.
  intros HD HTok.
  unfold ParseCXXInlineMethodDef. rewrite HD, HTok. cbn [assert bind].
  set (FnD := ActOnCXXMemberDeclarator s AS D).
  set (s0 := set_MethodDefs _ (log _ s)).
  assert (Hq0 : MethodDefs (CurTopClassStack s0)
                = push_back (MethodDefs (CurTopClassStack s))
                    (LexedMethod.mk FnD [])) by reflexivity.
  assert (Hcur0 : cur s0 = cur s) by reflexivity.
  assert (Hfinish : forall s1 toks,
             MethodDefs (CurTopClassStack s1)
             = push_back (MethodDefs (CurTopClassStack s))
                 (LexedMethod.mk FnD (Tok (cur s) :: toks)) ->
             exists s',
               (let '(_, s2) :=
                  ConsumeAndStoreUntil_back tok.r_brace tok.unknown
                    tok.unknown s1 in
                Returned (FnD, s2)) = Returned (FnD, s')
               /\ (MethodDefs (CurTopClassStack s')
                   = MethodDefs (CurTopClassStack s)
                   \/ exists w,
                        MethodDefs (CurTopClassStack s')
                        = push_back (MethodDefs (CurTopClassStack s))
                            (LexedMethod.mk FnD (Tok (cur s) :: w)))).
  { intros s1 toks Hq1.
    destruct (MethodDefs_ConsumeAndStoreUntil_back tok.r_brace tok.unknown
                tok.unknown _ _ s1 Hq1) as [w Hw].
    destruct (ConsumeAndStoreUntil_back tok.r_brace tok.unknown tok.unknown
                s1) as [fnd s2].
    exists s2. split; [reflexivity|]. right. exists (toks ++ w). exact Hw. }
  destruct (Tok_is s0 tok.colon) eqn:Hcolon.
  - destruct (stored_from_colon [] (cur s0) Hcolon) as [w Hw].
    assert (Hq1 : MethodDefs (CurTopClassStack
                     (snd (ConsumeAndStoreUntil_back tok.l_brace tok.unknown
                             tok.semi s0)))
                  = push_back (MethodDefs (CurTopClassStack s))
                      (LexedMethod.mk FnD (Tok (cur s) :: w))).
    { unfold ConsumeAndStoreUntil_back. cbn. fold FnD.
      rewrite back_Toks_push_back, set_back_Toks_push_back. cbn.
      rewrite Hcur0 in Hw. now rewrite Hw. }
    destruct (ConsumeAndStoreUntil_back tok.l_brace tok.unknown tok.semi s0)
      as [fnd s1]. cbn [snd] in Hq1.
    destruct fnd; cbn [negb]; [now apply Hfinish with w|].
    destruct (Tok_is s1 tok.semi); [|now apply Hfinish with w].
    eexists. split; [reflexivity|]. left. cbn. rewrite Hq1.
    unfold push_back. now rewrite removelast_last.
  - apply Hfinish with []. cbn. fold FnD.
    rewrite back_Toks_push_back, set_back_Toks_push_back. reflexivity.
Qed.

End Capture.

(** ** The replay passes *)

Lemma collect_app {A : Type} (pick : Event -> option A) (tr tr' : list Event) :
  collect pick (tr ++ tr') = collect pick tr ++ collect pick tr'.
Proof. unfold collect. apply flat_map_app. Qed.

Lemma collect_cons {A : Type} (pick : Event -> option A) (e : Event)
    (tr : list Event) :
  collect pick (e :: tr)
  = match pick e with Some a => [a] | None => [] end ++ collect pick tr.
Proof. reflexivity. Qed.

(** The cursor substitution: the lookahead becomes the first stored token, and
    the old lookahead comes back right behind the stored ones. *)
Lemma ReplayTokens_cons (t : Token) (rest : CachedTokens) (c : Cursor) :
  Tok (ReplayTokens (t :: rest) c) = t
  /\ PP (ReplayTokens (t :: rest) c) = rest ++ Tok c :: PP c.
Proof.
  unfold ReplayTokens, EnterTokenStream, push_back, ConsumeAnyToken,
    ConsumeToken, ConsumeStringToken, ConsumeParen, ConsumeBracket,
    ConsumeBrace, Lex.
  cbn. destruct (getKind (Tok c)); cbn; rewrite <- app_assoc; split;
    reflexivity.
Qed.

(** With nothing stored the lookahead is read again. *)
Lemma ReplayTokens_nil (c : Cursor) :
  Tok (ReplayTokens [] c) = Tok c /\ PP (ReplayTokens [] c) = PP c.
Proof.
  unfold ReplayTokens, EnterTokenStream, push_back, ConsumeAnyToken,
    ConsumeToken, ConsumeStringToken, ConsumeParen, ConsumeBracket,
    ConsumeBrace, Lex.
  cbn. destruct (getKind (Tok c)); cbn; auto.
Qed.

Section Replay.

Variable ParseAssignmentExpression : ParserState -> OwningExprResult * Cursor.
Variable ParseConstructorInitializer : ParserState -> DeclTy -> Cursor.
Variable ParseFunctionStatementBody :
  ParserState -> DeclTy -> SourceLocation -> SourceLocation -> Cursor.

Let item := ParseLexedMethodDefs_item ParseConstructorInitializer
              ParseFunctionStatementBody.
Let loop := ParseLexedMethodDefs_loop ParseConstructorInitializer
              ParseFunctionStatementBody.

(** *** The bodies pass *)

Lemma ParseLexedMethodDefs_item_Returned (LM : LexedMethod.t)
    (s : ParserState) :
  replayable LM = true ->
  exists s' tr,
    item LM s = Returned s'
    /\ tl (MethodDefs (CurTopClassStack s'))
       = tl (MethodDefs (CurTopClassStack s))
    /\ MethodDecls (CurTopClassStack s') = MethodDecls (CurTopClassStack s)
    /\ Trace s' = Trace s ++ tr
    /\ bodies_parsed tr = [LexedMethod.D LM].
Proof.
  intros Hrep. unfold item, ParseLexedMethodDefs_item.
  destruct LM as [FnD [|t rest]]; [discriminate|].
  unfold replayable in Hrep. cbn [LexedMethod.Toks LexedMethod.D] in *.
  cbn [negb assert bind].
  unfold Tok_is at 1 2. cbn [cur set_cur set_MethodDefs].
  destruct (ReplayTokens_cons t rest (cur s)) as [HTok _].
  rewrite HTok, Hrep. cbn [assert bind].
  match goal with
  | |- context [if ?b then _ else _] => destruct b
  end;
    (do 2 eexists; split; [reflexivity|]; split; [reflexivity|];
     split; [reflexivity|];
     split; [cbn; rewrite <- !app_assoc; reflexivity | reflexivity]).
Qed.

Lemma ParseLexedMethodDefs_item_AssertionFailed (LM : LexedMethod.t)
    (s : ParserState) :
  replayable LM = false ->
  exists msg, item LM s = AssertionFailed msg.
Proof.
  intros Hrep. unfold item, ParseLexedMethodDefs_item.
  destruct LM as [FnD [|t rest]].
  - eexists. reflexivity.
  - unfold replayable in Hrep. cbn [LexedMethod.Toks LexedMethod.D] in *.
    cbn [negb assert bind].
    unfold Tok_is at 1 2. cbn [cur set_cur set_MethodDefs].
    destruct (ReplayTokens_cons t rest (cur s)) as [HTok _].
    rewrite HTok, Hrep. eexists. reflexivity.
Qed.

Lemma ParseLexedMethodDefs_loop_Returned (q : list LexedMethod.t) :
  forall s fuel,
    MethodDefs (CurTopClassStack s) = q ->
    forallb replayable q = true ->
    List.length q <= fuel ->
    exists s' tr,
      loop fuel s = Some (Returned s')
      /\ MethodDefs (CurTopClassStack s') = []
      /\ MethodDecls (CurTopClassStack s') = MethodDecls (CurTopClassStack s)
      /\ Trace s' = Trace s ++ tr
      /\ bodies_parsed tr = map LexedMethod.D q.
Proof.
  induction q as [|LM q IH]; intros s fuel Hq Hall Hfuel.
  - exists s, []. unfold loop.
    destruct fuel; cbn; rewrite Hq; repeat split; now rewrite app_nil_r.
  - destruct fuel as [|fuel]; [cbn in Hfuel; lia|].
    cbn in Hall. apply andb_prop in Hall as [HLM Hall].
    destruct (ParseLexedMethodDefs_item_Returned LM s HLM)
      as (s1 & tr1 & Hitem & Htl & Hdecls & Htr1 & Hb1).
    rewrite Hq in Htl. cbn [tl] in Htl.
    destruct (IH (set_MethodDefs (tl (MethodDefs (CurTopClassStack s1))) s1)
                fuel) as (s' & tr & Hloop & Hempty & Hdecls' & Htr & Hb).
    { cbn. exact Htl. }
    { exact Hall. }
    { cbn in Hfuel. lia. }
    exists s', (tr1 ++ tr). unfold loop. cbn. rewrite Hq.
    fold item. rewrite Hitem. fold loop. rewrite Hloop.
    repeat split.
    + exact Hempty.
    + rewrite Hdecls'. cbn. exact Hdecls.
    + rewrite Htr. cbn. rewrite Htr1. now rewrite app_assoc.
    + unfold bodies_parsed in *. rewrite collect_app, Hb1, Hb. reflexivity.
Qed.

Lemma ParseLexedMethodDefs_loop_Returned_inv (fuel : nat) :
  forall s s',
    loop fuel s = Some (Returned s') ->
    forallb replayable (MethodDefs (CurTopClassStack s)) = true.
Proof.
  induction fuel as [|fuel IH]; intros s s' H; unfold loop in H; cbn in H;
    destruct (MethodDefs (CurTopClassStack s)) as [|LM q] eqn:Hq;
    try reflexivity; try discriminate.
  fold item in H. cbn.
  destruct (replayable LM) eqn:HLM.
  - destruct (ParseLexedMethodDefs_item_Returned LM s HLM)
      as (s1 & tr1 & Hitem & Htl & _).
    rewrite Hitem in H. fold loop in H. apply IH in H. cbn in H.
    rewrite Htl, Hq in H. exact H.
  - destruct (ParseLexedMethodDefs_item_AssertionFailed LM s HLM)
      as [msg Hitem].
    rewrite Hitem in H. discriminate.
Qed.

End Replay.

(** *** The declarations pass *)

Lemma skipn_S_tl {A : Type} (I : nat) (l : list A) :
  skipn (S I) l = tl (skipn I l).
Proof.
  revert l. induction I as [|I IH]; intros [|x l]; try reflexivity.
  exact (IH l).
Qed.

Lemma skipn_S_update {A : Type} (I : nat) (l : list A) (x a : A) :
  nth_error l I = Some a ->
  skipn (S I) (firstn I l ++ x :: skipn (S I) l) = skipn (S I) l.
Proof.
  revert l. induction I as [|I IH]; intros [|y l] H; try discriminate.
  - reflexivity.
  - exact (IH l H).
Qed.

Lemma front_DefaultArgs_from_S (I : nat) (s : ParserState) :
  front_DefaultArgs_from (S I) s = tl (front_DefaultArgs_from I s).
Proof.
  unfold front_DefaultArgs_from.
  destruct (MethodDecls (CurTopClassStack s)); [reflexivity|].
  apply skipn_S_tl.
Qed.

(** Writing [LM.DefaultArgs[I].Toks] leaves everything else in place. *)
Lemma set_front_DefaultArg_Toks_frame (I : nat) (toks : option CachedTokens)
    (s : ParserState) :
  let s' := set_front_DefaultArg_Toks I toks s in
  cur s' = cur s
  /\ Trace s' = Trace s
  /\ MethodDefs (CurTopClassStack s') = MethodDefs (CurTopClassStack s)
  /\ tl (MethodDecls (CurTopClassStack s'))
     = tl (MethodDecls (CurTopClassStack s))
  /\ front_DefaultArgs_from (S I) s' = front_DefaultArgs_from (S I) s.
Proof.
  unfold set_front_DefaultArg_Toks, front_DefaultArgs_from.
  destruct (MethodDecls (CurTopClassStack s)) as [|LM q] eqn:Hq; cbn.
  - rewrite Hq. auto.
  - repeat split.
    destruct (nth_error (LateParsedMethodDeclaration.DefaultArgs LM) I) eqn:E.
    + now apply skipn_S_update with (a := t).
    + reflexivity.
Qed.

Section ReplayDeclarations.

Variable ParseAssignmentExpression : ParserState -> OwningExprResult * Cursor.

Let param := ParseLexedMethodDeclarations_param ParseAssignmentExpression.
Let params := ParseLexedMethodDeclarations_params ParseAssignmentExpression.
Let item := ParseLexedMethodDeclarations_item ParseAssignmentExpression.
Let loop := ParseLexedMethodDeclarations_loop ParseAssignmentExpression.

(** One parameter: the step returns whatever the expression parser
    answers. *)
Lemma ParseLexedMethodDeclarations_param_Returned (I : nat)
    (arg : LateParsedDefaultArgument.t) (s : ParserState) :
  starts_with_equal arg = true ->
  exists s' tr,
    param I arg s = Returned s'
    /\ Trace s' = Trace s ++ tr
    /\ param_events arg tr
    /\ MethodDefs (CurTopClassStack s') = MethodDefs (CurTopClassStack s)
    /\ tl (MethodDecls (CurTopClassStack s'))
       = tl (MethodDecls (CurTopClassStack s))
    /\ front_DefaultArgs_from (S I) s' = front_DefaultArgs_from (S I) s.
Proof.
  intros Heq. unfold param, ParseLexedMethodDeclarations_param.
  unfold starts_with_equal in Heq.
  destruct (LateParsedDefaultArgument.Toks arg) as [[|t rest]|] eqn:HToks;
    try discriminate.
  - set (s1 := set_front_DefaultArg_Toks I _ _).
    destruct (set_front_DefaultArg_Toks_frame I
                (Some (push_back (t :: rest)
                         (Tok (cur (log (EvActOnDelayedCXXMethodParameter
                                           (LateParsedDefaultArgument.Param
                                              arg)) s)))))
                (log (EvActOnDelayedCXXMethodParameter
                        (LateParsedDefaultArgument.Param arg)) s))
      as (Hc1 & Ht1 & Hd1 & Htl1 & Hf1).
    fold s1 in Hc1, Ht1, Hd1, Htl1, Hf1.
    unfold Tok_is. cbn [cur set_cur].
    destruct (ReplayTokens_cons t rest (cur s1)) as [HTok _].
    rewrite HTok, Heq. cbn [assert bind].
    set (s2 := set_cur (ConsumeToken _) _).
    set (res := ParseAssignmentExpression s2).
    destruct (isInvalid (fst res)) eqn:Hinv;
      match goal with
      | |- context [set_front_DefaultArg_Toks I None ?s3] =>
        destruct (set_front_DefaultArg_Toks_frame I None s3)
          as (Hc4 & Ht4 & Hd4 & Htl4 & Hf4)
      end;
      (eexists; eexists; split; [reflexivity|]);
      rewrite Ht4, Hd4, Htl4, Hf4;
      (split; [cbn; rewrite Ht1; cbn; rewrite <- !app_assoc; reflexivity|]);
      (split;
       [first [eapply param_events_error | eapply param_events_ok];
        exact HToks|]);
      cbn; rewrite Hd1, Htl1; rewrite !front_DefaultArgs_from_S in *;
      cbn in *; auto.
  - eexists. eexists. split; [reflexivity|].
    split; [reflexivity|].
    split; [now apply param_events_none|].
    cbn. auto.
Qed.

Lemma ParseLexedMethodDeclarations_param_AssertionFailed (I : nat)
    (arg : LateParsedDefaultArgument.t) (t : Token) (rest : CachedTokens)
    (s : ParserState) :
  LateParsedDefaultArgument.Toks arg = Some (t :: rest) ->
  Token_is t tok.equal = false ->
  param I arg s = AssertionFailed "Default argument not starting with '='".
Proof.
  intros HToks Heq. unfold param, ParseLexedMethodDeclarations_param.
  rewrite HToks. unfold Tok_is. cbn [cur set_cur].
  match goal with
  | |- context [ReplayTokens (t :: rest) ?c] =>
    destruct (ReplayTokens_cons t rest c) as [HTok _]
  end.
  rewrite HTok, Heq. reflexivity.
Qed.

(** The parameters from index [I] on, one after the other. *)
Lemma ParseLexedMethodDeclarations_params_Returned
    (todo : list LateParsedDefaultArgument.t) :
  forall I s,
    front_DefaultArgs_from I s = todo ->
    forallb starts_with_equal todo = true ->
    exists s' trs,
      params (List.length todo) I s = Returned s'
      /\ Trace s' = Trace s ++ concat trs
      /\ Forall2 param_events todo trs
      /\ MethodDefs (CurTopClassStack s') = MethodDefs (CurTopClassStack s)
      /\ tl (MethodDecls (CurTopClassStack s'))
         = tl (MethodDecls (CurTopClassStack s)).
Proof.
  induction todo as [|arg todo IH]; intros I s Hfront Hall.
  - exists s, []. cbn. rewrite app_nil_r. auto.
  - cbn in Hall. apply andb_prop in Hall as [Harg Hall].
    destruct (ParseLexedMethodDeclarations_param_Returned I arg s Harg)
      as (s1 & tr1 & Hparam & Htr1 & Hev1 & Hd1 & Htl1 & Hf1).
    destruct (IH (S I) s1) as (s' & trs & Hparams & Htr & Hev & Hd & Htl).
    { rewrite Hf1, front_DefaultArgs_from_S, Hfront. reflexivity. }
    { exact Hall. }
    exists s', (tr1 :: trs). unfold params. cbn.
    rewrite Hfront. fold param. rewrite Hparam. cbn [bind].
    fold params. rewrite Hparams.
    repeat split.
    + rewrite Htr, Htr1. now rewrite app_assoc.
    + now constructor.
    + congruence.
    + congruence.
Qed.

(** One queued declaration. *)
Lemma ParseLexedMethodDeclarations_item_Returned
    (LM : LateParsedMethodDeclaration.t)
    (q : list LateParsedMethodDeclaration.t) (s : ParserState) :
  MethodDecls (CurTopClassStack s) = LM :: q ->
  declaration_replayable LM = true ->
  exists s' tr,
    item LM s = Returned s'
    /\ Trace s' = Trace s ++ tr
    /\ declaration_events LM tr
    /\ MethodDefs (CurTopClassStack s') = MethodDefs (CurTopClassStack s)
    /\ tl (MethodDecls (CurTopClassStack s')) = q.
Proof.
  intros Hq HLM. unfold item, ParseLexedMethodDeclarations_item.
  set (s0 := log EvEnterScope (log _ s)).
  destruct (ParseLexedMethodDeclarations_params_Returned
              (LateParsedMethodDeclaration.DefaultArgs LM) 0 s0)
    as (s1 & trs & Hparams & Htr & Hev & Hd & Htl).
  { unfold front_DefaultArgs_from. cbn. now rewrite Hq. }
  { exact HLM. }
  fold params in Hparams |- *. rewrite Hparams. cbn [bind].
  eexists. eexists. split; [reflexivity|].
  split; [|split; [exists trs; split; [exact Hev | reflexivity]|]].
  - cbn. rewrite Htr. cbn. now rewrite <- !app_assoc.
  - cbn. rewrite Hd, Htl. cbn. rewrite Hq. auto.
Qed.

Lemma ParseLexedMethodDeclarations_item_bind
    (LM : LateParsedMethodDeclaration.t) (s : ParserState) (msg : string) :
  params (List.length (LateParsedMethodDeclaration.DefaultArgs LM)) 0
    (log EvEnterScope
       (log (EvActOnStartDelayedCXXMethodDeclaration
               (LateParsedMethodDeclaration.Method LM)) s))
  = AssertionFailed msg ->
  item LM s = AssertionFailed msg.
Proof.
  intros H. unfold item, ParseLexedMethodDeclarations_item.
  fold params. now rewrite H.
Qed.

(** The whole queue. *)
Lemma ParseLexedMethodDeclarations_loop_Returned
    (q : list LateParsedMethodDeclaration.t) :
  forall s fuel,
    MethodDecls (CurTopClassStack s) = q ->
    forallb declaration_replayable q = true ->
    List.length q <= fuel ->
    exists s' trs,
      loop fuel s = Some (Returned s')
      /\ MethodDecls (CurTopClassStack s') = []
      /\ MethodDefs (CurTopClassStack s') = MethodDefs (CurTopClassStack s)
      /\ Trace s' = Trace s ++ concat trs
      /\ Forall2 declaration_events q trs.
Proof.
  induction q as [|LM q IH]; intros s fuel Hq Hall Hfuel.
  - exists s, []. unfold loop.
    destruct fuel; cbn; rewrite Hq; repeat split;
      try (now rewrite app_nil_r); constructor.
  - destruct fuel as [|fuel]; [cbn in Hfuel; lia|].
    cbn in Hall. apply andb_prop in Hall as [HLM Hall].
    destruct (ParseLexedMethodDeclarations_item_Returned LM q s Hq HLM)
      as (s1 & tr1 & Hitem & Htr1 & Hev1 & Hd1 & Htl1).
    destruct (IH (set_MethodDecls (tl (MethodDecls (CurTopClassStack s1)))
                    s1) fuel)
      as (s' & trs & Hloop & Hempty & Hd & Htr & Hev).
    { cbn. exact Htl1. }
    { exact Hall. }
    { cbn in Hfuel. lia. }
    exists s', (tr1 :: trs). unfold loop. cbn. rewrite Hq.
    fold item. rewrite Hitem. fold loop. rewrite Hloop.
    repeat split.
    + exact Hempty.
    + rewrite Hd. cbn. exact Hd1.
    + rewrite Htr. cbn. rewrite Htr1. now rewrite app_assoc.
    + now constructor.
Qed.

End ReplayDeclarations.

(** A declaration's events start it once; its parameters' events start
    none. *)
Lemma declarations_started_param_events
    (args : list LateParsedDefaultArgument.t) (trs : list (list Event)) :
  Forall2 param_events args trs -> declarations_started (concat trs) = [].
Proof.
  induction 1 as [|a tr args trs Ha _ IH]; [reflexivity|].
  cbn [concat]. unfold declarations_started in *. rewrite collect_app, IH.
  destruct Ha; reflexivity.
Qed.

Lemma declarations_started_declaration_events
    (q : list LateParsedMethodDeclaration.t) (trs : list (list Event)) :
  Forall2 declaration_events q trs ->
  declarations_started (concat trs)
  = map LateParsedMethodDeclaration.Method q.
Proof.
  induction 1 as [|LM tr q trs HLM _ IH]; [reflexivity|].
  destruct HLM as (ptrs & Hp & ->).
  pose proof (declarations_started_param_events _ _ Hp) as Hnone.
  cbn [concat map]. unfold declarations_started in *.
  rewrite collect_app, IH. cbn [app].
  rewrite !collect_cons, collect_app, Hnone. reflexivity.
Qed.

(** ** The declarations pass, parameter by parameter *)

Lemma update_nth_facts {A : Type} (I : nat) :
  forall (l : list A) (a x : A),
    nth_error l I = Some a ->
    nth_error (firstn I l ++ x :: skipn (S I) l) I = Some x
    /\ firstn I (firstn I l ++ x :: skipn (S I) l) = firstn I l
    /\ skipn (S I) (firstn I l ++ x :: skipn (S I) l) = skipn (S I) l.
Proof.
  induction I as [|I IH]; intros [|y l] a x H; try discriminate.
  - repeat split.
  - destruct (IH l a x H) as (Hn & Hf & Hs).
    cbn [firstn app nth_error]. repeat split.
    + exact Hn.
    + f_equal. exact Hf.
    + exact Hs.
Qed.

Lemma ParserState_eta (s : ParserState) :
  mkState (cur s) (CurTopClassStack s) (TopClassStacks_below s) (Trace s) = s.
Proof. now destruct s. Qed.

(** Writing [LM.DefaultArgs[I].Toks] changes the frame only, and the frame
    it leaves depends on the frame only. *)
Lemma set_front_DefaultArg_Toks_eq (I : nat) (toks : option CachedTokens)
    (s : ParserState) :
  set_front_DefaultArg_Toks I toks s
  = mkState (cur s) (CurTopClassStack (set_front_DefaultArg_Toks I toks s))
      (TopClassStacks_below s) (Trace s).
Proof.
  unfold set_front_DefaultArg_Toks.
  destruct (MethodDecls (CurTopClassStack s)); [now destruct s | reflexivity].
Qed.

Lemma set_front_DefaultArg_Toks_congr (I : nat) (toks : option CachedTokens)
    (s s' : ParserState) :
  CurTopClassStack s' = CurTopClassStack s ->
  CurTopClassStack (set_front_DefaultArg_Toks I toks s')
  = CurTopClassStack (set_front_DefaultArg_Toks I toks s).
Proof.
  intros H. unfold set_front_DefaultArg_Toks, set_MethodDecls. rewrite H.
  destruct (MethodDecls (CurTopClassStack s)); [exact H | reflexivity].
Qed.

(** A second write to the same parameter undoes the first. *)
Lemma set_front_DefaultArg_Toks_twice (I : nat)
    (toks toks' : option CachedTokens) (s : ParserState) :
  CurTopClassStack
    (set_front_DefaultArg_Toks I toks' (set_front_DefaultArg_Toks I toks s))
  = CurTopClassStack (set_front_DefaultArg_Toks I toks' s).
Proof.
  unfold set_front_DefaultArg_Toks at 2 3.
  destruct (MethodDecls (CurTopClassStack s)) as [|LM q] eqn:Hq.
  - unfold set_front_DefaultArg_Toks. now rewrite Hq.
  - unfold set_front_DefaultArg_Toks, set_MethodDecls.
    cbn -[skipn firstn nth_error].
    destruct (nth_error (LateParsedMethodDeclaration.DefaultArgs LM) I)
      as [a|] eqn:Hn.
    + destruct (update_nth_facts I _ a
                  (LateParsedDefaultArgument.mk
                     (LateParsedDefaultArgument.Param a) toks) Hn)
        as (Hn' & Hf & Hs).
      rewrite Hn', Hf, Hs. reflexivity.
    + rewrite Hn. reflexivity.
Qed.

(** The cursor the expression parser is given: the equals sign consumed, it
    is in front of the rest of the stored tokens, the old lookahead and the
    old stream, with the counts a consume of the old lookahead leaves. *)
Lemma ConsumeToken_ReplayTokens (t : Token) (rest : CachedTokens)
    (c : Cursor) :
  ConsumeToken (ReplayTokens (t :: rest) c)
  = cursor_at (rest ++ Tok c :: PP c)
      (ParenCount (ConsumeAnyToken c)) (BracketCount (ConsumeAnyToken c))
      (BraceCount (ConsumeAnyToken c)).
Proof.
  assert (Hcounts : forall c' : Cursor,
             ParenCount (Lex c') = ParenCount c'
             /\ BracketCount (Lex c') = BracketCount c'
             /\ BraceCount (Lex c') = BraceCount c').
  { intros c'. unfold Lex. now destruct (PP c'). }
  unfold ReplayTokens, EnterTokenStream, push_back, ConsumeAnyToken,
    ConsumeToken, ConsumeStringToken, ConsumeParen, ConsumeBracket,
    ConsumeBrace.
  cbn [Tok PP ParenCount BracketCount BraceCount].
  cbn [app].
  replace ((rest ++ [Tok c]) ++ PP c) with (rest ++ Tok c :: PP c)
    by now rewrite <- app_assoc.
  destruct (getKind (Tok c));
    match goal with
    | |- Lex (Lex (mkCursor ?a (?x :: ?l) ?p ?b ?r)) = _ =>
      change (Lex (mkCursor a (x :: l) p b r)) with (mkCursor x l p b r);
      rewrite Lex_mkCursor
    end;
    match goal with
    | |- context [Lex ?c'] =>
      destruct (Hcounts c') as (-> & -> & ->)
    end; reflexivity.
Qed.

Section ParameterByParameter.

Variable ParseAssignmentExpression : ParserState -> OwningExprResult * Cursor.

(** The step for a parameter whose stored tokens start with an equals sign,
    spelled out. *)
Lemma ParseLexedMethodDeclarations_param_equal (I : nat)
    (arg : LateParsedDefaultArgument.t) (t : Token) (rest : CachedTokens)
    (s : ParserState) :
  LateParsedDefaultArgument.Toks arg = Some (t :: rest) ->
  Token_is t tok.equal = true ->
  ParseLexedMethodDeclarations_param ParseAssignmentExpression I arg s
  = Returned
      (mkState
         (snd (ParseAssignmentExpression
                 (default_argument_state I arg t rest s)))
         (CurTopClassStack (set_front_DefaultArg_Toks I None s))
         (TopClassStacks_below s)
         (Trace s
          ++ [EvActOnDelayedCXXMethodParameter
                (LateParsedDefaultArgument.Param arg);
              EvParseAssignmentExpression
                (isInvalid
                   (fst (ParseAssignmentExpression
                           (default_argument_state I arg t rest s))));
              if isInvalid
                   (fst (ParseAssignmentExpression
                           (default_argument_state I arg t rest s)))
              then EvActOnParamDefaultArgumentError
                     (LateParsedDefaultArgument.Param arg)
              else EvActOnParamDefaultArgument
                     (LateParsedDefaultArgument.Param arg) (getLocation t)
                     (release
                        (fst (ParseAssignmentExpression
                                (default_argument_state I arg t rest s))))])).
Proof.
  intros HToks Heq. unfold ParseLexedMethodDeclarations_param.
  rewrite HToks.
  set (P := LateParsedDefaultArgument.Param arg).
  set (s0 := log (EvActOnDelayedCXXMethodParameter P) s).
  rewrite (set_front_DefaultArg_Toks_eq I
             (Some (push_back (t :: rest) (Tok (cur s0)))) s0).
  unfold Tok_is, set_cur.
  cbn [cur CurTopClassStack TopClassStacks_below Trace].
  assert (Htop : CurTopClassStack
                   (set_front_DefaultArg_Toks I
                      (Some (push_back (t :: rest) (Tok (cur s0)))) s0)
                 = CurTopClassStack
                     (set_front_DefaultArg_Toks I
                        (Some (t :: rest ++ [Tok (cur s)])) s)).
  { apply set_front_DefaultArg_Toks_congr. reflexivity. }
  rewrite Htop.
  destruct (ReplayTokens_cons t rest (cur s0)) as [HTok _].
  rewrite HTok, Heq. cbn [assert bind].
  rewrite ConsumeToken_ReplayTokens.
  change (mkState
            (cursor_at (rest ++ Tok (cur s0) :: PP (cur s0))
               (ParenCount (ConsumeAnyToken (cur s0)))
               (BracketCount (ConsumeAnyToken (cur s0)))
               (BraceCount (ConsumeAnyToken (cur s0))))
            (CurTopClassStack
               (set_front_DefaultArg_Toks I
                  (Some (t :: rest ++ [Tok (cur s)])) s))
            (TopClassStacks_below s0) (Trace s0))
    with (default_argument_state I arg t rest s).
  set (res := ParseAssignmentExpression
                (default_argument_state I arg t rest s)).
  f_equal.
  match goal with
  | |- set_front_DefaultArg_Toks I None ?s5 = _ =>
    rewrite (set_front_DefaultArg_Toks_eq I None s5);
    assert (Htop5 : CurTopClassStack s5
                    = CurTopClassStack
                        (set_front_DefaultArg_Toks I
                           (Some (t :: rest ++ [Tok (cur s)])) s))
      by (destruct (isInvalid (fst res)); reflexivity);
    rewrite (set_front_DefaultArg_Toks_congr I None _ s5 Htop5)
  end.
  rewrite set_front_DefaultArg_Toks_twice.
  destruct (isInvalid (fst res)); cbn; now rewrite <- !app_assoc.
Qed.

Lemma ParseLexedMethodDeclarations_param_replayed (I : nat)
    (arg : LateParsedDefaultArgument.t) (s : ParserState) :
  starts_with_equal arg = true ->
  exists s',
    ParseLexedMethodDeclarations_param ParseAssignmentExpression I arg s
    = Returned s'
    /\ param_replayed ParseAssignmentExpression I arg s s'.
Proof.
  intros Heq. unfold starts_with_equal in Heq.
  destruct (LateParsedDefaultArgument.Toks arg) as [[|t rest]|] eqn:HToks;
    try discriminate.
  - rewrite (ParseLexedMethodDeclarations_param_equal I arg t rest s HToks Heq).
    eexists. split; [reflexivity|].
    destruct (isInvalid (fst (ParseAssignmentExpression
                                (default_argument_state I arg t rest s))))
      eqn:Hinv.
    + now apply param_replayed_invalid.
    + now apply param_replayed_valid.
  - unfold ParseLexedMethodDeclarations_param. rewrite HToks.
    eexists. split; [reflexivity|]. now apply param_replayed_plain.
Qed.

Lemma front_DefaultArgs_from_param_replayed (I : nat)
    (arg : LateParsedDefaultArgument.t) (s s' : ParserState) :
  param_replayed ParseAssignmentExpression I arg s s' ->
  front_DefaultArgs_from (S I) s' = front_DefaultArgs_from (S I) s
  /\ tl (MethodDecls (CurTopClassStack s'))
     = tl (MethodDecls (CurTopClassStack s)).
Proof.
  destruct (set_front_DefaultArg_Toks_frame I None s)
    as (_ & _ & _ & Htl & Hf).
  unfold front_DefaultArgs_from in *.
  intros H. destruct H; cbn [CurTopClassStack]; auto.
Qed.

Lemma ParseLexedMethodDeclarations_params_replayed
    (todo : list LateParsedDefaultArgument.t) :
  forall I s,
    front_DefaultArgs_from I s = todo ->
    forallb starts_with_equal todo = true ->
    exists s',
      ParseLexedMethodDeclarations_params ParseAssignmentExpression
        (List.length todo) I s = Returned s'
      /\ params_replayed ParseAssignmentExpression I todo s s'
      /\ tl (MethodDecls (CurTopClassStack s'))
         = tl (MethodDecls (CurTopClassStack s)).
Proof.
  induction todo as [|arg todo IH]; intros I s Hfront Hall.
  - exists s. repeat split. constructor.
  - cbn in Hall. apply andb_prop in Hall as [Harg Hall].
    destruct (ParseLexedMethodDeclarations_param_replayed I arg s Harg)
      as (s1 & Hparam & Hrep).
    destruct (front_DefaultArgs_from_param_replayed I arg s s1 Hrep)
      as [Hf1 Htl1].
    destruct (IH (S I) s1) as (s' & Hparams & Hreps & Htl).
    { rewrite Hf1, front_DefaultArgs_from_S, Hfront. reflexivity. }
    { exact Hall. }
    exists s'. cbn. rewrite Hfront, Hparam. cbn [bind]. rewrite Hparams.
    repeat split.
    + now apply params_replayed_cons with s1.
    + congruence.
Qed.

Lemma ParseLexedMethodDeclarations_loop_replayed
    (q : list LateParsedMethodDeclaration.t) :
  forall s fuel,
    MethodDecls (CurTopClassStack s) = q ->
    forallb declaration_replayable q = true ->
    List.length q <= fuel ->
    exists s',
      ParseLexedMethodDeclarations_loop ParseAssignmentExpression fuel s
      = Some (Returned s')
      /\ declarations_replayed ParseAssignmentExpression q s s'.
Proof.
  induction q as [|LM q IH]; intros s fuel Hq Hall Hfuel.
  - exists s. destruct fuel; cbn; rewrite Hq; split; try reflexivity;
      constructor.
  - destruct fuel as [|fuel]; [cbn in Hfuel; lia|].
    cbn in Hall. apply andb_prop in Hall as [HLM Hall].
    destruct (ParseLexedMethodDeclarations_params_replayed
                (LateParsedMethodDeclaration.DefaultArgs LM) 0
                (log EvEnterScope
                   (log (EvActOnStartDelayedCXXMethodDeclaration
                           (LateParsedMethodDeclaration.Method LM)) s)))
      as (s1 & Hparams & Hreps & Htl).
    { unfold front_DefaultArgs_from. cbn. now rewrite Hq. }
    { exact HLM. }
    cbn in Htl. rewrite Hq in Htl. cbn in Htl.
    destruct (IH (set_MethodDecls q
                    (log (EvActOnFinishDelayedCXXMethodDeclaration
                            (LateParsedMethodDeclaration.Method LM))
                       (log EvExitScope s1))) fuel)
      as (s' & Hloop & Hrep).
    { reflexivity. }
    { exact Hall. }
    { cbn in Hfuel. lia. }
    exists s'. split.
    + cbn. rewrite Hq. unfold ParseLexedMethodDeclarations_item.
      rewrite Hparams. cbn [bind].
      cbn [log CurTopClassStack MethodDecls]. rewrite Htl. exact Hloop.
    + apply declarations_replayed_cons
        with (log (EvActOnFinishDelayedCXXMethodDeclaration
                     (LateParsedMethodDeclaration.Method LM))
                (log EvExitScope s1)); [|exact Hrep].
      exists s1. split; [exact Hreps | reflexivity].
Qed.

End ParameterByParameter.

Lemma set_front_DefaultArg_Toks_nth (I : nat) (toks : option CachedTokens)
    (s : ParserState) (a : LateParsedDefaultArgument.t) :
  nth_error (front_DefaultArgs_from 0 s) I = Some a ->
  nth_error (front_DefaultArgs_from 0 (set_front_DefaultArg_Toks I toks s)) I
  = Some (LateParsedDefaultArgument.mk (LateParsedDefaultArgument.Param a)
            toks).
Proof.
  unfold front_DefaultArgs_from, set_front_DefaultArg_Toks.
  destruct (MethodDecls (CurTopClassStack s)) as [|LM q].
  - now destruct I.
  - cbn -[skipn firstn nth_error]. cbn [skipn]. intros Hn. rewrite Hn.
    now apply (update_nth_facts I _ a).
Qed.

(** The relations name one state: what is replayed is determined by the
    state it starts from and by the answers of the expression parser. *)
Lemma param_replayed_functional
    (PAE : ParserState -> OwningExprResult * Cursor) (I : nat)
    (arg : LateParsedDefaultArgument.t) (s s1 s2 : ParserState) :
  param_replayed PAE I arg s s1 -> param_replayed PAE I arg s s2 -> s1 = s2.
Proof.
  intros H1 H2.
  destruct H1 as [H1|t1 r1 H1 E1 V1|t1 r1 H1 E1 V1];
    destruct H2 as [H2|t2 r2 H2 E2 V2|t2 r2 H2 E2 V2];
    try congruence;
    rewrite H1 in H2; injection H2 as <- <-; congruence.
Qed.

Lemma params_replayed_functional
    (PAE : ParserState -> OwningExprResult * Cursor) (I : nat)
    (todo : list LateParsedDefaultArgument.t) (s s1 : ParserState) :
  params_replayed PAE I todo s s1 ->
  forall s2, params_replayed PAE I todo s s2 -> s1 = s2.
Proof.
  induction 1 as [I s|I arg todo s sa s1 Hp Hps IH]; intros s2 H2;
    inversion H2; subst.
  - reflexivity.
  - match goal with
    | Hq : param_replayed PAE I arg s ?sb |- _ =>
      rewrite <- (param_replayed_functional PAE I arg s sa sb Hp Hq) in *
    end.
    now apply IH.
Qed.

Lemma declaration_replayed_functional
    (PAE : ParserState -> OwningExprResult * Cursor)
    (LM : LateParsedMethodDeclaration.t) (s s1 s2 : ParserState) :
  declaration_replayed PAE LM s s1 -> declaration_replayed PAE LM s s2 ->
  s1 = s2.
Proof.
  intros (sa & Ha & ->) (sb & Hb & ->).
  now rewrite (params_replayed_functional PAE 0 _ _ sa Ha sb Hb).
Qed.

Lemma declarations_replayed_functional
    (PAE : ParserState -> OwningExprResult * Cursor)
    (q : list LateParsedMethodDeclaration.t) (s s1 : ParserState) :
  declarations_replayed PAE q s s1 ->
  forall s2, declarations_replayed PAE q s s2 -> s1 = s2.
Proof.
  induction 1 as [s|LM q s sa s1 Hd Hds IH]; intros s2 H2;
    inversion H2; subst.
  - reflexivity.
  - match goal with
    | Hq : declaration_replayed PAE LM s ?sb |- _ =>
      rewrite <- (declaration_replayed_functional PAE LM s sa sb Hd Hq) in *
    end.
    now apply IH.
Qed.

(** ** Claims on the capture and the replay of class members *)

(** C2: the bodies pass returns with the queue of bodies empty, and the
    statement parser was called on the declarations of the queued bodies in the
    order of the queue, front first; the declarations pass returns with the
    queue of declarations empty, and the delayed declarations were started in
    the order of the queue.  Each loop takes the front of the queue and pops
    it; a queued item has to be one the pass can replay, or an assertion
    stops the pass.  The order of the queue of bodies is the order of
    capture: [ParseCXXInlineMethodDef] leaves the queue as it was or with the
    new body at its back. *)
Theorem replay_in_queue_order :
  forall (ActOnCXXMemberDeclarator :
            ParserState -> AccessSpecifier -> Declarator -> DeclTy)
         (ParseAssignmentExpression : ParserState -> OwningExprResult * Cursor)
         (ParseConstructorInitializer : ParserState -> DeclTy -> Cursor)
         (ParseFunctionStatementBody :
            ParserState -> DeclTy -> SourceLocation -> SourceLocation -> Cursor)
         (s : ParserState),
    (forallb replayable (MethodDefs (CurTopClassStack s)) = true ->
     exists s' tr,
       ParseLexedMethodDefs ParseConstructorInitializer
         ParseFunctionStatementBody s = Some (Returned s')
       /\ MethodDefs (CurTopClassStack s') = []
       /\ Trace s' = Trace s ++ tr
       /\ bodies_parsed tr
          = map LexedMethod.D (MethodDefs (CurTopClassStack s)))
    /\ (forallb declaration_replayable (MethodDecls (CurTopClassStack s))
        = true ->
        exists s' tr,
          ParseLexedMethodDeclarations ParseAssignmentExpression s
          = Some (Returned s')
          /\ MethodDecls (CurTopClassStack s') = []
          /\ Trace s' = Trace s ++ tr
          /\ declarations_started tr
             = map LateParsedMethodDeclaration.Method
                 (MethodDecls (CurTopClassStack s)))
    /\ (forall AS D,
           isFunctionDeclarator D = true ->
           Tok_is s tok.l_brace || Tok_is s tok.colon = true ->
           exists s',
             ParseCXXInlineMethodDef ActOnCXXMemberDeclarator AS D s
             = Returned (ActOnCXXMemberDeclarator s AS D, s')
             /\ (MethodDefs (CurTopClassStack s')
                 = MethodDefs (CurTopClassStack s)
                 \/ exists w,
                      MethodDefs (CurTopClassStack s')
                      = push_back (MethodDefs (CurTopClassStack s))
                          (LexedMethod.mk (ActOnCXXMemberDeclarator s AS D)
                             (Tok (cur s) :: w)))).
Proof.
  intros ActOn PAE PCI PFSB s. split; [|split].
  - intros Hall.
    destruct (ParseLexedMethodDefs_loop_Returned PCI PFSB
                (MethodDefs (CurTopClassStack s)) s
                (List.length (MethodDefs (CurTopClassStack s)))
                eq_refl Hall (le_n _))
      as (s' & tr & Hloop & Hempty & _ & Htr & Hb).
    exists s', tr. auto.
  - intros Hall.
    destruct (ParseLexedMethodDeclarations_loop_Returned PAE
                (MethodDecls (CurTopClassStack s)) s
                (List.length (MethodDecls (CurTopClassStack s)))
                eq_refl Hall (le_n _))
      as (s' & trs & Hloop & Hempty & _ & Htr & Hev).
    exists s', (concat trs). repeat split; try assumption.
    now apply declarations_started_declaration_events.
  - intros AS D. apply ParseCXXInlineMethodDef_queue.
Qed.

(** C7: a default argument the expression parser finds invalid is reported
    to Sema as an error for its own parameter, and the pass goes on.  For one
    parameter: if its stored tokens start with an equals sign and
    [ParseAssignmentExpression], called in the state the pass hands it,
    answers with an invalid expression, the step returns, having logged the
    introduction of the parameter, the call of the parser and
    [ActOnParamDefaultArgumentError] for that parameter and nothing else,
    with the cursor where the parser stopped and the stored tokens cleared.
    For the pass: whatever the expression parser answers, the pass goes
    through the whole queue and returns with it empty and the bodies
    untouched; the state it returns is the one state [declarations_replayed]
    names, that is every declaration in the order of the queue, every
    parameter of it in turn, each replayed from the state the one before it
    left, with the error report exactly for the parameters whose expression
    the parser found invalid. *)
Theorem ParseLexedMethodDeclarations_drains :
  forall (ParseAssignmentExpression : ParserState -> OwningExprResult * Cursor),
    (forall (I : nat) (arg : LateParsedDefaultArgument.t) (t : Token)
            (rest : CachedTokens) (s : ParserState),
        LateParsedDefaultArgument.Toks arg = Some (t :: rest) ->
        Token_is t tok.equal = true ->
        isInvalid
          (fst (ParseAssignmentExpression
                  (default_argument_state I arg t rest s))) = true ->
        ParseLexedMethodDeclarations_param ParseAssignmentExpression I arg s
        = Returned
            (mkState
               (snd (ParseAssignmentExpression
                       (default_argument_state I arg t rest s)))
               (CurTopClassStack (set_front_DefaultArg_Toks I None s))
               (TopClassStacks_below s)
               (Trace s
                ++ [EvActOnDelayedCXXMethodParameter
                      (LateParsedDefaultArgument.Param arg);
                    EvParseAssignmentExpression true;
                    EvActOnParamDefaultArgumentError
                      (LateParsedDefaultArgument.Param arg)])))
    /\ (forall s : ParserState,
           forallb declaration_replayable (MethodDecls (CurTopClassStack s))
           = true ->
           exists s' trs,
             ParseLexedMethodDeclarations ParseAssignmentExpression s
             = Some (Returned s')
             /\ MethodDecls (CurTopClassStack s') = []
             /\ MethodDefs (CurTopClassStack s')
                = MethodDefs (CurTopClassStack s)
             /\ Trace s' = Trace s ++ concat trs
             /\ Forall2 declaration_events (MethodDecls (CurTopClassStack s))
                  trs
             /\ declarations_replayed ParseAssignmentExpression
                  (MethodDecls (CurTopClassStack s)) s s'
             /\ (forall s'',
                    declarations_replayed ParseAssignmentExpression
                      (MethodDecls (CurTopClassStack s)) s s'' ->
                    s'' = s')).
Proof.
  intros PAE. split.
  - intros I arg t rest s HToks Heq Hinv.
    rewrite (ParseLexedMethodDeclarations_param_equal PAE I arg t rest s
               HToks Heq).
    rewrite Hinv. reflexivity.
  - intros s Hall.
    destruct (ParseLexedMethodDeclarations_loop_Returned PAE
                (MethodDecls (CurTopClassStack s)) s
                (List.length (MethodDecls (CurTopClassStack s)))
                eq_refl Hall (le_n _))
      as (s' & trs & Hloop & Hempty & Hdefs & Htr & Hev).
    destruct (ParseLexedMethodDeclarations_loop_replayed PAE
                (MethodDecls (CurTopClassStack s)) s
                (List.length (MethodDecls (CurTopClassStack s)))
                eq_refl Hall (le_n _))
      as (s2 & Hloop2 & Hrep).
    assert (Hs : s2 = s') by congruence. subst s2.
    exists s', trs. repeat split; try assumption.
    intros s'' Hrep'. symmetry.
    exact (declarations_replayed_functional PAE _ s s' Hrep s'' Hrep').
Qed.

(** C8: for a parameter with stored tokens [t :: rest], the cursor
    substitution appends the lookahead to the stored tokens, enters them as the
    token source and consumes the lookahead: the first stored token [t] is the
    new lookahead, and behind the stored tokens the old lookahead comes back.
    The state [default_argument_state], in which the pass calls the
    expression parser, is the one these steps and the consume of [t] leave:
    the parameter introduced, the lookahead appended to the tokens stored for
    the parameter, these entered, the lookahead and [t] consumed, so that the
    parser reads [rest], the old lookahead and the old stream.  If [t] is an
    equals sign the assertion holds and the step returns the state spelled
    out: the cursor where the parser, called in that state, stopped, the
    stored tokens cleared, and in the trace the introduction of the
    parameter, the call of the parser and the report to Sema, which for a
    valid expression carries the location of [t] as the location of the
    equals sign.  If [t] is anything else the assertion stops the pass. *)
Theorem ParseLexedMethodDeclarations_equal_first :
  forall (ParseAssignmentExpression : ParserState -> OwningExprResult * Cursor)
         (I : nat) (arg : LateParsedDefaultArgument.t)
         (t : Token) (rest : CachedTokens) (s : ParserState),
    LateParsedDefaultArgument.Toks arg = Some (t :: rest) ->
    Tok (ReplayTokens (t :: rest) (cur s)) = t
    /\ PP (ReplayTokens (t :: rest) (cur s)) = rest ++ Tok (cur s) :: PP (cur s)
    /\ Tok (ConsumeToken (ReplayTokens (t :: rest) (cur s)))
       :: PP (ConsumeToken (ReplayTokens (t :: rest) (cur s)))
       = rest ++ Tok (cur s) :: PP (cur s)
    /\ default_argument_state I arg t rest s
       = mkState
           (ConsumeToken
              (ConsumeAnyToken
                 (EnterTokenStream (push_back (t :: rest) (Tok (cur s)))
                    (cur s))))
           (CurTopClassStack
              (set_front_DefaultArg_Toks I
                 (Some (push_back (t :: rest) (Tok (cur s)))) s))
           (TopClassStacks_below s)
           (Trace s
            ++ [EvActOnDelayedCXXMethodParameter
                  (LateParsedDefaultArgument.Param arg)])
    /\ (nth_error (front_DefaultArgs_from 0 s) I = Some arg ->
        nth_error
          (front_DefaultArgs_from 0 (default_argument_state I arg t rest s)) I
        = Some (LateParsedDefaultArgument.mk
                  (LateParsedDefaultArgument.Param arg)
                  (Some (t :: rest ++ [Tok (cur s)]))))
    /\ (Token_is t tok.equal = true ->
        ParseLexedMethodDeclarations_param ParseAssignmentExpression I arg s
        = Returned
            (mkState
               (snd (ParseAssignmentExpression
                       (default_argument_state I arg t rest s)))
               (CurTopClassStack (set_front_DefaultArg_Toks I None s))
               (TopClassStacks_below s)
               (Trace s
                ++ [EvActOnDelayedCXXMethodParameter
                      (LateParsedDefaultArgument.Param arg);
                    EvParseAssignmentExpression
                      (isInvalid
                         (fst (ParseAssignmentExpression
                                 (default_argument_state I arg t rest s))));
                    if isInvalid
                         (fst (ParseAssignmentExpression
                                 (default_argument_state I arg t rest s)))
                    then EvActOnParamDefaultArgumentError
                           (LateParsedDefaultArgument.Param arg)
                    else EvActOnParamDefaultArgument
                           (LateParsedDefaultArgument.Param arg)
                           (getLocation t)
                           (release
                              (fst (ParseAssignmentExpression
                                      (default_argument_state I arg t rest
                                         s))))])))
    /\ (Token_is t tok.equal = false ->
        ParseLexedMethodDeclarations_param ParseAssignmentExpression I arg s
        = AssertionFailed "Default argument not starting with '='").
Proof.
  intros PAE I arg t rest s HToks.
  destruct (ReplayTokens_cons t rest (cur s)) as [HTok HPP].
  split; [exact HTok|]. split; [exact HPP|].
  split; [|split; [|split; [|split]]].
  - unfold ConsumeToken, Lex. rewrite HPP.
    destruct rest; reflexivity.
  - unfold default_argument_state.
    rewrite <- (ConsumeToken_ReplayTokens t rest (cur s)). reflexivity.
  - intros Hn.
    exact (set_front_DefaultArg_Toks_nth I
             (Some (t :: rest ++ [Tok (cur s)])) s arg Hn).
  - intros Heq.
    exact (ParseLexedMethodDeclarations_param_equal PAE I arg t rest s
             HToks Heq).
  - intros Heq.
    now apply ParseLexedMethodDeclarations_param_AssertionFailed with t rest.
Qed.

(** C9: entered as its assertions ask (on a function declarator, with an
    opening brace or a colon as the lookahead), [ParseCXXInlineMethodDef]
    returns, and if every body in the queue was non-empty and started with an
    opening brace or a colon, so does every body in the queue it leaves; the
    bodies pass then runs through that queue with no assertion failing.  That
    condition on the queue is exactly what the assertions of
    [ParseLexedMethodDefs] ask: the pass returns if and only if it holds. *)
Theorem ParseCXXInlineMethodDef_replayable :
  forall (ActOnCXXMemberDeclarator :
            ParserState -> AccessSpecifier -> Declarator -> DeclTy)
         (ParseConstructorInitializer : ParserState -> DeclTy -> Cursor)
         (ParseFunctionStatementBody :
            ParserState -> DeclTy -> SourceLocation -> SourceLocation -> Cursor)
         (AS : AccessSpecifier) (D : Declarator) (s : ParserState),
    isFunctionDeclarator D = true ->
    Tok_is s tok.l_brace || Tok_is s tok.colon = true ->
    forallb replayable (MethodDefs (CurTopClassStack s)) = true ->
    (exists s',
        ParseCXXInlineMethodDef ActOnCXXMemberDeclarator AS D s
        = Returned (ActOnCXXMemberDeclarator s AS D, s')
        /\ forallb replayable (MethodDefs (CurTopClassStack s')) = true
        /\ exists s'',
             ParseLexedMethodDefs ParseConstructorInitializer
               ParseFunctionStatementBody s' = Some (Returned s''))
    /\ (forall s0,
           forallb replayable (MethodDefs (CurTopClassStack s0)) = true
           <-> exists s'',
                 ParseLexedMethodDefs ParseConstructorInitializer
                   ParseFunctionStatementBody s0 = Some (Returned s'')).
Proof.
  intros ActOn PCI PFSB AS D s HD HTok Hall.
  assert (Hiff : forall s0,
             forallb replayable (MethodDefs (CurTopClassStack s0)) = true
             <-> exists s'',
                   ParseLexedMethodDefs PCI PFSB s0 = Some (Returned s'')).
  { intros s0. split.
    - intros H0.
      destruct (ParseLexedMethodDefs_loop_Returned PCI PFSB
                  (MethodDefs (CurTopClassStack s0)) s0
                  (List.length (MethodDefs (CurTopClassStack s0)))
                  eq_refl H0 (le_n _)) as (s'' & _ & Hloop & _).
      exists s''. exact Hloop.
    - intros [s'' H0].
      exact (ParseLexedMethodDefs_loop_Returned_inv PCI PFSB _ _ _ H0). }
  split; [|exact Hiff].
  destruct (ParseCXXInlineMethodDef_queue ActOn AS D s HD HTok)
    as (s' & Hret & Hq).
  assert (Hall' : forallb replayable (MethodDefs (CurTopClassStack s')) = true).
  { destruct Hq as [Hq|[w Hq]]; rewrite Hq; [exact Hall|].
    rewrite forallb_replayable_push_back, Hall. exact HTok. }
  exists s'. split; [exact Hret|]. split; [exact Hall'|].
  now apply Hiff.
Qed.

(** ** The claims on samples *)

Lemma replay_in_queue_order_witness :
  (exists s' tr,
      ParseLexedMethodDefs sample_ParseConstructorInitializer
        sample_ParseFunctionStatementBody class_scanned = Some (Returned s')
      /\ MethodDefs (CurTopClassStack s') = []
      /\ Trace s' = Trace class_scanned ++ tr
      /\ bodies_parsed tr = [1; 2])
  /\ (exists s' tr,
         ParseLexedMethodDeclarations sample_ParseAssignmentExpression
           class_scanned = Some (Returned s')
         /\ MethodDecls (CurTopClassStack s') = []
         /\ Trace s' = Trace class_scanned ++ tr
         /\ declarations_started tr = [1; 2])
  /\ (exists s',
         ParseCXXInlineMethodDef sample_ActOnCXXMemberDeclarator AS_public
           sample_Declarator body_ahead = Returned (8, s')
         /\ (MethodDefs (CurTopClassStack s')
             = MethodDefs (CurTopClassStack body_ahead)
             \/ exists w,
                  MethodDefs (CurTopClassStack s')
                  = push_back (MethodDefs (CurTopClassStack body_ahead))
                      (LexedMethod.mk 8 (tk tok.l_brace 10 :: w)))).
Proof.
  destruct (replay_in_queue_order sample_ActOnCXXMemberDeclarator
              sample_ParseAssignmentExpression
              sample_ParseConstructorInitializer
              sample_ParseFunctionStatementBody class_scanned)
    as (Hdefs & Hdecls & _).
  destruct (replay_in_queue_order sample_ActOnCXXMemberDeclarator
              sample_ParseAssignmentExpression
              sample_ParseConstructorInitializer
              sample_ParseFunctionStatementBody body_ahead)
    as (_ & _ & Hcapture).
  split; [|split].
  - apply Hdefs. reflexivity.
  - apply Hdecls. reflexivity.
  - apply (Hcapture AS_public sample_Declarator); reflexivity.
Defined.

Lemma ParseCXXInlineMethodDef_semicolon_witness :
  ParseCXXInlineMethodDef sample_ActOnCXXMemberDeclarator AS_public
    sample_Declarator semicolon_after_initializer
  = Returned
      (8,
       mkState (cursor_at [tk (tok.other 2) 16] 0 0 1) sample_TopClass []
         [EvActOnCXXMemberDeclarator AS_public sample_Declarator 8;
          EvDiag 15 diag.err_expected_lbrace]).
Proof.
  exact (ParseCXXInlineMethodDef_semicolon sample_ActOnCXXMemberDeclarator
           AS_public sample_Declarator semicolon_after_initializer
           (mkScan false
              [tk tok.colon 10; tk (tok.other 0) 11; tk tok.l_paren 12;
               tk (tok.other 1) 13; tk tok.r_paren 14]
              (cursor_at [tk tok.semi 15; tk (tok.other 2) 16] 0 0 1))
           eq_refl eq_refl eq_refl eq_refl eq_refl).
Defined.

Lemma ParseLexedMethodDeclarations_drains_witness :
  ParseLexedMethodDeclarations_param sample_ParseAssignmentExpression 2
    sample_bad_argument class_scanned
  = Returned
      (mkState (cursor_at [tk tok.semi 23; tk tok.semi 90] 0 0 0)
         (CurTopClassStack (set_front_DefaultArg_Toks 2 None class_scanned))
         []
         [EvActOnDelayedCXXMethodParameter 12;
          EvParseAssignmentExpression true;
          EvActOnParamDefaultArgumentError 12])
  /\ exists s' trs,
       ParseLexedMethodDeclarations sample_ParseAssignmentExpression
         class_scanned
       = Some (Returned s')
       /\ MethodDecls (CurTopClassStack s') = []
       /\ MethodDefs (CurTopClassStack s')
          = MethodDefs (CurTopClassStack class_scanned)
       /\ Trace s' = Trace class_scanned ++ concat trs
       /\ Forall2 declaration_events
            (MethodDecls (CurTopClassStack class_scanned)) trs
       /\ declarations_replayed sample_ParseAssignmentExpression
            (MethodDecls (CurTopClassStack class_scanned)) class_scanned s'
       /\ (forall s'',
              declarations_replayed sample_ParseAssignmentExpression
                (MethodDecls (CurTopClassStack class_scanned)) class_scanned
                s'' ->
              s'' = s').
Proof.
  destruct (ParseLexedMethodDeclarations_drains
              sample_ParseAssignmentExpression) as [Hparam Hpass].
  split.
  - exact (Hparam 2 sample_bad_argument (tk tok.equal 22) [tk tok.semi 23]
             class_scanned eq_refl eq_refl eq_refl).
  - apply (Hpass class_scanned). reflexivity.
Defined.

(** The run behind the witness: the third parameter of the first declaration
    is reported as an error, the parameter after it and the declaration after
    that are processed all the same. *)
Example ParseLexedMethodDeclarations_sample_trace :
  match ParseLexedMethodDeclarations sample_ParseAssignmentExpression
          class_scanned with
  | Some (Returned s') => Trace s'
  | _ => []
  end
  = [EvActOnStartDelayedCXXMethodDeclaration 1; EvEnterScope;
     EvActOnDelayedCXXMethodParameter 10;
     EvActOnDelayedCXXMethodParameter 11;
     EvParseAssignmentExpression false;
     EvActOnParamDefaultArgument 11 20 5;
     EvActOnDelayedCXXMethodParameter 12;
     EvParseAssignmentExpression true;
     EvActOnParamDefaultArgumentError 12;
     EvActOnDelayedCXXMethodParameter 13;
     EvParseAssignmentExpression false;
     EvActOnParamDefaultArgument 13 24 6;
     EvExitScope; EvActOnFinishDelayedCXXMethodDeclaration 1;
     EvActOnStartDelayedCXXMethodDeclaration 2; EvEnterScope;
     EvActOnDelayedCXXMethodParameter 20;
     EvParseAssignmentExpression false;
     EvActOnParamDefaultArgument 20 30 7;
     EvExitScope; EvActOnFinishDelayedCXXMethodDeclaration 2].
Proof. reflexivity. Qed.

Example ParseLexedMethodDefs_sample_trace :
  match ParseLexedMethodDefs sample_ParseConstructorInitializer
          sample_ParseFunctionStatementBody class_scanned with
  | Some (Returned s') => Trace s'
  | _ => []
  end
  = [EvEnterScope; EvActOnStartOfFunctionDef 1;
     EvParseFunctionStatementBody 1 40 40; EvExitScope;
     EvEnterScope; EvActOnStartOfFunctionDef 2;
     EvParseConstructorInitializer 2;
     EvParseFunctionStatementBody 2 54 54; EvExitScope].
Proof. reflexivity. Qed.

Lemma ParseLexedMethodDeclarations_equal_first_witness :
  Tok (ReplayTokens [tk tok.equal 20; tk (tok.other 5) 21] (cur class_scanned))
  = tk tok.equal 20
  /\ PP (ReplayTokens [tk tok.equal 20; tk (tok.other 5) 21]
           (cur class_scanned))
     = [tk (tok.other 5) 21] ++ tk tok.semi 90 :: []
  /\ Tok (ConsumeToken (ReplayTokens [tk tok.equal 20; tk (tok.other 5) 21]
                          (cur class_scanned)))
     :: PP (ConsumeToken (ReplayTokens [tk tok.equal 20; tk (tok.other 5) 21]
                            (cur class_scanned)))
     = [tk (tok.other 5) 21] ++ tk tok.semi 90 :: []
  /\ nth_error
       (front_DefaultArgs_from 0
          (default_argument_state 1 sample_good_argument (tk tok.equal 20)
             [tk (tok.other 5) 21] class_scanned)) 1
     = Some (LateParsedDefaultArgument.mk 11
               (Some [tk tok.equal 20; tk (tok.other 5) 21; tk tok.semi 90]))
  /\ ParseLexedMethodDeclarations_param sample_ParseAssignmentExpression 1
       sample_good_argument class_scanned
     = Returned
         (mkState (cursor_at [tk tok.semi 90] 0 0 0)
            (CurTopClassStack (set_front_DefaultArg_Toks 1 None class_scanned))
            []
            [EvActOnDelayedCXXMethodParameter 11;
             EvParseAssignmentExpression false;
             EvActOnParamDefaultArgument 11 20 5]).
Proof.
  destruct (ParseLexedMethodDeclarations_equal_first
              sample_ParseAssignmentExpression 1 sample_good_argument
              (tk tok.equal 20) [tk (tok.other 5) 21] class_scanned eq_refl)
    as (HTok & HPP & Hread & _ & Hframe & Hok & _).
  split; [exact HTok|]. split; [exact HPP|]. split; [exact Hread|]. split.
  - exact (Hframe eq_refl).
  - exact (Hok eq_refl).
Defined.

Lemma ParseCXXInlineMethodDef_replayable_witness :
  (exists s',
      ParseCXXInlineMethodDef sample_ActOnCXXMemberDeclarator AS_public
        sample_Declarator body_ahead
      = Returned (8, s')
      /\ forallb replayable (MethodDefs (CurTopClassStack s')) = true
      /\ exists s'',
           ParseLexedMethodDefs sample_ParseConstructorInitializer
             sample_ParseFunctionStatementBody s' = Some (Returned s''))
  /\ (forall s0,
         forallb replayable (MethodDefs (CurTopClassStack s0)) = true
         <-> exists s'',
               ParseLexedMethodDefs sample_ParseConstructorInitializer
                 sample_ParseFunctionStatementBody s0 = Some (Returned s'')).
Proof.
  exact (ParseCXXInlineMethodDef_replayable sample_ActOnCXXMemberDeclarator
           sample_ParseConstructorInitializer sample_ParseFunctionStatementBody
           AS_public sample_Declarator body_ahead eq_refl eq_refl eq_refl).
Defined.

(** The run behind the witness: the new body is queued behind the old one,
    from its opening brace to its closing brace. *)
Example ParseCXXInlineMethodDef_sample_queue :
  match ParseCXXInlineMethodDef sample_ActOnCXXMemberDeclarator AS_public
          sample_Declarator body_ahead with
  | Returned (_, s') => (MethodDefs (CurTopClassStack s'), cur s')
  | AssertionFailed _ => ([], cur body_ahead)
  end
  = ([LexedMethod.mk 7 [tk tok.l_brace 1; tk tok.r_brace 2];
      LexedMethod.mk 8 [tk tok.l_brace 10; tk (tok.other 0) 11;
                        tk tok.r_brace 12]],
     mkCursor (tk tok.semi 13) [] 0 0 1).
Proof. reflexivity. Qed.

(** ** Further properties of [ConsumeAndStoreUntil] *)

Lemma nth_app_split {A : Type} (w l : list A) (d : A) (n : nat) :
  nth n (w ++ l) d
  = if Nat.ltb n (List.length w) then nth n w d
    else nth (n - List.length w) l d.
Proof.
  destruct (Nat.ltb_spec n (List.length w)).
  - now apply app_nth1.
  - now apply app_nth2.
Qed.

Lemma feeds_refl (c : Cursor) : feeds c [] c.
Proof. intros n. reflexivity. Qed.

Lemma feeds_trans (c c1 c2 : Cursor) (w1 w2 : list Token) :
  feeds c w1 c1 -> feeds c1 w2 c2 -> feeds c (w1 ++ w2) c2.
Proof.
  intros H1 H2 n. rewrite (H1 n), <- app_assoc, !nth_app_split.
  destruct (Nat.ltb n (List.length w1)); [reflexivity|].
  specialize (H2 (n - List.length w1)). unfold lexed in H2.
  rewrite H2, nth_app_split. reflexivity.
Qed.

Lemma feeds_Lex (c : Cursor) : feeds c [Tok c] (Lex c).
Proof.
  intros n. unfold lexed, Lex. destruct (PP c) as [|t rest]; cbn.
  - destruct n as [|[|n]]; [reflexivity | reflexivity | now destruct n].
  - reflexivity.
Qed.

Lemma feeds_same_stream (c c1 c2 : Cursor) (w : list Token) :
  Tok c1 = Tok c2 -> PP c1 = PP c2 -> feeds c w c1 -> feeds c w c2.
Proof. intros HT HP H n. rewrite (H n), HT, HP. reflexivity. Qed.

(** Every consume hands on the stream one token further. *)
Lemma feeds_Consume (c : Cursor) :
  feeds c [Tok c] (ConsumeToken c)
  /\ feeds c [Tok c] (ConsumeStringToken c)
  /\ feeds c [Tok c] (ConsumeParen c)
  /\ feeds c [Tok c] (ConsumeBracket c)
  /\ feeds c [Tok c] (ConsumeBrace c)
  /\ feeds c [Tok c] (ConsumeAnyToken c).
Proof.
  assert (H : forall c', Tok c' = Tok (Lex c) -> PP c' = PP (Lex c) ->
                         feeds c [Tok c] c').
  { intros c' HT HP. apply feeds_same_stream with (Lex c); auto.
    apply feeds_Lex. }
  repeat split; apply H;
    unfold ConsumeAnyToken, ConsumeToken, ConsumeStringToken, ConsumeParen,
      ConsumeBracket, ConsumeBrace, Lex; cbn;
    try (destruct (getKind (Tok c)); cbn);
    destruct (PP c); reflexivity.
Qed.

Lemma ConsumeAndStoreUntil_loop_feeds (n : nat) :
  forall T1 T2 Toks EA CFT first c r,
    ConsumeAndStoreUntil_loop n T1 T2 Toks EA CFT first c = Some r ->
    exists w, stored r = Toks ++ w /\ feeds c w (cursor r).
Proof.
  induction n as [|n IH]; intros T1 T2 Toks EA CFT first c r H;
    [discriminate|].
  change (ConsumeAndStoreUntil_iteration (ConsumeAndStoreUntil_loop n)
            T1 T2 Toks EA CFT first c = Some r) in H.
  unfold ConsumeAndStoreUntil_iteration in H.
  destruct (feeds_Consume c) as (FT & FS & FP & FK & FB & FA).
  assert (Hnow : forall b, Some (mkScan b Toks c) = Some r ->
                           exists w, stored r = Toks ++ w
                                     /\ feeds c w (cursor r)).
  { intros b E. injection E as <-. exists []. cbn.
    rewrite app_nil_r. split; [reflexivity | apply feeds_refl]. }
  assert (Hnext : forall c',
             feeds c [Tok c] c' ->
             ConsumeAndStoreUntil_loop n T1 T2 (push_back Toks (Tok c)) EA CFT
               false c' = Some r ->
             exists w, stored r = Toks ++ w /\ feeds c w (cursor r)).
  { intros c' F E. apply IH in E as (w & E & Fw). exists ([Tok c] ++ w).
    split.
    - rewrite E. unfold push_back. now rewrite <- app_assoc.
    - now apply feeds_trans with c'. }
  assert (Hnested : forall T c',
             feeds c [Tok c] c' ->
             match ConsumeAndStoreUntil_loop n T tok.unknown
                     (push_back Toks (Tok c)) tok.unknown true true c' with
             | None => None
             | Some r1 =>
               ConsumeAndStoreUntil_loop n T1 T2 (stored r1) EA CFT false
                 (cursor r1)
             end = Some r ->
             exists w, stored r = Toks ++ w /\ feeds c w (cursor r)).
  { intros T c' F E.
    destruct (ConsumeAndStoreUntil_loop n T tok.unknown
                (push_back Toks (Tok c)) tok.unknown true true c')
      as [r1|] eqn:E1; [|discriminate].
    apply IH in E1 as (w1 & E1 & F1). apply IH in E as (w & E & Fw).
    exists (([Tok c] ++ w1) ++ w). split.
    - rewrite E, E1. unfold push_back. now rewrite <- !app_assoc.
    - apply feeds_trans with (cursor r1); [|exact Fw].
      now apply feeds_trans with c'. }
  destruct (Token_is (Tok c) T1 || Token_is (Tok c) T2).
  { destruct CFT; [|now apply (Hnow true)].
    injection H as <-. exists [Tok c]. cbn. split; [reflexivity | exact FA]. }
  destruct (Token_is (Tok c) EA); [now apply (Hnow false)|].
  destruct (getKind (Tok c));
    try (now apply (Hnow false));
    try (eapply Hnext; [|exact H]; assumption);
    try (eapply Hnested; [|exact H]; assumption);
    match type of H with
    | (if ?b then _ else _) = _ => destruct b
    end;
    first [now apply (Hnow false) | eapply Hnext; [|exact H]; assumption].
Qed.

Lemma ConsumeAndStoreUntil_from_feeds :
  forall T1 T2 Toks EA CFT first c,
    exists w,
      stored (ConsumeAndStoreUntil_from T1 T2 Toks EA CFT first c) = Toks ++ w
      /\ feeds c w
           (cursor (ConsumeAndStoreUntil_from T1 T2 Toks EA CFT first c)).
Proof.
  intros T1 T2 Toks EA CFT first c.
  apply (ConsumeAndStoreUntil_loop_feeds (S (remaining c))
           T1 T2 Toks EA CFT first c).
  apply ConsumeAndStoreUntil_loop_from. lia.
Qed.

(** X1: whatever the input, the tokens a call appends to the container are
    the tokens it consumes, in their order: the lexer's output from the cursor
    of the call on is what was appended followed by the lexer's output from
    the cursor the call leaves.  No token is dropped, doubled or invented. *)
Theorem ConsumeAndStoreUntil_stores_what_it_consumes :
  forall T1 T2 Toks EarlyAbortIf ConsumeFinalToken first c,
    exists w,
      stored (ConsumeAndStoreUntil_from T1 T2 Toks EarlyAbortIf
                ConsumeFinalToken first c) = Toks ++ w
      /\ feeds c w
           (cursor (ConsumeAndStoreUntil_from T1 T2 Toks EarlyAbortIf
                      ConsumeFinalToken first c)).
Proof.
  intros T1 T2 Toks EA CFT first c.
  apply (ConsumeAndStoreUntil_loop_feeds (S (remaining c))
           T1 T2 Toks EA CFT first c).
  apply ConsumeAndStoreUntil_loop_from. lia.
Qed.

Lemma ConsumeAndStoreUntil_loop_found (n : nat) :
  forall T1 T2 Toks EA CFT first c r,
    ConsumeAndStoreUntil_loop n T1 T2 Toks EA CFT first c = Some r ->
    found r = true ->
    if CFT
    then exists w t,
           stored r = Toks ++ w ++ [t]
           /\ Token_is t T1 || Token_is t T2 = true
    else Token_is (Tok (cursor r)) T1 || Token_is (Tok (cursor r)) T2 = true.
Proof.
  induction n as [|n IH]; intros T1 T2 Toks EA CFT first c r H Hf;
    [discriminate|].
  change (ConsumeAndStoreUntil_iteration (ConsumeAndStoreUntil_loop n)
            T1 T2 Toks EA CFT first c = Some r) in H.
  unfold ConsumeAndStoreUntil_iteration in H.
  assert (Hnot : forall c', Some (mkScan false Toks c') = Some r ->
                            if CFT
                            then exists w t,
                                   stored r = Toks ++ w ++ [t]
                                   /\ Token_is t T1 || Token_is t T2 = true
                            else Token_is (Tok (cursor r)) T1
                                 || Token_is (Tok (cursor r)) T2 = true).
  { intros c' E. injection E as <-. discriminate Hf. }
  assert (Hext : forall Toks' c' w0,
             Toks' = Toks ++ w0 ->
             ConsumeAndStoreUntil_loop n T1 T2 Toks' EA CFT false c' = Some r ->
             if CFT
             then exists w t,
                    stored r = Toks ++ w ++ [t]
                    /\ Token_is t T1 || Token_is t T2 = true
             else Token_is (Tok (cursor r)) T1
                  || Token_is (Tok (cursor r)) T2 = true).
  { intros Toks' c' w0 -> E. specialize (IH _ _ _ _ _ _ _ _ E Hf).
    destruct CFT; [|exact IH].
    destruct IH as (w & t & Hs & Ht). exists (w0 ++ w), t.
    split; [|exact Ht]. rewrite Hs. now rewrite <- !app_assoc. }
  assert (Hnested : forall T c',
             match ConsumeAndStoreUntil_loop n T tok.unknown
                     (push_back Toks (Tok c)) tok.unknown true true c' with
             | None => None
             | Some r1 =>
               ConsumeAndStoreUntil_loop n T1 T2 (stored r1) EA CFT false
                 (cursor r1)
             end = Some r ->
             if CFT
             then exists w t,
                    stored r = Toks ++ w ++ [t]
                    /\ Token_is t T1 || Token_is t T2 = true
             else Token_is (Tok (cursor r)) T1
                  || Token_is (Tok (cursor r)) T2 = true).
  { intros T c' E.
    destruct (ConsumeAndStoreUntil_loop n T tok.unknown
                (push_back Toks (Tok c)) tok.unknown true true c')
      as [r1|] eqn:E1; [|discriminate].
    apply ConsumeAndStoreUntil_loop_stored in E1 as [w1 E1].
    apply Hext with (stored r1) (cursor r1) (Tok c :: w1); [|exact E].
    rewrite E1. unfold push_back. now rewrite <- app_assoc. }
  destruct (Token_is (Tok c) T1 || Token_is (Tok c) T2) eqn:HT.
  { destruct CFT; injection H as <-; cbn.
    - exists [], (Tok c). split; [reflexivity | exact HT].
    - exact HT. }
  destruct (Token_is (Tok c) EA); [now apply (Hnot c)|].
  destruct (getKind (Tok c));
    try (now apply (Hnot c));
    try (exact (Hext _ _ [Tok c] eq_refl H));
    try (now apply Hnested with (1 := H));
    match type of H with
    | (if ?b then _ else _) = _ => destruct b
    end;
    first [now apply (Hnot c) | exact (Hext _ _ [Tok c] eq_refl H)].
Qed.

(** X2: a call returns true only by finding a terminator.  With
    [ConsumeFinalToken] the last token it appended is a terminator; without,
    the lookahead it leaves is one, and a further call from there, whatever
    its container, returns true at once and changes nothing. *)
Theorem ConsumeAndStoreUntil_found :
  forall T1 T2 Toks EarlyAbortIf first c,
    (found (ConsumeAndStoreUntil_from T1 T2 Toks EarlyAbortIf true first c)
     = true ->
     exists w t,
       stored (ConsumeAndStoreUntil_from T1 T2 Toks EarlyAbortIf true first c)
       = Toks ++ w ++ [t]
       /\ Token_is t T1 || Token_is t T2 = true)
    /\ (found (ConsumeAndStoreUntil_from T1 T2 Toks EarlyAbortIf false first c)
        = true ->
        Token_is
          (Tok (cursor (ConsumeAndStoreUntil_from T1 T2 Toks EarlyAbortIf
                          false first c))) T1
        || Token_is
             (Tok (cursor (ConsumeAndStoreUntil_from T1 T2 Toks EarlyAbortIf
                             false first c))) T2 = true
        /\ forall Toks' first',
             ConsumeAndStoreUntil_from T1 T2 Toks' EarlyAbortIf false first'
               (cursor (ConsumeAndStoreUntil_from T1 T2 Toks EarlyAbortIf
                          false first c))
             = mkScan true Toks'
                 (cursor (ConsumeAndStoreUntil_from T1 T2 Toks EarlyAbortIf
                            false first c))).
Proof.
  intros T1 T2 Toks EA first c. split; intros Hf.
  - apply (ConsumeAndStoreUntil_loop_found (S (remaining c))
             T1 T2 Toks EA true first c); [|exact Hf].
    apply ConsumeAndStoreUntil_loop_from. lia.
  - assert (HT := ConsumeAndStoreUntil_loop_found (S (remaining c))
                    T1 T2 Toks EA false first c _
                    (ConsumeAndStoreUntil_loop_from _ T1 T2 Toks EA false
                       first c (Nat.lt_succ_diag_r _)) Hf).
    cbn in HT. split; [exact HT|].
    intros Toks' first'. now rewrite scan_terminator.
Qed.

(** The default argument [= f ( 1 , 2 )] of a parameter, read up to the
    comma or the closing parenthesis behind it but not beyond. *)
Lemma ConsumeAndStoreUntil_found_witness :
  (exists w t,
      stored (ConsumeAndStoreUntil_from tok.r_brace tok.unknown [] tok.unknown
                true true
                (cursor_at [tk (tok.other 0) 1; tk tok.r_brace 2] 0 0 1))
      = [] ++ w ++ [t]
      /\ Token_is t tok.r_brace || Token_is t tok.unknown = true)
  /\ Token_is
       (Tok (cursor (ConsumeAndStoreUntil_from tok.comma tok.r_paren []
                       tok.semi false true
                       (cursor_at [tk tok.equal 1; tk (tok.other 0) 2;
                                   tk tok.l_paren 3; tk (tok.other 1) 4;
                                   tk tok.comma 5; tk (tok.other 2) 6;
                                   tk tok.r_paren 7; tk tok.r_paren 8]
                          1 0 1)))) tok.comma
     || Token_is
          (Tok (cursor (ConsumeAndStoreUntil_from tok.comma tok.r_paren []
                          tok.semi false true
                          (cursor_at [tk tok.equal 1; tk (tok.other 0) 2;
                                      tk tok.l_paren 3; tk (tok.other 1) 4;
                                      tk tok.comma 5; tk (tok.other 2) 6;
                                      tk tok.r_paren 7; tk tok.r_paren 8]
                             1 0 1)))) tok.r_paren = true.
Proof.
  split.
  - apply (ConsumeAndStoreUntil_found tok.r_brace tok.unknown [] tok.unknown
             true (cursor_at [tk (tok.other 0) 1; tk tok.r_brace 2] 0 0 1)).
    reflexivity.
  - apply (ConsumeAndStoreUntil_found tok.comma tok.r_paren [] tok.semi true
             (cursor_at [tk tok.equal 1; tk (tok.other 0) 2;
                         tk tok.l_paren 3; tk (tok.other 1) 4;
                         tk tok.comma 5; tk (tok.other 2) 6;
                         tk tok.r_paren 7; tk tok.r_paren 8] 1 0 1)).
    reflexivity.
Defined.

(** X3: the purpose of [isFirstTokenConsumed].  A call whose first lookahead
    is no terminator, not the early-abort token and not end-of-input consumes
    that token, whatever it is and whatever the open counts are: it is the
    first token the call appends, and the call leaves fewer tokens than it
    found. *)
Theorem ConsumeAndStoreUntil_consumes_first_token :
  forall T1 T2 Toks EarlyAbortIf ConsumeFinalToken c,
    Token_is (Tok c) T1 || Token_is (Tok c) T2 = false ->
    Token_is (Tok c) EarlyAbortIf = false ->
    getKind (Tok c) <> tok.eof ->
    (exists w,
        stored (ConsumeAndStoreUntil T1 T2 Toks EarlyAbortIf ConsumeFinalToken
                  c) = Toks ++ Tok c :: w)
    /\ remaining (cursor (ConsumeAndStoreUntil T1 T2 Toks EarlyAbortIf
                            ConsumeFinalToken c)) < remaining c.
Proof.
  intros T1 T2 Toks EA CFT c HT HEA Heof.
  assert (Hnext : forall c',
             remaining c' < remaining c ->
             (exists w,
                 stored (ConsumeAndStoreUntil_from T1 T2
                           (push_back Toks (Tok c)) EA CFT false c')
                 = Toks ++ Tok c :: w)
             /\ remaining (cursor (ConsumeAndStoreUntil_from T1 T2
                                     (push_back Toks (Tok c)) EA CFT false c'))
                < remaining c).
  { intros c' Hc'. split.
    - destruct (ConsumeAndStoreUntil_from_stored T1 T2
                  (push_back Toks (Tok c)) EA CFT false c') as [w Hw].
      exists w. rewrite Hw. unfold push_back. now rewrite <- app_assoc.
    - pose proof (ConsumeAndStoreUntil_from_remaining T1 T2
                    (push_back Toks (Tok c)) EA CFT false c'). lia. }
  assert (Hnested : forall T c',
             remaining c' < remaining c ->
             (exists w,
                 stored
                   (ConsumeAndStoreUntil_from T1 T2
                      (stored (ConsumeAndStoreUntil T tok.unknown
                                 (push_back Toks (Tok c)) tok.unknown true c'))
                      EA CFT false
                      (cursor (ConsumeAndStoreUntil T tok.unknown
                                 (push_back Toks (Tok c)) tok.unknown true c')))
                 = Toks ++ Tok c :: w)
             /\ remaining
                  (cursor
                     (ConsumeAndStoreUntil_from T1 T2
                        (stored (ConsumeAndStoreUntil T tok.unknown
                                   (push_back Toks (Tok c)) tok.unknown true
                                   c'))
                        EA CFT false
                        (cursor (ConsumeAndStoreUntil T tok.unknown
                                   (push_back Toks (Tok c)) tok.unknown true
                                   c'))))
                < remaining c).
  { intros T c' Hc'.
    set (r1 := ConsumeAndStoreUntil T tok.unknown (push_back Toks (Tok c))
                 tok.unknown true c').
    destruct (ConsumeAndStoreUntil_from_stored T tok.unknown
                (push_back Toks (Tok c)) tok.unknown true true c') as [w1 Hw1].
    pose proof (ConsumeAndStoreUntil_from_remaining T tok.unknown
                  (push_back Toks (Tok c)) tok.unknown true true c') as Hr1.
    fold (ConsumeAndStoreUntil T tok.unknown (push_back Toks (Tok c))
            tok.unknown true c') in Hw1, Hr1. fold r1 in Hw1, Hr1.
    split.
    - destruct (ConsumeAndStoreUntil_from_stored T1 T2 (stored r1) EA CFT
                  false (cursor r1)) as [w Hw].
      exists (w1 ++ w). rewrite Hw, Hw1. unfold push_back.
      now rewrite <- !app_assoc.
    - pose proof (ConsumeAndStoreUntil_from_remaining T1 T2 (stored r1) EA
                    CFT false (cursor r1)). lia. }
  unfold ConsumeAndStoreUntil at 1 2.
  destruct (getKind (Tok c)) eqn:K; try congruence.
  - rewrite (scan_default T1 T2 Toks EA CFT true c HT HEA)
      by (rewrite K; exact I).
    apply Hnext. apply remaining_ConsumeToken; congruence.
  - rewrite (scan_l_paren T1 T2 Toks EA CFT true c HT HEA K).
    apply Hnested. apply remaining_ConsumeParen; congruence.
  - rewrite (scan_r_paren T1 T2 Toks EA CFT true c HT HEA K).
    rewrite andb_false_r.
    apply Hnext. apply remaining_ConsumeParen; congruence.
  - rewrite (scan_l_square T1 T2 Toks EA CFT true c HT HEA K).
    apply Hnested. apply remaining_ConsumeBracket; congruence.
  - rewrite (scan_r_square T1 T2 Toks EA CFT true c HT HEA K).
    rewrite andb_false_r.
    apply Hnext. apply remaining_ConsumeBracket; congruence.
  - rewrite (scan_l_brace T1 T2 Toks EA CFT true c HT HEA K).
    apply Hnested. apply remaining_ConsumeBrace; congruence.
  - rewrite (scan_r_brace T1 T2 Toks EA CFT true c HT HEA K).
    rewrite andb_false_r.
    apply Hnext. apply remaining_ConsumeBrace; congruence.
  - rewrite (scan_string_literal T1 T2 Toks EA CFT true c HT HEA) by auto.
    apply Hnext. apply remaining_ConsumeStringToken; congruence.
  - rewrite (scan_string_literal T1 T2 Toks EA CFT true c HT HEA) by auto.
    apply Hnext. apply remaining_ConsumeStringToken; congruence.
  - rewrite (scan_default T1 T2 Toks EA CFT true c HT HEA)
      by (rewrite K; exact I).
    apply Hnext. apply remaining_ConsumeToken; congruence.
  - rewrite (scan_default T1 T2 Toks EA CFT true c HT HEA)
      by (rewrite K; exact I).
    apply Hnext. apply remaining_ConsumeToken; congruence.
  - rewrite (scan_default T1 T2 Toks EA CFT true c HT HEA)
      by (rewrite K; exact I).
    apply Hnext. apply remaining_ConsumeToken; congruence.
  - rewrite (scan_default T1 T2 Toks EA CFT true c HT HEA)
      by (rewrite K; exact I).
    apply Hnext. apply remaining_ConsumeToken; congruence.
  - rewrite (scan_default T1 T2 Toks EA CFT true c HT HEA)
      by (rewrite K; exact I).
    apply Hnext. apply remaining_ConsumeToken; congruence.
Qed.

(** [) x }] read with a parenthesis and a brace open: the closing parenthesis
    is the first token of the call for the brace, and is taken. *)
Lemma ConsumeAndStoreUntil_consumes_first_token_witness :
  (exists w,
      stored (ConsumeAndStoreUntil tok.r_brace tok.unknown [] tok.unknown true
                (cursor_at [tk tok.r_paren 1; tk (tok.other 0) 2;
                            tk tok.r_brace 3] 1 0 1))
      = [] ++ tk tok.r_paren 1 :: w)
  /\ remaining
       (cursor (ConsumeAndStoreUntil tok.r_brace tok.unknown [] tok.unknown
                  true
                  (cursor_at [tk tok.r_paren 1; tk (tok.other 0) 2;
                              tk tok.r_brace 3] 1 0 1)))
     < remaining (cursor_at [tk tok.r_paren 1; tk (tok.other 0) 2;
                             tk tok.r_brace 3] 1 0 1).
Proof.
  apply (ConsumeAndStoreUntil_consumes_first_token tok.r_brace tok.unknown []
           tok.unknown true
           (cursor_at [tk tok.r_paren 1; tk (tok.other 0) 2;
                       tk tok.r_brace 3] 1 0 1)).
  - reflexivity.
  - reflexivity.
  - discriminate.
Defined.

Lemma no_eof_push_back (l : list Token) (t : Token) :
  no_eof l = true -> getKind t <> tok.eof -> no_eof (push_back l t) = true.
Proof.
  intros Hl Ht. unfold no_eof, push_back in *.
  rewrite forallb_app, Hl. cbn. unfold Token_is.
  apply tok_eqb_neq in Ht. now rewrite Ht.
Qed.

Lemma ConsumeAndStoreUntil_loop_no_eof (n : nat) :
  forall T1 T2 Toks EA CFT first c r,
    T1 <> tok.eof -> T2 <> tok.eof ->
    ConsumeAndStoreUntil_loop n T1 T2 Toks EA CFT first c = Some r ->
    no_eof Toks = true ->
    no_eof (stored r) = true.
Proof.
  induction n as [|n IH]; intros T1 T2 Toks EA CFT first c r H1 H2 H HToks;
    [discriminate|].
  change (ConsumeAndStoreUntil_iteration (ConsumeAndStoreUntil_loop n)
            T1 T2 Toks EA CFT first c = Some r) in H.
  unfold ConsumeAndStoreUntil_iteration in H.
  assert (Hnow : forall b c', Some (mkScan b Toks c') = Some r ->
                              no_eof (stored r) = true).
  { intros b c' E. injection E as <-. exact HToks. }
  assert (Hnext : forall c',
             getKind (Tok c) <> tok.eof ->
             ConsumeAndStoreUntil_loop n T1 T2 (push_back Toks (Tok c)) EA CFT
               false c' = Some r ->
             no_eof (stored r) = true).
  { intros c' Hk E. apply (IH _ _ _ _ _ _ _ _ H1 H2 E).
    now apply no_eof_push_back. }
  assert (Hnested : forall T c',
             T <> tok.eof ->
             getKind (Tok c) <> tok.eof ->
             match ConsumeAndStoreUntil_loop n T tok.unknown
                     (push_back Toks (Tok c)) tok.unknown true true c' with
             | None => None
             | Some r1 =>
               ConsumeAndStoreUntil_loop n T1 T2 (stored r1) EA CFT false
                 (cursor r1)
             end = Some r ->
             no_eof (stored r) = true).
  { intros T c' HT Hk E.
    destruct (ConsumeAndStoreUntil_loop n T tok.unknown
                (push_back Toks (Tok c)) tok.unknown true true c')
      as [r1|] eqn:E1; [|discriminate].
    apply (IH _ _ _ _ _ _ _ _ H1 H2 E).
    assert (Hu : tok.unknown <> tok.eof) by discriminate.
    apply (IH _ _ _ _ _ _ _ _ HT Hu E1).
    now apply no_eof_push_back. }
  destruct (Token_is (Tok c) T1 || Token_is (Tok c) T2) eqn:HT.
  { destruct CFT; [|now apply (Hnow true c)].
    injection H as <-. cbn. apply no_eof_push_back; [exact HToks|].
    unfold Token_is in HT. intros Hk. rewrite Hk in HT.
    apply orb_prop in HT as [HT|HT]; apply tok_eqb_eq in HT; congruence. }
  destruct (Token_is (Tok c) EA); [now apply (Hnow false c)|].
  destruct (getKind (Tok c)) eqn:K;
    try (now apply (Hnow false c));
    try (apply Hnext with (2 := H); congruence);
    try (apply Hnested with (3 := H); congruence);
    match type of H with
    | (if ?b then _ else _) = _ => destruct b
    end;
    first [now apply (Hnow false c) | apply Hnext with (2 := H); congruence].
Qed.

(** X4: unless end-of-input is one of its terminators, a call never stores an
    end-of-input token: a container free of them stays free of them, so a
    stored region cannot end the token stream it is replayed into. *)
Theorem ConsumeAndStoreUntil_stores_no_eof :
  forall T1 T2 Toks EarlyAbortIf ConsumeFinalToken first c,
    T1 <> tok.eof -> T2 <> tok.eof ->
    no_eof Toks = true ->
    no_eof (stored (ConsumeAndStoreUntil_from T1 T2 Toks EarlyAbortIf
                      ConsumeFinalToken first c)) = true.
Proof.
  intros T1 T2 Toks EA CFT first c H1 H2 HToks.
  apply (ConsumeAndStoreUntil_loop_no_eof (S (remaining c))
           T1 T2 Toks EA CFT first c _ H1 H2); [|exact HToks].
  apply ConsumeAndStoreUntil_loop_from. lia.
Qed.

(** [{ x] and the end of the input: the body is never closed. *)
Lemma ConsumeAndStoreUntil_stores_no_eof_witness :
  no_eof (stored (ConsumeAndStoreUntil_from tok.r_brace tok.unknown
                    [tk tok.l_brace 1] tok.unknown true true
                    (cursor_at [tk (tok.other 0) 2; tk tok.eof 3] 0 0 2)))
  = true.
Proof.
  apply (ConsumeAndStoreUntil_stores_no_eof tok.r_brace tok.unknown
           [tk tok.l_brace 1] tok.unknown true true
           (cursor_at [tk (tok.other 0) 2; tk tok.eof 3] 0 0 2)).
  - discriminate.
  - discriminate.
  - reflexivity.
Defined.

(** ** Further properties of [ParseCXXInlineMethodDef] *)


(** The scan into the item at the back of the queue, spelled out. *)
Lemma ConsumeAndStoreUntil_back_push_back
    (T1 T2 EA : tok.TokenKind) (q : list LexedMethod.t) (x : LexedMethod.t)
    (s : ParserState) :
  MethodDefs (CurTopClassStack s) = push_back q x ->
  ConsumeAndStoreUntil_back T1 T2 EA s
  = (found (ConsumeAndStoreUntil T1 T2 (LexedMethod.Toks x) EA true (cur s)),
     mkState
       (cursor (ConsumeAndStoreUntil T1 T2 (LexedMethod.Toks x) EA true
                  (cur s)))
       (mkTopClass (MethodDecls (CurTopClassStack s))
          (push_back q
             (LexedMethod.mk (LexedMethod.D x)
                (stored (ConsumeAndStoreUntil T1 T2 (LexedMethod.Toks x) EA
                           true (cur s))))))
       (TopClassStacks_below s) (Trace s)).
Proof.
  intros Hq. unfold ConsumeAndStoreUntil_back. rewrite Hq.
  rewrite back_Toks_push_back, set_back_Toks_push_back. reflexivity.
Qed.

(** The cursor substitution loses no token: what follows is the stored
    tokens, then the old lookahead and the old stream. *)
Lemma ReplayTokens_stream (Toks : CachedTokens) (c : Cursor) :
  Tok (ReplayTokens Toks c) :: PP (ReplayTokens Toks c)
  = Toks ++ Tok c :: PP c.
Proof.
  destruct Toks as [|t rest].
  - destruct (ReplayTokens_nil c) as [-> ->]. reflexivity.
  - destruct (ReplayTokens_cons t rest c) as [-> ->]. reflexivity.
Qed.



Section CaptureFurther.

Variable ActOnCXXMemberDeclarator :
  ParserState -> AccessSpecifier -> Declarator -> DeclTy.



(** What the routine does on any input that passes its assertions. *)
Lemma ParseCXXInlineMethodDef_outcome (AS : AccessSpecifier) (D : Declarator)
    (s : ParserState) :
  isFunctionDeclarator D = true ->
  Tok_is s tok.l_brace || Tok_is s tok.colon = true ->
  exists s',
    ParseCXXInlineMethodDef ActOnCXXMemberDeclarator AS D s
    = Returned (ActOnCXXMemberDeclarator s AS D, s')
    /\ MethodDecls (CurTopClassStack s') = MethodDecls (CurTopClassStack s)
    /\ TopClassStacks_below s' = TopClassStacks_below s
    /\ ((exists toks,
            MethodDefs (CurTopClassStack s')
            = push_back (MethodDefs (CurTopClassStack s))
                (LexedMethod.mk (ActOnCXXMemberDeclarator s AS D) toks)
            /\ Trace s'
               = Trace s
                 ++ [EvActOnCXXMemberDeclarator AS D
                       (ActOnCXXMemberDeclarator s AS D)]
            /\ feeds (cur s) toks (cur s'))
        \/ (Tok_is s tok.colon = true
            /\ MethodDefs (CurTopClassStack s')
               = MethodDefs (CurTopClassStack s)
            /\ exists w semi,
                 getKind semi = tok.semi
                 /\ Trace s'
                    = Trace s
                      ++ [EvActOnCXXMemberDeclarator AS D
                            (ActOnCXXMemberDeclarator s AS D);
                          EvDiag (getLocation semi) diag.err_expected_lbrace]
                 /\ feeds (cur s) (w ++ [semi]) (cur s'))).
Proof.
  intros HD HTok.
  unfold ParseCXXInlineMethodDef. rewrite HD, HTok. cbn [assert bind].
  set (FnD := ActOnCXXMemberDeclarator s AS D).
  set (q := MethodDefs (CurTopClassStack s)).
  assert (Hfinish : forall c1 toks1,
             feeds (cur s) toks1 c1 ->
             exists s',
               (let '(_, s2) :=
                  ConsumeAndStoreUntil_back tok.r_brace tok.unknown
                    tok.unknown
                    (mkState c1
                       (mkTopClass (MethodDecls (CurTopClassStack s))
                          (push_back q (LexedMethod.mk FnD toks1)))
                       (TopClassStacks_below s)
                       (Trace s ++ [EvActOnCXXMemberDeclarator AS D FnD])) in
                Returned (FnD, s2)) = Returned (FnD, s')
               /\ MethodDecls (CurTopClassStack s')
                  = MethodDecls (CurTopClassStack s)
               /\ TopClassStacks_below s' = TopClassStacks_below s
               /\ exists toks,
                    MethodDefs (CurTopClassStack s')
                    = push_back q (LexedMethod.mk FnD toks)
                    /\ Trace s'
                       = Trace s ++ [EvActOnCXXMemberDeclarator AS D FnD]
                    /\ feeds (cur s) toks (cur s')).
  { intros c1 toks1 F1.
    rewrite (ConsumeAndStoreUntil_back_push_back tok.r_brace tok.unknown
               tok.unknown q (LexedMethod.mk FnD toks1)) by reflexivity.
    cbn [cur LexedMethod.Toks LexedMethod.D CurTopClassStack MethodDecls
           TopClassStacks_below Trace].
    destruct (ConsumeAndStoreUntil_from_feeds tok.r_brace
                tok.unknown toks1 tok.unknown true true c1) as (w & Hw & Fw).
    eexists. split; [reflexivity|]. cbn. repeat split.
    exists (toks1 ++ w). repeat split.
    - unfold ConsumeAndStoreUntil. now rewrite Hw.
    - now apply feeds_trans with c1. }
  destruct (Tok_is (set_MethodDefs _ (log _ s)) tok.colon) eqn:Hcolon.
  - rewrite (ConsumeAndStoreUntil_back_push_back tok.l_brace tok.unknown
               tok.semi q (LexedMethod.mk FnD [])) by reflexivity.
    cbn [cur set_MethodDefs log LexedMethod.Toks LexedMethod.D
           CurTopClassStack MethodDecls TopClassStacks_below Trace].
    destruct (ConsumeAndStoreUntil_from_feeds tok.l_brace
                tok.unknown [] tok.semi true true (cur s))
      as (w1 & Hw1 & Fw1).
    fold (ConsumeAndStoreUntil tok.l_brace tok.unknown [] tok.semi true
            (cur s)) in Hw1, Fw1.
    set (r1 := ConsumeAndStoreUntil tok.l_brace tok.unknown [] tok.semi true
                 (cur s)) in *.
    cbn [app] in Hw1. rewrite Hw1.
    destruct (Hfinish (cursor r1) w1 Fw1) as (s' & Hs' & Hd & Hb & Hqueued).
    destruct (found r1); cbn [negb].
    + exists s'. split; [exact Hs'|]. auto.
    + unfold Tok_is at 1. cbn [cur].
      destruct (Token_is (Tok (cursor r1)) tok.semi) eqn:Hsemi.
      * eexists. split; [reflexivity|].
        cbn [cur set_cur set_MethodDefs log CurTopClassStack MethodDecls
               MethodDefs TopClassStacks_below Trace].
        split; [reflexivity|]. split; [reflexivity|]. right.
        split; [exact Hcolon|]. split.
        { unfold push_back. now rewrite removelast_last. }
        exists w1, (Tok (cursor r1)). split.
        { unfold Token_is in Hsemi. now apply tok_eqb_eq. }
        split.
        { now rewrite <- app_assoc. }
        apply feeds_trans with (cursor r1); [exact Fw1|].
        apply feeds_Consume.
      * exists s'. split; [exact Hs'|]. auto.
  - cbn [cur set_MethodDefs log CurTopClassStack MethodDefs set_cur].
    rewrite back_Toks_push_back, set_back_Toks_push_back.
    cbn [LexedMethod.Toks LexedMethod.D].
    destruct (Hfinish (ConsumeBrace (cur s)) (push_back [] (Tok (cur s))))
      as (s' & Hs' & Hd & Hb & Hqueued).
    { apply feeds_Consume. }
    exists s'. split; [exact Hs'|]. auto.
Qed.

(** X7: on any input that passes its assertions the routine returns, leaves
    the queue of declarations and the frames below alone, and does one of two
    things.  Either it queues one item behind the bodies already queued,
    holding exactly the tokens it consumed, and reports nothing but the
    declaration; or, entered on a colon, it leaves the queue of bodies as it
    was, having consumed tokens up to and including a semicolon, and emits
    one diagnostic, at that semicolon.  A member is never dropped without the
    diagnostic, and never diagnosed and queued. *)
Theorem ParseCXXInlineMethodDef_queues_or_drops :
  forall AS D s,
    isFunctionDeclarator D = true ->
    Tok_is s tok.l_brace || Tok_is s tok.colon = true ->
    exists s',
      ParseCXXInlineMethodDef ActOnCXXMemberDeclarator AS D s
      = Returned (ActOnCXXMemberDeclarator s AS D, s')
      /\ MethodDecls (CurTopClassStack s') = MethodDecls (CurTopClassStack s)
      /\ TopClassStacks_below s' = TopClassStacks_below s
      /\ ((exists toks,
              MethodDefs (CurTopClassStack s')
              = push_back (MethodDefs (CurTopClassStack s))
                  (LexedMethod.mk (ActOnCXXMemberDeclarator s AS D) toks)
              /\ Trace s'
                 = Trace s
                   ++ [EvActOnCXXMemberDeclarator AS D
                         (ActOnCXXMemberDeclarator s AS D)]
              /\ feeds (cur s) toks (cur s'))
          \/ (Tok_is s tok.colon = true
              /\ MethodDefs (CurTopClassStack s')
                 = MethodDefs (CurTopClassStack s)
              /\ exists w semi,
                   getKind semi = tok.semi
                   /\ Trace s'
                      = Trace s
                        ++ [EvActOnCXXMemberDeclarator AS D
                              (ActOnCXXMemberDeclarator s AS D);
                            EvDiag (getLocation semi)
                              diag.err_expected_lbrace]
                   /\ feeds (cur s) (w ++ [semi]) (cur s'))).
Proof.
  intros AS D s HD HTok.
  destruct (ParseCXXInlineMethodDef_outcome AS D s HD HTok)
    as (s' & Hret & Hdecls & Hbelow & Hcases).
  exists s'. repeat split; assumption.
Qed.

(** X8: capture and replay are a round trip.  If the routine returns with
    an item queued, the cursor substitution of the replay, done on the stored
    tokens at the cursor the routine left, puts the parser in front of the
    token stream the routine was entered on: the lexer hands out the same
    tokens, the first being the brace or colon of the entry. *)
Theorem ParseCXXInlineMethodDef_replay_round_trip :
  forall AS D s FnD s' LM,
    ParseCXXInlineMethodDef ActOnCXXMemberDeclarator AS D s
    = Returned (FnD, s') ->
    MethodDefs (CurTopClassStack s')
    = push_back (MethodDefs (CurTopClassStack s)) LM ->
    LexedMethod.D LM = FnD
    /\ forall n,
         lexed (ReplayTokens (LexedMethod.Toks LM) (cur s')) n
         = lexed (cur s) n.
Proof.
  intros AS D s FnD s' LM Hret Hq.
  assert (HD : isFunctionDeclarator D = true).
  { unfold ParseCXXInlineMethodDef in Hret.
    destruct (isFunctionDeclarator D); [reflexivity | discriminate Hret]. }
  assert (HTok : Tok_is s tok.l_brace || Tok_is s tok.colon = true).
  { unfold ParseCXXInlineMethodDef in Hret. rewrite HD in Hret.
    cbn [assert bind] in Hret.
    destruct (Tok_is s tok.l_brace || Tok_is s tok.colon);
      [reflexivity | discriminate Hret]. }
  destruct (ParseCXXInlineMethodDef_outcome AS D s HD HTok)
    as (s'' & Hret' & _ & _ & Hcases).
  rewrite Hret in Hret'. injection Hret' as HFnD <-.
  destruct Hcases as [(toks & Hq' & _ & F)|(_ & Hq' & _)].
  - rewrite Hq in Hq'. unfold push_back in Hq'.
    apply app_inj_tail in Hq' as [_ ->].
    cbn [LexedMethod.Toks LexedMethod.D]. split; [now rewrite HFnD|].
    intros n. rewrite (F n). unfold lexed.
    now rewrite (ReplayTokens_stream toks (cur s')).
  - rewrite Hq in Hq'. apply (f_equal (@List.length _)) in Hq'.
    unfold push_back in Hq'. rewrite length_app in Hq'. cbn in Hq'. lia.
Qed.

End CaptureFurther.

(** ** Further properties of the replay passes *)

Section ReplayFurther.

Variable ParseAssignmentExpression : ParserState -> OwningExprResult * Cursor.
Variable ParseConstructorInitializer : ParserState -> DeclTy -> Cursor.
Variable ParseFunctionStatementBody :
  ParserState -> DeclTy -> SourceLocation -> SourceLocation -> Cursor.

(** One queued body, with all its events. *)
Lemma ParseLexedMethodDefs_item_events (LM : LexedMethod.t) (s : ParserState) :
  replayable LM = true ->
  exists s' tr,
    ParseLexedMethodDefs_item ParseConstructorInitializer
      ParseFunctionStatementBody LM s = Returned s'
    /\ tl (MethodDefs (CurTopClassStack s'))
       = tl (MethodDefs (CurTopClassStack s))
    /\ MethodDecls (CurTopClassStack s') = MethodDecls (CurTopClassStack s)
    /\ TopClassStacks_below s' = TopClassStacks_below s
    /\ Trace s' = Trace s ++ tr
    /\ body_events LM tr.
Proof.
  intros Hrep. unfold ParseLexedMethodDefs_item, body_events, starts_with_colon.
  destruct LM as [FnD [|t rest]]; [discriminate|].
  unfold replayable in Hrep. cbn [LexedMethod.Toks LexedMethod.D] in *.
  cbn [negb assert bind].
  unfold Tok_is at 1 2. cbn [cur set_cur set_MethodDefs].
  destruct (ReplayTokens_cons t rest (cur s)) as [HTok _].
  rewrite HTok, Hrep. cbn [assert bind].
  unfold Tok_is. cbn [cur set_cur set_MethodDefs log]. rewrite !HTok.
  destruct (Token_is t tok.colon);
    (do 2 eexists; split; [reflexivity|]; split; [reflexivity|];
     split; [reflexivity|]; split; [reflexivity|];
     split; [cbn; rewrite <- !app_assoc; reflexivity|];
     eexists; reflexivity).
Qed.

Lemma ParseLexedMethodDefs_loop_events (q : list LexedMethod.t) :
  forall s fuel,
    MethodDefs (CurTopClassStack s) = q ->
    forallb replayable q = true ->
    List.length q <= fuel ->
    exists s' trs,
      ParseLexedMethodDefs_loop ParseConstructorInitializer
        ParseFunctionStatementBody fuel s = Some (Returned s')
      /\ MethodDefs (CurTopClassStack s') = []
      /\ MethodDecls (CurTopClassStack s') = MethodDecls (CurTopClassStack s)
      /\ TopClassStacks_below s' = TopClassStacks_below s
      /\ Trace s' = Trace s ++ concat trs
      /\ Forall2 body_events q trs.
Proof.
  induction q as [|LM q IH]; intros s fuel Hq Hall Hfuel.
  - exists s, [].
    destruct fuel; cbn; rewrite Hq; repeat split;
      try (now rewrite app_nil_r); constructor.
  - destruct fuel as [|fuel]; [cbn in Hfuel; lia|].
    cbn in Hall. apply andb_prop in Hall as [HLM Hall].
    destruct (ParseLexedMethodDefs_item_events LM s HLM)
      as (s1 & tr1 & Hitem & Htl & Hdecls & Hbelow & Htr1 & Hev1).
    rewrite Hq in Htl. cbn [tl] in Htl.
    destruct (IH (set_MethodDefs (tl (MethodDefs (CurTopClassStack s1))) s1)
                fuel)
      as (s' & trs & Hloop & Hempty & Hdecls' & Hbelow' & Htr & Hev).
    { cbn. exact Htl. }
    { exact Hall. }
    { cbn in Hfuel. lia. }
    exists s', (tr1 :: trs). cbn. rewrite Hq, Hitem, Hloop.
    repeat split.
    + exact Hempty.
    + rewrite Hdecls'. cbn. exact Hdecls.
    + rewrite Hbelow'. cbn. exact Hbelow.
    + rewrite Htr. cbn. rewrite Htr1. now rewrite app_assoc.
    + now constructor.
Qed.

(** X9: the bodies pass returns with the queue of bodies empty, the queue of
    declarations and the frames below untouched, and its trace is, body by
    body in the order of the queue: a scope entered, the function definition
    started, the initializer list parsed if and only if the stored tokens
    start with a colon, the statement block parsed, the scope left.  All of
    that is for the declaration of the body, and the two locations the
    statement parser is given are the same. *)
Theorem ParseLexedMethodDefs_drains :
  forall s,
    forallb replayable (MethodDefs (CurTopClassStack s)) = true ->
    exists s' trs,
      ParseLexedMethodDefs ParseConstructorInitializer
        ParseFunctionStatementBody s = Some (Returned s')
      /\ MethodDefs (CurTopClassStack s') = []
      /\ MethodDecls (CurTopClassStack s') = MethodDecls (CurTopClassStack s)
      /\ TopClassStacks_below s' = TopClassStacks_below s
      /\ Trace s' = Trace s ++ concat trs
      /\ Forall2 body_events (MethodDefs (CurTopClassStack s)) trs.
Proof.
  intros s Hall.
  exact (ParseLexedMethodDefs_loop_events (MethodDefs (CurTopClassStack s)) s
           (List.length (MethodDefs (CurTopClassStack s)))
           eq_refl Hall (le_n _)).
Qed.

End ReplayFurther.

Lemma ParseLexedMethodDefs_drains_witness :
  exists s' trs,
    ParseLexedMethodDefs sample_ParseConstructorInitializer
      sample_ParseFunctionStatementBody class_scanned = Some (Returned s')
    /\ MethodDefs (CurTopClassStack s') = []
    /\ MethodDecls (CurTopClassStack s')
       = MethodDecls (CurTopClassStack class_scanned)
    /\ TopClassStacks_below s' = TopClassStacks_below class_scanned
    /\ Trace s' = Trace class_scanned ++ concat trs
    /\ Forall2 body_events (MethodDefs (CurTopClassStack class_scanned)) trs.
Proof.
  apply (ParseLexedMethodDefs_drains sample_ParseConstructorInitializer
           sample_ParseFunctionStatementBody class_scanned).
  reflexivity.
Defined.

Lemma set_front_DefaultArg_Toks_below (I : nat) (toks : option CachedTokens)
    (s : ParserState) :
  TopClassStacks_below (set_front_DefaultArg_Toks I toks s)
  = TopClassStacks_below s.
Proof.
  unfold set_front_DefaultArg_Toks.
  now destruct (MethodDecls (CurTopClassStack s)).
Qed.

Lemma bodies_parsed_declaration_events
    (q : list LateParsedMethodDeclaration.t) (trs : list (list Event)) :
  Forall2 declaration_events q trs -> bodies_parsed (concat trs) = [].
Proof.
  induction 1 as [|LM tr q trs HLM _ IH]; [reflexivity|].
  destruct HLM as (ptrs & Hp & ->).
  cbn [concat]. unfold bodies_parsed in *.
  rewrite collect_app, IH, app_nil_r. cbn [app].
  rewrite !collect_cons, collect_app. cbn.
  rewrite app_nil_r.
  clear IH. induction Hp as [|a t args ts Ha _ IHp]; [reflexivity|].
  cbn [concat]. rewrite collect_app, IHp.
  destruct Ha; reflexivity.
Qed.

Lemma readings_body_events (q : list LexedMethod.t) (trs : list (list Event)) :
  Forall2 body_events q trs ->
  bodies_parsed (concat trs) = map LexedMethod.D q
  /\ declarations_started (concat trs) = [].
Proof.
  induction 1 as [|LM tr q trs HLM _ [IHb IHd]]; [split; reflexivity|].
  destruct HLM as (L & ->).
  cbn [concat map]. unfold bodies_parsed, declarations_started in *.
  rewrite !collect_app, IHb, IHd.
  destruct (starts_with_colon LM); split; reflexivity.
Qed.

Section TwoPasses.

Variable ParseAssignmentExpression : ParserState -> OwningExprResult * Cursor.
Variable ParseConstructorInitializer : ParserState -> DeclTy -> Cursor.
Variable ParseFunctionStatementBody :
  ParserState -> DeclTy -> SourceLocation -> SourceLocation -> Cursor.

Lemma ParseLexedMethodDeclarations_params_below (n : nat) :
  forall I s s',
    ParseLexedMethodDeclarations_params ParseAssignmentExpression n I s
    = Returned s' ->
    TopClassStacks_below s' = TopClassStacks_below s.
Proof.
  induction n as [|n IH]; intros I s s' H; cbn in H.
  - now injection H as <-.
  - destruct (front_DefaultArgs_from I s) as [|arg todo]; [discriminate|].
    unfold ParseLexedMethodDeclarations_param in H.
    destruct (LateParsedDefaultArgument.Toks arg) as [Toks|].
    + match type of H with
      | context [assert ?b _] => destruct b
      end; [|discriminate].
      cbn [assert bind] in H. apply IH in H. rewrite H.
      rewrite set_front_DefaultArg_Toks_below.
      match goal with
      | |- context [if ?b then _ else _] => destruct b
      end; cbn; rewrite set_front_DefaultArg_Toks_below; reflexivity.
    + cbn [bind] in H. apply IH in H. rewrite H. reflexivity.
Qed.

Lemma ParseLexedMethodDeclarations_loop_below (fuel : nat) :
  forall s s',
    ParseLexedMethodDeclarations_loop ParseAssignmentExpression fuel s
    = Some (Returned s') ->
    TopClassStacks_below s' = TopClassStacks_below s.
Proof.
  induction fuel as [|fuel IH]; intros s s' H; cbn in H;
    destruct (MethodDecls (CurTopClassStack s)) as [|LM q];
    try discriminate; try (now injection H as <-).
  unfold ParseLexedMethodDeclarations_item in H.
  destruct (ParseLexedMethodDeclarations_params ParseAssignmentExpression
              (List.length (LateParsedMethodDeclaration.DefaultArgs LM)) 0
              (log EvEnterScope
                 (log (EvActOnStartDelayedCXXMethodDeclaration
                         (LateParsedMethodDeclaration.Method LM)) s)))
    as [s1|msg] eqn:E; cbn [bind] in H; [|discriminate].
  apply IH in H. rewrite H. cbn.
  now apply ParseLexedMethodDeclarations_params_below in E.
Qed.

(** X10: the two passes compose.  On a frame whose queued items can be
    replayed, the declarations pass and then the bodies pass both return and
    leave both queues empty and the frames below untouched; in the trace
    every delayed declaration is started, in the order of its queue, before
    any body is parsed, and the bodies are parsed in the order of theirs.
    Run again on the frame so emptied, either pass returns it as it is. *)
Theorem ParseLexedMethodDeclarations_then_Defs :
  forall s,
    forallb declaration_replayable (MethodDecls (CurTopClassStack s)) = true ->
    forallb replayable (MethodDefs (CurTopClassStack s)) = true ->
    exists s1 s2 tr1 tr2,
      ParseLexedMethodDeclarations ParseAssignmentExpression s
      = Some (Returned s1)
      /\ ParseLexedMethodDefs ParseConstructorInitializer
           ParseFunctionStatementBody s1 = Some (Returned s2)
      /\ MethodDecls (CurTopClassStack s2) = []
      /\ MethodDefs (CurTopClassStack s2) = []
      /\ TopClassStacks_below s2 = TopClassStacks_below s
      /\ Trace s1 = Trace s ++ tr1
      /\ Trace s2 = Trace s ++ tr1 ++ tr2
      /\ declarations_started tr1
         = map LateParsedMethodDeclaration.Method
             (MethodDecls (CurTopClassStack s))
      /\ bodies_parsed tr1 = []
      /\ declarations_started tr2 = []
      /\ bodies_parsed tr2
         = map LexedMethod.D (MethodDefs (CurTopClassStack s))
      /\ ParseLexedMethodDeclarations ParseAssignmentExpression s2
         = Some (Returned s2)
      /\ ParseLexedMethodDefs ParseConstructorInitializer
           ParseFunctionStatementBody s2 = Some (Returned s2).
Proof.
  intros s Hdecls Hdefs.
  destruct (ParseLexedMethodDeclarations_loop_Returned
              ParseAssignmentExpression
              (MethodDecls (CurTopClassStack s)) s
              (List.length (MethodDecls (CurTopClassStack s)))
              eq_refl Hdecls (le_n _))
    as (s1 & trs1 & H1 & Hq1 & Hd1 & Htr1 & Hev1).
  pose proof (ParseLexedMethodDeclarations_loop_below _ _ _ H1) as Hb1.
  rewrite <- Hd1 in Hdefs.
  destruct (ParseLexedMethodDefs_loop_events ParseConstructorInitializer
              ParseFunctionStatementBody
              (MethodDefs (CurTopClassStack s1)) s1
              (List.length (MethodDefs (CurTopClassStack s1)))
              eq_refl Hdefs (le_n _))
    as (s2 & trs2 & H2 & Hq2 & Hd2 & Hb2 & Htr2 & Hev2).
  destruct (readings_body_events _ _ Hev2) as [Hbodies Hnone].
  exists s1, s2, (concat trs1), (concat trs2).
  split; [exact H1|]. split; [exact H2|].
  split; [now rewrite Hd2|]. split; [exact Hq2|].
  split; [now rewrite Hb2|]. split; [exact Htr1|].
  split; [now rewrite Htr2, Htr1, app_assoc|].
  split; [now apply declarations_started_declaration_events|].
  split; [now apply bodies_parsed_declaration_events with
            (MethodDecls (CurTopClassStack s))|].
  split; [exact Hnone|].
  split; [now rewrite Hbodies, Hd1|].
  unfold ParseLexedMethodDeclarations, ParseLexedMethodDefs.
  rewrite Hd2, Hq1, Hq2. cbn. now rewrite Hd2, Hq1, Hq2.
Qed.

(** The parameters from index [I] on when none has a stored default
    argument: each is introduced, nothing else happens. *)
Lemma ParseLexedMethodDeclarations_params_plain
    (todo : list LateParsedDefaultArgument.t) :
  forall I s,
    front_DefaultArgs_from I s = todo ->
    forallb no_default_argument todo = true ->
    ParseLexedMethodDeclarations_params ParseAssignmentExpression
      (List.length todo) I s
    = Returned
        (mkState (cur s) (CurTopClassStack s) (TopClassStacks_below s)
           (Trace s
            ++ map (fun a => EvActOnDelayedCXXMethodParameter
                               (LateParsedDefaultArgument.Param a)) todo)).
Proof.
  induction todo as [|arg todo IH]; intros I s Hfront Hall.
  - cbn. rewrite app_nil_r. now destruct s.
  - cbn in Hall. apply andb_prop in Hall as [Harg Hall].
    cbn [List.length ParseLexedMethodDeclarations_params]. rewrite Hfront.
    unfold ParseLexedMethodDeclarations_param.
    unfold no_default_argument in Harg.
    destruct (LateParsedDefaultArgument.Toks arg); [discriminate|].
    cbn [bind]. rewrite (IH (S I)).
    + cbn. now rewrite <- app_assoc.
    + rewrite front_DefaultArgs_from_S.
      unfold front_DefaultArgs_from in *. cbn. now rewrite Hfront.
    + exact Hall.
Qed.

Lemma ParseLexedMethodDeclarations_loop_plain
    (q : list LateParsedMethodDeclaration.t) :
  forall s,
    MethodDecls (CurTopClassStack s) = q ->
    forallb (fun LM => forallb no_default_argument
                         (LateParsedMethodDeclaration.DefaultArgs LM)) q
    = true ->
    ParseLexedMethodDeclarations_loop ParseAssignmentExpression
      (List.length q) s
    = Some (Returned
              (mkState (cur s)
                 (mkTopClass [] (MethodDefs (CurTopClassStack s)))
                 (TopClassStacks_below s)
                 (Trace s ++ flat_map plain_declaration_events q))).
Proof.
  induction q as [|LM q IH]; intros s Hq Hall.
  - cbn. rewrite Hq, app_nil_r. destruct s as [c [decls defs] below tr].
    cbn in *. now subst.
  - cbn in Hall. apply andb_prop in Hall as [HLM Hall].
    cbn [List.length ParseLexedMethodDeclarations_loop]. rewrite Hq.
    unfold ParseLexedMethodDeclarations_item.
    rewrite ParseLexedMethodDeclarations_params_plain;
      [|unfold front_DefaultArgs_from; cbn; now rewrite Hq | exact HLM].
    cbn [bind]. rewrite IH; [|cbn; now rewrite Hq | exact Hall].
    cbn. unfold plain_declaration_events.
    now rewrite <- !app_assoc.
Qed.

(** X11: when no parameter of any queued declaration has a stored default
    argument, the declarations pass never enters a token stream and never
    calls the expression parser: it returns the state it was given with the
    cursor, the queue of bodies and the frames below as they were, the queue
    of declarations empty, and in the trace, declaration by declaration, the
    start, the parameters introduced in order, and the finish. *)
Theorem ParseLexedMethodDeclarations_without_default_arguments :
  forall s,
    forallb (fun LM => forallb no_default_argument
                         (LateParsedMethodDeclaration.DefaultArgs LM))
      (MethodDecls (CurTopClassStack s)) = true ->
    ParseLexedMethodDeclarations ParseAssignmentExpression s
    = Some (Returned
              (mkState (cur s)
                 (mkTopClass [] (MethodDefs (CurTopClassStack s)))
                 (TopClassStacks_below s)
                 (Trace s
                  ++ flat_map plain_declaration_events
                       (MethodDecls (CurTopClassStack s))))).
Proof.
  intros s Hall.
  now apply ParseLexedMethodDeclarations_loop_plain.
Qed.

End TwoPasses.

Lemma ParseLexedMethodDeclarations_then_Defs_witness :
  exists s1 s2 tr1 tr2,
    ParseLexedMethodDeclarations sample_ParseAssignmentExpression class_scanned
    = Some (Returned s1)
    /\ ParseLexedMethodDefs sample_ParseConstructorInitializer
         sample_ParseFunctionStatementBody s1 = Some (Returned s2)
    /\ MethodDecls (CurTopClassStack s2) = []
    /\ MethodDefs (CurTopClassStack s2) = []
    /\ TopClassStacks_below s2 = TopClassStacks_below class_scanned
    /\ Trace s1 = Trace class_scanned ++ tr1
    /\ Trace s2 = Trace class_scanned ++ tr1 ++ tr2
    /\ declarations_started tr1 = [1; 2]
    /\ bodies_parsed tr1 = []
    /\ declarations_started tr2 = []
    /\ bodies_parsed tr2 = [1; 2]
    /\ ParseLexedMethodDeclarations sample_ParseAssignmentExpression s2
       = Some (Returned s2)
    /\ ParseLexedMethodDefs sample_ParseConstructorInitializer
         sample_ParseFunctionStatementBody s2 = Some (Returned s2).
Proof.
  apply (ParseLexedMethodDeclarations_then_Defs
           sample_ParseAssignmentExpression sample_ParseConstructorInitializer
           sample_ParseFunctionStatementBody class_scanned);
    reflexivity.
Defined.

Lemma ParseLexedMethodDeclarations_without_default_arguments_witness :
  ParseLexedMethodDeclarations sample_ParseAssignmentExpression
    class_without_default_arguments
  = Some (Returned
            (mkState (cursor_at [tk tok.semi 90] 0 0 0)
               (mkTopClass []
                  [LexedMethod.mk 1 [tk tok.l_brace 40; tk tok.r_brace 41]])
               []
               [EvEnterScope;
                EvActOnStartDelayedCXXMethodDeclaration 1; EvEnterScope;
                EvActOnDelayedCXXMethodParameter 10;
                EvActOnDelayedCXXMethodParameter 11;
                EvExitScope; EvActOnFinishDelayedCXXMethodDeclaration 1;
                EvActOnStartDelayedCXXMethodDeclaration 2; EvEnterScope;
                EvExitScope; EvActOnFinishDelayedCXXMethodDeclaration 2])).
Proof.
  apply (ParseLexedMethodDeclarations_without_default_arguments
           sample_ParseAssignmentExpression class_without_default_arguments).
  reflexivity.
Defined.


Section CaptureUnknown.

Variable ActOnCXXMemberDeclarator :
  ParserState -> AccessSpecifier -> Declarator -> DeclTy.


End CaptureUnknown.


(** ** The further properties on samples *)



Lemma ParseCXXInlineMethodDef_queues_or_drops_witness :
  exists s',
    ParseCXXInlineMethodDef sample_ActOnCXXMemberDeclarator AS_public
      sample_Declarator semicolon_after_initializer
    = Returned (8, s')
    /\ MethodDecls (CurTopClassStack s')
       = MethodDecls (CurTopClassStack semicolon_after_initializer)
    /\ TopClassStacks_below s'
       = TopClassStacks_below semicolon_after_initializer
    /\ ((exists toks,
            MethodDefs (CurTopClassStack s')
            = push_back
                (MethodDefs (CurTopClassStack semicolon_after_initializer))
                (LexedMethod.mk 8 toks)
            /\ Trace s'
               = Trace semicolon_after_initializer
                 ++ [EvActOnCXXMemberDeclarator AS_public sample_Declarator 8]
            /\ feeds (cur semicolon_after_initializer) toks (cur s'))
        \/ (Tok_is semicolon_after_initializer tok.colon = true
            /\ MethodDefs (CurTopClassStack s')
               = MethodDefs (CurTopClassStack semicolon_after_initializer)
            /\ exists w semi,
                 getKind semi = tok.semi
                 /\ Trace s'
                    = Trace semicolon_after_initializer
                      ++ [EvActOnCXXMemberDeclarator AS_public
                            sample_Declarator 8;
                          EvDiag (getLocation semi) diag.err_expected_lbrace]
                 /\ feeds (cur semicolon_after_initializer) (w ++ [semi])
                      (cur s'))).
Proof.
  apply (ParseCXXInlineMethodDef_queues_or_drops
           sample_ActOnCXXMemberDeclarator AS_public sample_Declarator
           semicolon_after_initializer); reflexivity.
Defined.

Lemma ParseCXXInlineMethodDef_replay_round_trip_witness :
  LexedMethod.D
    (LexedMethod.mk 8
       [tk tok.l_brace 10; tk (tok.other 0) 11; tk tok.r_brace 12]) = 8
  /\ forall n,
       lexed
         (ReplayTokens
            [tk tok.l_brace 10; tk (tok.other 0) 11; tk tok.r_brace 12]
            (mkCursor (tk tok.semi 13) [] 0 0 1)) n
       = lexed (cur body_ahead) n.
Proof.
  apply (ParseCXXInlineMethodDef_replay_round_trip
           sample_ActOnCXXMemberDeclarator AS_public sample_Declarator
           body_ahead 8
           (mkState (mkCursor (tk tok.semi 13) [] 0 0 1)
              (mkTopClass []
                 [LexedMethod.mk 7 [tk tok.l_brace 1; tk tok.r_brace 2];
                  LexedMethod.mk 8
                    [tk tok.l_brace 10; tk (tok.other 0) 11;
                     tk tok.r_brace 12]])
              []
              [EvActOnCXXMemberDeclarator AS_public sample_Declarator 8])
           (LexedMethod.mk 8
              [tk tok.l_brace 10; tk (tok.other 0) 11; tk tok.r_brace 12]));
    reflexivity.
Defined.
